(** * developerDebugDisplay: the tree view and the display interface

    A shallow embedding of [src/DisplayInterface/TreeView.cpp] (the item
    hierarchy, the path-splitting [add] and the visibility propagation of
    [clicked]/[updateChildren]) and of [src/DisplayInterface/DisplayInterface.cpp]
    (the singleton of [get], the start-up rendezvous between callers and the
    display thread, and the destructor).

    Scene nodes are shared objects ([osg::ref_ptr<osg::Node>]): an item holds
    the identity of a node, the node's mask lives in the node.  The embedding
    therefore keeps the nodes in a store addressed by identity, and items that
    hold the same identity see the same mask.

    The click and creation callbacks are code of the caller.  An item keeps
    the handle of its click callback; no callback is run here, which is what
    the empty callbacks of [DisplayInterface::add] do.  The mutex of the tree
    view and the lock of the surface serialize the calls on the tree view; a
    call on the tree view is taken as a whole. *)

From Stdlib Require Import String Ascii.
From stdpp Require Import base option list numbers strings.

(** ** Scene nodes (the part of [osg::Node] / [osg::Group] the code uses) *)

Module Osg.

(** [osg::Node::NodeMask] is an unsigned integer; the code only copies masks
    and writes the constant 0. *)
Definition NodeMask := N.

(** A freshly constructed osg node shows in every traversal. *)
Definition defaultMask : NodeMask := 4294967295%N.

(** [children = None]: the node is not a group, [asGroup()] is null.
    [children = Some cs]: an [osg::Group] with the ordered children [cs]. *)
Record Node := mkNode {
  nodeMask : NodeMask;
  children : option (list nat)
}.

(** The node objects alive in the process, addressed by identity.  A result
    of [None] below stands for dereferencing a null pointer. *)
Abbreviation Store := (list Node).

Definition getNodeMask (h : Store) (n : nat) : option NodeMask :=
  nodeMask <$> h !! n.

Definition setNodeMask (h : Store) (n : nat) (m : NodeMask) : option Store :=
  nd ← h !! n; Some (<[n := mkNode m (children nd)]> h).

(** [osg::Group::removeChild] on a node pointer drops its first occurrence. *)
Fixpoint removeFirst (c : nat) (cs : list nat) : list nat :=
  match cs with
  | [] => []
  | x :: cs' => if decide (x = c) then cs' else x :: removeFirst c cs'
  end.

(** [g->asGroup()->addChild(c)] *)
Definition addChild (h : Store) (g c : nat) : option Store :=
  nd ← h !! g; cs ← children nd;
  Some (<[g := mkNode (nodeMask nd) (Some (cs ++ [c]))]> h).

(** [g->asGroup()->removeChild(c)] *)
Definition removeChild (h : Store) (g c : nat) : option Store :=
  nd ← h !! g; cs ← children nd;
  Some (<[g := mkNode (nodeMask nd) (Some (removeFirst c cs))]> h).

(** [new osg::Group()] *)
Definition newGroup (h : Store) : nat * Store :=
  (length h, h ++ [mkNode defaultMask (Some [])]).

Definition isGroup (h : Store) (n : nat) : bool :=
  match h !! n with
  | Some nd => bool_decide (is_Some (children nd))
  | None => false
  end.

End Osg.

(** ** The items of the tree ([TreeView::d3DisplayItem]) *)

Inductive CheckState := Unchecked | PartiallyChecked | Checked.

Global Instance CheckState_eq_dec : EqDecision CheckState.
Proof. solve_decision. Defined.

(** The members are those of the class in [TreeView.h] and the path that
    the constructor calls of [TreeView.cpp] pass in addition.  [m_func] names
    the click callback held by the item.  [isEnabled], [checkState] and
    [rows] are the state the item inherits from [QStandardItem]. *)
Local Unset Elimination Schemes.
Inductive d3DisplayItem := D3DisplayItem {
  m_name : string;
  m_path : string;
  m_node : nat;
  m_priorNodeMask : Osg.NodeMask;
  m_func : nat;
  isEnabled : bool;
  checkState : CheckState;
  rows : list d3DisplayItem
}.
Local Set Elimination Schemes.

Definition isChecked (it : d3DisplayItem) : bool :=
  bool_decide (checkState it = Checked).

Definition setPriorNodeMask (m : Osg.NodeMask) (it : d3DisplayItem) :=
  D3DisplayItem (m_name it) (m_path it) (m_node it) m (m_func it)
                (isEnabled it) (checkState it) (rows it).

Definition setNode (n : nat) (it : d3DisplayItem) :=
  D3DisplayItem (m_name it) (m_path it) n (m_priorNodeMask it) (m_func it)
                (isEnabled it) (checkState it) (rows it).

Definition setEnabled (b : bool) (it : d3DisplayItem) :=
  D3DisplayItem (m_name it) (m_path it) (m_node it) (m_priorNodeMask it)
                (m_func it) b (checkState it) (rows it).

Definition setCheckState (c : CheckState) (it : d3DisplayItem) :=
  D3DisplayItem (m_name it) (m_path it) (m_node it) (m_priorNodeMask it)
                (m_func it) (isEnabled it) c (rows it).

Definition setRows (rs : list d3DisplayItem) (it : d3DisplayItem) :=
  D3DisplayItem (m_name it) (m_path it) (m_node it) (m_priorNodeMask it)
                (m_func it) (isEnabled it) (checkState it) rs.

Definition appendRow (entry : d3DisplayItem) (it : d3DisplayItem) :=
  setRows (rows it ++ [entry]) it.

(** The constructor ([TreeView.h], lines 96-108): the prior mask is the
    node's mask at construction, the item starts checked (and, as every
    [QStandardItem], enabled). *)
Definition newItem (h : Osg.Store) (name path : string) (node func : nat)
  : option d3DisplayItem :=
  m ← Osg.getNodeMask h node;
  Some (D3DisplayItem name path node m func true Checked []).

(** Induction over items that reaches the rows. *)
Section item_induction.
Variable P : d3DisplayItem → Prop.
Hypothesis step : ∀ name path node prior func en cs rs,
  Forall P rs → P (D3DisplayItem name path node prior func en cs rs).

Fixpoint d3DisplayItem_rows_ind (it : d3DisplayItem) : P it :=
  match it with
  | D3DisplayItem name path node prior func en cs rs =>
      step name path node prior func en cs rs
        ((fix go (l : list d3DisplayItem) : Forall P l :=
            match l with
            | [] => Forall_nil_2 P
            | x :: l' => Forall_cons_2 P x l' (d3DisplayItem_rows_ind x) (go l')
            end) rs)
  end.
End item_induction.

(** ** Visibility propagation *)

(** [TreeView::updateChildren], lines 447-477.  The loop over the rows runs
    to the first null child, that is over all rows, and recurses only while
    the item itself is checked. *)
Fixpoint updateChildren (item : d3DisplayItem) (checked : bool) (h : Osg.Store)
  : option (d3DisplayItem * Osg.Store) :=
  match item with
  | D3DisplayItem name path node prior func _ cs rs =>
      '(rs', h1) ←
        (if bool_decide (cs = Checked) then
           (fix loop (l : list d3DisplayItem) (h : Osg.Store) :=
              match l with
              | [] => Some ([], h)
              | child :: l' =>
                  '(child', h') ← updateChildren child checked h;
                  '(l'', h'') ← loop l' h';
                  Some (child' :: l'', h'')
              end) rs h
         else Some (rs, h));
      if checked && bool_decide (cs = Checked) then
        h2 ← Osg.setNodeMask h1 node prior;
        Some (D3DisplayItem name path node prior func checked cs rs', h2)
      else if bool_decide (cs = Checked) then
        m ← Osg.getNodeMask h1 node;
        h2 ← Osg.setNodeMask h1 node 0%N;
        Some (D3DisplayItem name path node m func checked cs rs', h2)
      else
        h2 ← Osg.setNodeMask h1 node 0%N;
        Some (D3DisplayItem name path node prior func checked cs rs', h2)
  end.

(** The loop of [clicked], lines 175-177 (and the inner loop of
    [updateChildren]): every row in order, the store threaded through. *)
Fixpoint updateRows (l : list d3DisplayItem) (checked : bool) (h : Osg.Store)
  : option (list d3DisplayItem * Osg.Store) :=
  match l with
  | [] => Some ([], h)
  | child :: l' =>
      '(child', h') ← updateChildren child checked h;
      '(l'', h'') ← updateRows l' checked h';
      Some (child' :: l'', h'')
  end.

(** [TreeView::clicked], lines 158-171: the item's own node. *)
Definition clickedOwn (item : d3DisplayItem) (h : Osg.Store)
  : option (d3DisplayItem * Osg.Store) :=
  if isChecked item then
    if isEnabled item then
      h' ← Osg.setNodeMask h (m_node item) (m_priorNodeMask item);
      Some (item, h')
    else
      h' ← Osg.setNodeMask h (m_node item) 0%N;
      Some (item, h')
  else
    item' ← (if isEnabled item then
               m ← Osg.getNodeMask h (m_node item);
               Some (setPriorNodeMask m item)
             else Some item);
    h' ← Osg.setNodeMask h (m_node item') 0%N;
    Some (item', h').

(** [TreeView::clicked] on the item the index denotes, lines 156-181.  The
    click callback that runs afterwards belongs to the caller. *)
Definition clickedItem (item : d3DisplayItem) (h : Osg.Store)
  : option (d3DisplayItem * Osg.Store) :=
  '(item1, h1) ← clickedOwn item h;
  '(rs, h2) ← updateRows (rows item1) (isChecked item1) h1;
  Some (setRows rs item1, h2).

(** ** The tree view *)

(** [m_pOsgWidget] holds the widget's root group ([getRootGroup()]) once
    [setOsgWidget] ran; [m_pModel] holds the top-level rows of the
    [QStandardItemModel]; [nodes] is the store of scene nodes the widget, the
    items and the callers share. *)
Record TreeView := mkTreeView {
  m_pOsgWidget : option nat;
  m_pModel : list d3DisplayItem;
  nodes : Osg.Store
}.

(** [TreeView::TreeView] *)
Definition newTreeView (h : Osg.Store) : TreeView := mkTreeView None [] h.

(** Callback handle of the empty callback. *)
Definition noCallback : nat := 0.

(** [TreeView::setOsgWidget] with a non-null widget whose root group is
    [rootGroup]. *)
Definition setOsgWidget (rootGroup : nat) (tv : TreeView) : option TreeView :=
  topEntry ← newItem (nodes tv) "All Displayed Items" "All Displayed Items"
                     rootGroup noCallback;
  Some (mkTreeView (Some rootGroup) (m_pModel tv ++ [topEntry]) (nodes tv)).

(** [TreeView::findChild]: the first row whose name is [name]. *)
Fixpoint findRow (rs : list d3DisplayItem) (name : string) : option nat :=
  match rs with
  | [] => None
  | ch :: rs' =>
      if String.eqb (m_name ch) name then Some 0
      else S <$> findRow rs' name
  end.

Definition findChild (myParent : d3DisplayItem) (name : string) : option nat :=
  findRow (rows myParent) name.

(** The private functions below take the parent item by pointer and change it
    in place; here they return the parent as they leave it. *)

(** [TreeView::createNewEntry], lines 273-318.  The source appends the
    entry to the parent before it hides it (lines 292 and 306-310); the entry
    is the same object in both places. *)
Definition createNewEntry (name path : string) (node clickCallback : nat)
    (enableNode showNode addToDisplay : bool)
    (myParent : d3DisplayItem) (h : Osg.Store)
  : option (bool * d3DisplayItem * Osg.Store) :=
  entry ← newItem h name path node clickCallback;
  let entry := setEnabled enableNode entry in
  h1 ← (if addToDisplay then Osg.addChild h (m_node myParent) node else Some h);
  '(entry, h2) ← (if negb showNode
                  then clickedItem (setCheckState Unchecked entry) h1
                  else Some (entry, h1));
  Some (true, appendRow entry myParent, h2).

(** [TreeView::replaceNode], lines 322-358; [ii] is the row of [entry] under
    [myParent]. *)
Definition replaceNode (ii : nat) (node : nat) (enableNode addToDisplay : bool)
    (myParent : d3DisplayItem) (h : Osg.Store)
  : option (bool * d3DisplayItem * Osg.Store) :=
  entry ← rows myParent !! ii;
  m ← Osg.getNodeMask h (m_node entry);
  h1 ← Osg.setNodeMask h node m;
  h2 ← (if addToDisplay
        then Osg.removeChild h1 (m_node myParent) (m_node entry) else Some h1);
  let entry := setEnabled enableNode (setNode node entry) in
  h3 ← (if addToDisplay
        then Osg.addChild h2 (m_node myParent) (m_node entry) else Some h2);
  Some (true, setRows (<[ii := entry]> (rows myParent)) myParent, h3).

(** [TreeView::addParent], lines 362-428, with the recursive call to [add]
    on the remainder of the name as [addRest]. *)
Definition addParent
    (addRest : string → d3DisplayItem → Osg.Store →
               option (bool * d3DisplayItem * Osg.Store))
    (parentName childName path : string) (clickCallback : nat)
    (myParent : d3DisplayItem) (h : Osg.Store)
  : option (bool * d3DisplayItem * Osg.Store) :=
  '(ii, myParent, h) ←
    match findChild myParent parentName with
    | Some ii => Some (ii, myParent, h)
    | None =>
        let '(g, h0) := Osg.newGroup h in
        entry ← newItem h0 parentName path g clickCallback;
        let entry := setEnabled true entry in
        h1 ← Osg.addChild h0 (m_node myParent) (m_node entry);
        Some (length (rows myParent), appendRow entry myParent, h1)
    end;
  entry ← rows myParent !! ii;
  if Osg.isGroup h (m_node entry) then
    '(rv, entry', h') ← addRest childName entry h;
    Some (rv, setRows (<[ii := entry']> (rows myParent)) myParent, h')
  else
    Some (false, myParent, h).

(** The private [TreeView::add], lines 212-269.  The recursion is on the
    remainder of the name, which is shorter at every call; [fuel] bounds the
    number of calls. *)
Fixpoint add (fuel : nat) (name path : string) (node clickCallback : nat)
    (enableNode showNode addToDisplay : bool)
    (myParent : d3DisplayItem) (h : Osg.Store)
  : option (bool * d3DisplayItem * Osg.Store) :=
  match fuel with
  | 0 => None
  | S fuel =>
      match String.index 0 "::" name with
      | Some nameSplit =>
          let pre := String.substring 0 nameSplit name in
          let post := String.substring (nameSplit + 2) (String.length name) name in
          addParent
            (λ childName entry h,
               add fuel childName path node clickCallback
                   enableNode showNode addToDisplay entry h)
            pre post path clickCallback myParent h
      | None =>
          match findChild myParent name with
          | None =>
              createNewEntry name path node clickCallback
                             enableNode showNode addToDisplay myParent h
          | Some ii =>
              replaceNode ii node enableNode addToDisplay myParent h
          end
      end
  end.

(** The public [TreeView::add], lines 99-133: the top-level item is
    [m_pModel->item(0)], nodes are enabled by default. *)
Definition TreeView_add (name : string) (node : nat)
    (showNode addToDisplay : bool) (clickCallback : nat) (tv : TreeView)
  : option (bool * TreeView) :=
  match m_pOsgWidget tv with
  | Some _ =>
      myItem ← m_pModel tv !! 0;
      '(rv, myItem', h') ←
        add (S (String.length name)) name name node clickCallback
            true showNode addToDisplay myItem (nodes tv);
      Some (rv, mkTreeView (m_pOsgWidget tv) (<[0 := myItem']> (m_pModel tv)) h')
  | None => Some (false, tv)
  end.

(** A [QModelIndex] is the list of row numbers from the top of the model. *)
Definition QModelIndex := list nat.

(** [QStandardItemModel::itemFromIndex] *)
Fixpoint itemFromIndex (rs : list d3DisplayItem) (index : QModelIndex)
  : option d3DisplayItem :=
  match index with
  | [] => None
  | ii :: index' =>
      item ← rs !! ii;
      match index' with
      | [] => Some item
      | _ => itemFromIndex (rows item) index'
      end
  end.

(** Run [f] on the item at [index], in place. *)
Fixpoint atIndex (f : d3DisplayItem → Osg.Store → option (d3DisplayItem * Osg.Store))
    (rs : list d3DisplayItem) (index : QModelIndex) (h : Osg.Store)
  : option (list d3DisplayItem * Osg.Store) :=
  match index with
  | [] => None
  | ii :: index' =>
      item ← rs !! ii;
      '(item', h') ←
        match index' with
        | [] => f item h
        | _ => '(rs', h') ← atIndex f (rows item) index' h;
               Some (setRows rs' item, h')
        end;
      Some (<[ii := item']> rs, h')
  end.

(** The slot [TreeView::clicked], lines 141-186.  An index that denotes no
    item makes the slot throw, which is [None] here. *)
Definition clicked (index : QModelIndex) (tv : TreeView) : option TreeView :=
  match m_pOsgWidget tv with
  | Some _ =>
      '(rs, h) ← atIndex clickedItem (m_pModel tv) index (nodes tv);
      Some (mkTreeView (m_pOsgWidget tv) rs h)
  | None => Some tv
  end.

(** The clicked transition of the item at [index] to the check state [c]:
    the new check state is stored in the item, then the slot runs, as lines
    308-309 do for an entry that is added hidden and as the view does when
    the user toggles the check box. *)
Definition toggle (c : CheckState) (index : QModelIndex) (tv : TreeView)
  : option TreeView :=
  '(rs, _) ← atIndex (λ item h, Some (setCheckState c item, h))
                     (m_pModel tv) index (nodes tv);
  clicked index (mkTreeView (m_pOsgWidget tv) rs (nodes tv)).

(** ** Notions used in the statements *)

(** Lines 464-476 of [updateChildren]: what the item does to its own node
    once its rows are done. *)
Definition updateOwn (item : d3DisplayItem) (checked : bool)
    (rs' : list d3DisplayItem) (h1 : Osg.Store)
  : option (d3DisplayItem * Osg.Store) :=
  if checked && isChecked item then
    h2 ← Osg.setNodeMask h1 (m_node item) (m_priorNodeMask item);
    Some (setRows rs' (setEnabled checked item), h2)
  else if isChecked item then
    m ← Osg.getNodeMask h1 (m_node item);
    h2 ← Osg.setNodeMask h1 (m_node item) 0%N;
    Some (setRows rs' (setEnabled checked (setPriorNodeMask m item)), h2)
  else
    h2 ← Osg.setNodeMask h1 (m_node item) 0%N;
    Some (setRows rs' (setEnabled checked item), h2).

(** The nodes a propagation into [item] writes: the item's own and, while the
    item is checked, those of its rows, recursively. *)
Fixpoint visited (item : d3DisplayItem) : list nat :=
  m_node item ::
  (if isChecked item then flat_map visited (rows item) else []).

(** The nodes held by the items of a subtree. *)
Fixpoint subtreeNodes (item : d3DisplayItem) : list nat :=
  m_node item :: flat_map subtreeNodes (rows item).

(** An item with the state that the propagation may change (the enabled flag
    and the remembered mask) blanked out, in the whole subtree. *)
Fixpoint frame (item : d3DisplayItem) : d3DisplayItem :=
  D3DisplayItem (m_name item) (m_path item) (m_node item) 0%N (m_func item)
                true (checkState item) (map frame (rows item)).

(** [quiet n item]: every checked item that a propagation into [item] visits
    and that holds the node [n] remembers the mask 0. *)
Fixpoint quiet (n : nat) (item : d3DisplayItem) : bool :=
  negb (isChecked item) ||
  ((negb (bool_decide (m_node item = n)) ||
    bool_decide (m_priorNodeMask item = 0%N)) &&
   forallb (quiet n) (rows item)).

(** A path segment: the delimiter does not occur in it, and its last
    character forms no delimiter with the one that follows. *)
Definition segment (s : string) : Prop :=
  String.index 0 "::" (s +:+ ":") = None.

(** Sibling names are pairwise distinct, at every level below [item]. *)
Fixpoint uniqueNames (item : d3DisplayItem) : bool :=
  bool_decide (NoDup (m_name <$> rows item)) && forallb uniqueNames (rows item).

(** [kept x x']: the item [x'] has the name, the path, the click callback,
    the check state and the remembered mask of [x]. *)
Definition kept (x x' : d3DisplayItem) : Prop :=
  m_name x' = m_name x ∧ m_path x' = m_path x ∧ m_func x' = m_func x ∧
  checkState x' = checkState x ∧ m_priorNodeMask x' = m_priorNodeMask x.

(** [keeps rs rs']: every index that denotes an item below [rs] denotes an
    item below [rs'] that keeps it. *)
Definition keeps (rs rs' : list d3DisplayItem) : Prop :=
  ∀ q x, itemFromIndex rs q = Some x →
         ∃ x', itemFromIndex rs' q = Some x' ∧ kept x x'.

(** [settled h item]: every item that a propagation into [item] visits and
    that is not checked has its node hidden in [h]. *)
Fixpoint settled (h : Osg.Store) (item : d3DisplayItem) : bool :=
  if isChecked item then forallb (settled h) (rows item)
  else bool_decide (Osg.getNodeMask h (m_node item) = Some 0%N).

(** ** Example scenes *)

(** A store with the root group of the surface (0), two plain nodes with
    the masks 7 and 9 (1 and 2), and a group with the mask 5 (3). *)
Definition exampleStore : Osg.Store :=
  [Osg.mkNode Osg.defaultMask (Some []); Osg.mkNode 7%N None;
   Osg.mkNode 9%N None; Osg.mkNode 5%N (Some [])].

Definition emptyView : option TreeView :=
  setOsgWidget 0 (newTreeView exampleStore).

(** P with the rows C1, added hidden, and C2, each with a node of its own. *)
Definition plainScene : option TreeView :=
  tv ← emptyView;
  '(_, tv) ← TreeView_add "P::C1" 1 false true noCallback tv;
  '(_, tv) ← TreeView_add "P::C2" 2 true true noCallback tv;
  Some tv.

Definition plainC1 : d3DisplayItem :=
  D3DisplayItem "C1" "P::C1" 1 7%N noCallback true Unchecked [].
Definition plainC2 : d3DisplayItem :=
  D3DisplayItem "C2" "P::C2" 2 9%N noCallback true Checked [].
Definition plainP : d3DisplayItem :=
  D3DisplayItem "P" "P::C1" 4 Osg.defaultMask noCallback true Checked
                [plainC1; plainC2].
Definition plainView : TreeView :=
  mkTreeView (Some 0)
    [D3DisplayItem "All Displayed Items" "All Displayed Items" 0
                   Osg.defaultMask noCallback true Checked [plainP]]
    [Osg.mkNode Osg.defaultMask (Some [4]); Osg.mkNode 0%N None;
     Osg.mkNode 9%N None; Osg.mkNode 5%N (Some []);
     Osg.mkNode Osg.defaultMask (Some [1; 2])].

(** The same with a third row C3 that holds the node of C2. *)
Definition sharedScene : option TreeView :=
  tv ← plainScene;
  '(_, tv) ← TreeView_add "P::C3" 2 true true noCallback tv;
  Some tv.

(** P with the rows U, added hidden on a group of the caller, and V; the
    row D of U holds the node of V. *)
Definition aliasScene : option TreeView :=
  tv ← emptyView;
  '(_, tv) ← TreeView_add "P::U" 3 false true noCallback tv;
  '(_, tv) ← TreeView_add "P::U::D" 1 true true noCallback tv;
  '(_, tv) ← TreeView_add "P::V" 1 true true noCallback tv;
  Some tv.

Definition aliasD : d3DisplayItem :=
  D3DisplayItem "D" "P::U::D" 1 7%N noCallback true Checked [].
Definition aliasU : d3DisplayItem :=
  D3DisplayItem "U" "P::U" 3 5%N noCallback true Unchecked [aliasD].
Definition aliasV : d3DisplayItem :=
  D3DisplayItem "V" "P::V" 1 7%N noCallback true Checked [].
Definition aliasP : d3DisplayItem :=
  D3DisplayItem "P" "P::U" 4 Osg.defaultMask noCallback true Checked
                [aliasU; aliasV].
Definition aliasView : TreeView :=
  mkTreeView (Some 0)
    [D3DisplayItem "All Displayed Items" "All Displayed Items" 0
                   Osg.defaultMask noCallback true Checked [aliasP]]
    [Osg.mkNode Osg.defaultMask (Some [4]); Osg.mkNode 7%N None;
     Osg.mkNode 9%N None; Osg.mkNode 0%N (Some [1]);
     Osg.mkNode Osg.defaultMask (Some [3; 1])].

(** The top-level item of [plainView]. *)
Definition plainTop : d3DisplayItem :=
  D3DisplayItem "All Displayed Items" "All Displayed Items" 0
                Osg.defaultMask noCallback true Checked [plainP].

(** P with the row C, and a second row Q of the top-level item that holds
    the node of C. *)
Definition twinScene : option TreeView :=
  tv ← emptyView;
  '(_, tv) ← TreeView_add "P::C" 2 true true noCallback tv;
  '(_, tv) ← TreeView_add "Q" 2 true true noCallback tv;
  Some tv.

(** A leaf under X::Y. *)
Definition conflictScene : option TreeView :=
  tv ← emptyView;
  '(_, tv) ← TreeView_add "X::Y" 1 true true noCallback tv;
  Some tv.

(** ** The display interface ([DisplayInterface.cpp])

    The callers, the display thread and the destructor run interleaved.  A
    thread advances by one access to the shared state at a time; the name of
    a position is the line of the thread's next statement in the source.  A
    thread that cannot advance (a mutex held elsewhere, a join on a running
    thread) has no step.  The test of a [while] and the call of [wait] in its
    body are two steps: the thread owns the mutex in between, which keeps out
    the threads that take the mutex and no others.  Reads and writes of the
    flags are taken as atomic and sequentially consistent.  A thread inside
    [condition_variable::wait] returns when it can take the mutex again,
    after a notification or without one: the standard allows such spurious
    returns, and the loops of lines 304-305 and 415-416 are written for them.
    [returnsSpuriously] tells the two kinds of return apart. *)

Module Startup.

Inductive ThreadId := DisplayThread | Caller (i : nat) | Destroyer.

Global Instance ThreadId_eq_dec : EqDecision ThreadId.
Proof. solve_decision. Defined.

(** Modelled from the spec: the class [MainWindow], which is not under
    [src/]; a window that takes a size policy, embeds the surface and the
    panel, and can be asked to close.  Line 322 constructs it, lines 323-325
    size it, line 336 packs the surface and line 346 the panel into it, line
    392 asks it to close. *)
Record MainWindow := mkMainWindow {
  sized : bool;
  hasSurface : bool;
  hasPanel : bool;
  closed : bool
}.

(** Modelled from the spec: the class [QOSGWidget], which is not under
    [src/]; a surface with an [initialize()] call and a lock with
    [lock()], [try_lock()] and [unlock()].  Line 331 constructs it, line 332
    initializes it; [heldBy] is the owner of its lock. *)
Record QOSGWidget := mkQOSGWidget {
  initialized : bool;
  heldBy : option ThreadId
}.

(** The panel, as far as the interface sees it: line 341 constructs it,
    line 342 gives it the surface ([TreeView::setOsgWidget]). *)
Record TreeViewPanel := mkTreeViewPanel {
  hasWidget : bool
}.

(** Modelled from the spec: [MainWindow::close() -> bool], which is not
    under [src/].  The window answers whether it closed; a window that
    refuses stays as it is.  [closes] is the answer of the window, which is
    for the window to give. *)
Definition close (closes : bool) (w : MainWindow) : bool * MainWindow :=
  (closes,
   mkMainWindow (sized w) (hasSurface w) (hasPanel w) (closed w || closes)).

Global Instance MainWindow_eq_dec : EqDecision MainWindow.
Proof. solve_decision. Defined.
Global Instance QOSGWidget_eq_dec : EqDecision QOSGWidget.
Proof. solve_decision. Defined.
Global Instance TreeViewPanel_eq_dec : EqDecision TreeViewPanel.
Proof. solve_decision. Defined.

(** The members of [DisplayInterface].  [m_mutex] is the owner of the mutex,
    [m_addNotify] the threads blocked in a wait on the condition variable.
    [windowsMade], [surfacesMade] and [panelsMade] count the constructor
    calls of lines 322, 331 and 341. *)
Record DisplayInterface := mkDisplayInterface {
  m_pMainWindow : option MainWindow;
  m_pTreeView : option TreeViewPanel;
  m_pOsgWidget : option QOSGWidget;
  m_mutex : option ThreadId;
  m_addNotify : list ThreadId;
  m_haveData : bool;
  m_setupComplete : bool;
  m_threadShouldRun : bool;
  windowsMade : nat;
  surfacesMade : nat;
  panelsMade : nat
}.

Global Instance DisplayInterface_eq_dec : EqDecision DisplayInterface.
Proof. solve_decision. Defined.

(** The state the constructor leaves (lines 277-289). *)
Definition constructed : DisplayInterface :=
  mkDisplayInterface None None None None [] false false true 0 0 0.

Definition setWindow w (d : DisplayInterface) :=
  mkDisplayInterface w (m_pTreeView d) (m_pOsgWidget d) (m_mutex d)
    (m_addNotify d) (m_haveData d) (m_setupComplete d) (m_threadShouldRun d)
    (windowsMade d) (surfacesMade d) (panelsMade d).
Definition setPanel p (d : DisplayInterface) :=
  mkDisplayInterface (m_pMainWindow d) p (m_pOsgWidget d) (m_mutex d)
    (m_addNotify d) (m_haveData d) (m_setupComplete d) (m_threadShouldRun d)
    (windowsMade d) (surfacesMade d) (panelsMade d).
Definition setSurface w (d : DisplayInterface) :=
  mkDisplayInterface (m_pMainWindow d) (m_pTreeView d) w (m_mutex d)
    (m_addNotify d) (m_haveData d) (m_setupComplete d) (m_threadShouldRun d)
    (windowsMade d) (surfacesMade d) (panelsMade d).
Definition setMutex o (d : DisplayInterface) :=
  mkDisplayInterface (m_pMainWindow d) (m_pTreeView d) (m_pOsgWidget d) o
    (m_addNotify d) (m_haveData d) (m_setupComplete d) (m_threadShouldRun d)
    (windowsMade d) (surfacesMade d) (panelsMade d).
Definition setWaiting ws (d : DisplayInterface) :=
  mkDisplayInterface (m_pMainWindow d) (m_pTreeView d) (m_pOsgWidget d)
    (m_mutex d) ws (m_haveData d) (m_setupComplete d) (m_threadShouldRun d)
    (windowsMade d) (surfacesMade d) (panelsMade d).
Definition setHaveData b (d : DisplayInterface) :=
  mkDisplayInterface (m_pMainWindow d) (m_pTreeView d) (m_pOsgWidget d)
    (m_mutex d) (m_addNotify d) b (m_setupComplete d) (m_threadShouldRun d)
    (windowsMade d) (surfacesMade d) (panelsMade d).
Definition setSetupComplete b (d : DisplayInterface) :=
  mkDisplayInterface (m_pMainWindow d) (m_pTreeView d) (m_pOsgWidget d)
    (m_mutex d) (m_addNotify d) (m_haveData d) b (m_threadShouldRun d)
    (windowsMade d) (surfacesMade d) (panelsMade d).
Definition setThreadShouldRun b (d : DisplayInterface) :=
  mkDisplayInterface (m_pMainWindow d) (m_pTreeView d) (m_pOsgWidget d)
    (m_mutex d) (m_addNotify d) (m_haveData d) (m_setupComplete d) b
    (windowsMade d) (surfacesMade d) (panelsMade d).
Definition countWindow (d : DisplayInterface) :=
  mkDisplayInterface (m_pMainWindow d) (m_pTreeView d) (m_pOsgWidget d)
    (m_mutex d) (m_addNotify d) (m_haveData d) (m_setupComplete d)
    (m_threadShouldRun d) (S (windowsMade d)) (surfacesMade d) (panelsMade d).
Definition countSurface (d : DisplayInterface) :=
  mkDisplayInterface (m_pMainWindow d) (m_pTreeView d) (m_pOsgWidget d)
    (m_mutex d) (m_addNotify d) (m_haveData d) (m_setupComplete d)
    (m_threadShouldRun d) (windowsMade d) (S (surfacesMade d)) (panelsMade d).
Definition countPanel (d : DisplayInterface) :=
  mkDisplayInterface (m_pMainWindow d) (m_pTreeView d) (m_pOsgWidget d)
    (m_mutex d) (m_addNotify d) (m_haveData d) (m_setupComplete d)
    (m_threadShouldRun d) (windowsMade d) (surfacesMade d) (S (panelsMade d)).

(** [std::unique_lock] / [std::lock_guard] on [m_mutex]: the step exists
    only while the mutex is free. *)
Definition acquire (t : ThreadId) (d : DisplayInterface) : option DisplayInterface :=
  match m_mutex d with
  | None => Some (setMutex (Some t) d)
  | Some _ => None
  end.

Definition release (d : DisplayInterface) : DisplayInterface := setMutex None d.

(** [m_addNotify.wait(l_lock)]: the mutex is released and the thread joins
    the waiting threads. *)
Definition wait (t : ThreadId) (d : DisplayInterface) : DisplayInterface :=
  setWaiting (m_addNotify d ++ [t]) (release d).

(** The return from [wait], with the mutex again: the step exists while the
    mutex is free, whether the thread was notified or not, and the thread is
    no longer among the waiting threads. *)
Definition wake (t : ThreadId) (d : DisplayInterface) : option DisplayInterface :=
  acquire t (setWaiting (filter (λ t', t' ≠ t) (m_addNotify d)) d).

(** [m_addNotify.notify_all()] *)
Definition notify_all (d : DisplayInterface) : DisplayInterface := setWaiting [] d.

(** *** The display thread (the lambda of lines 292-375) *)

Inductive DisplayPc :=
| D294 | D301 | D304 | D305 | D305Blocked | D307 | D322 | D323 | D329 | D332
| D336 | D339 | D342 | D346 | D348 | D351 | D354 | D357 | DisplayExited.

Global Instance DisplayPc_eq_dec : EqDecision DisplayPc.
Proof. solve_decision. Defined.

Definition onWindow (f : MainWindow → MainWindow) (d : DisplayInterface)
  : option DisplayInterface :=
  w ← m_pMainWindow d; Some (setWindow (Some (f w)) d).

(** One step of the display thread.  Line 317 makes the [QApplication],
    which no other thread sees.  A turn of the loop of lines 357-374 takes the
    locks it can get, processes the events and returns the locks; it leaves
    the shared state as it found it. *)
Definition displayStep (pc : DisplayPc) (d : DisplayInterface)
  : option (DisplayPc * DisplayInterface) :=
  match pc with
  | D294 => Some (D301, setSetupComplete false d)
  | D301 => d' ← acquire DisplayThread d; Some (D304, d')
  | D304 => if m_haveData d then Some (D307, d) else Some (D305, d)
  | D305 => Some (D305Blocked, wait DisplayThread d)
  | D305Blocked => d' ← wake DisplayThread d; Some (D304, d')
  | D307 => if m_threadShouldRun d then Some (D322, d)
            else Some (DisplayExited, release d)
  | D322 => match m_pMainWindow d with
            | None => Some (D323, countWindow
                         (setWindow (Some (mkMainWindow false false false false)) d))
            | Some _ => Some (D329, d)
            end
  | D323 => d' ← onWindow (λ w, mkMainWindow true (hasSurface w) (hasPanel w)
                                             (closed w)) d;
            Some (D329, d')
  | D329 => match m_pOsgWidget d with
            | None => Some (D332, countSurface
                         (setSurface (Some (mkQOSGWidget false None)) d))
            | Some _ => Some (D336, d)
            end
  | D332 => w ← m_pOsgWidget d;
            Some (D336, setSurface (Some (mkQOSGWidget true (heldBy w))) d)
  | D336 => d' ← onWindow (λ w, mkMainWindow (sized w) true (hasPanel w)
                                             (closed w)) d;
            Some (D339, d')
  | D339 => match m_pTreeView d with
            | None => Some (D342, countPanel
                         (setPanel (Some (mkTreeViewPanel false)) d))
            | Some _ => Some (D346, d)
            end
  | D342 => _ ← m_pTreeView d;
            Some (D346, setPanel (Some (mkTreeViewPanel true)) d)
  | D346 => d' ← onWindow (λ w, mkMainWindow (sized w) (hasSurface w) true
                                             (closed w)) d;
            Some (D348, d')
  | D348 => Some (D351, release d)
  | D351 => Some (D354, setSetupComplete true d)
  | D354 => Some (D357, notify_all d)
  | D357 => if m_threadShouldRun d then Some (D357, d)
            else Some (DisplayExited, d)
  | DisplayExited => None
  end.

(** *** The callers (lines 49-228 and [setupMainWindow], lines 405-421) *)

Inductive Operation :=
| AddNode | AddKeyHandler | AddMouseHandler | AddMotionHandler
| Track | Lock | TryLock | Unlock.

Global Instance Operation_eq_dec : EqDecision Operation.
Proof. solve_decision. Defined.

(** The operations that go through [setupMainWindow]. *)
Definition requiresWindow (op : Operation) : bool :=
  match op with
  | TryLock | Unlock => false
  | _ => true
  end.

(** Of these, the ones that first set [m_haveData] (lines 55, 82, 113, 133
    and 157); [lock] does not. *)
Definition announcesData (op : Operation) : bool :=
  match op with
  | AddNode | AddKeyHandler | AddMouseHandler | AddMotionHandler | Track => true
  | _ => false
  end.

(** The overloads of [add] take [m_mutex] before they delegate (lines 66,
    93, 123 and 143); [track] and [lock] do not. *)
Definition guarded (op : Operation) : bool :=
  match op with
  | AddNode | AddKeyHandler | AddMouseHandler | AddMotionHandler => true
  | _ => false
  end.

(** [Entry]: the first statement of the operation.  [S408] to [S420]: the
    statements of [setupMainWindow], [S416Blocked] inside the wait.  [NoWindow]: the branch taken when
    [setupMainWindow] returned false.  [Guard], [Delegate], [Unguard]: the
    call on the panel or the surface and the lock around it.  [Returned b]:
    the operation returned [b].  [NullDereference]: the operation called
    through a null [m_pTreeView] or [m_pOsgWidget]. *)
Inductive CallerPc :=
| Entry | S408 | S411 | S412 | S415 | S416 | S416Blocked | S417 | S420
| NoWindow | Guard | Delegate | Unguard (rv : bool)
| Returned (rv : bool) | NullDereference.

Global Instance CallerPc_eq_dec : EqDecision CallerPc.
Proof. solve_decision. Defined.

(** A call in progress: the operation, what the panel or the surface will
    answer to it, and where the call stands. *)
Record Call := mkCall {
  operation : Operation;
  accepted : bool;
  at_ : CallerPc
}.

Global Instance Call_eq_dec : EqDecision Call.
Proof. solve_decision. Defined.

Definition goto (pc : CallerPc) (c : Call) : Call :=
  mkCall (operation c) (accepted c) pc.

(** [DisplayInterface::setupMainWindow], lines 405-421.  The value it
    returns, read at line 420, sends the caller on ([Guard] for the overloads
    of [add], [Delegate] for [track] and [lock]) or into the branch of line 59
    ([NoWindow]). *)
Definition setupMainWindow (t : ThreadId) (c : Call) (d : DisplayInterface)
  : option (Call * DisplayInterface) :=
  match at_ c with
  | S408 => match m_pMainWindow d with
            | None => Some (goto S411 c, d)
            | Some _ => Some (goto S420 c, d)
            end
  | S411 => d' ← acquire t d; Some (goto S412 c, d')
  | S412 => Some (goto S415 c, notify_all d)
  | S415 => if m_setupComplete d then Some (goto S417 c, d)
            else Some (goto S416 c, d)
  | S416 => Some (goto S416Blocked c, wait t d)
  | S416Blocked => d' ← wake t d; Some (goto S415 c, d')
  | S417 => Some (goto S420 c, release d)
  | S420 => match m_pMainWindow d with
            | Some _ => Some (goto (if guarded (operation c) then Guard
                                    else Delegate) c, d)
            | None => Some (goto NoWindow c, d)
            end
  | _ => None
  end.

(** The four overloads of [DisplayInterface::add], lines 49-146.  The node
    goes to the panel, where [TreeView::add] answers false while it has no
    surface; the handlers go to the surface. *)
Definition add (t : ThreadId) (c : Call) (d : DisplayInterface)
  : option (Call * DisplayInterface) :=
  match at_ c with
  | Entry => Some (goto S408 c, setHaveData true d)
  | NoWindow => Some (goto (Returned false) c, setHaveData false d)
  | Guard => d' ← acquire t d; Some (goto Delegate c, d')
  | Delegate =>
      match operation c with
      | AddNode =>
          match m_pTreeView d with
          | None => Some (goto NullDereference c, d)
          | Some p => Some (goto (Unguard (hasWidget p && accepted c)) c, d)
          end
      | _ =>
          match m_pOsgWidget d with
          | None => Some (goto NullDereference c, d)
          | Some _ => Some (goto (Unguard (accepted c)) c, d)
          end
      end
  | Unguard rv => Some (goto (Returned rv) c, release d)
  | _ => None
  end.

(** [DisplayInterface::track], lines 150-169. *)
Definition track (t : ThreadId) (c : Call) (d : DisplayInterface)
  : option (Call * DisplayInterface) :=
  match at_ c with
  | Entry => Some (goto S408 c, setHaveData true d)
  | NoWindow => Some (goto (Returned false) c, setHaveData false d)
  | Delegate =>
      match m_pOsgWidget d with
      | None => Some (goto NullDereference c, d)
      | Some _ => Some (goto (Returned true) c, d)
      end
  | _ => None
  end.

(** [DisplayInterface::lock], lines 195-207; the call waits for the lock of
    the surface. *)
Definition lock (t : ThreadId) (c : Call) (d : DisplayInterface)
  : option (Call * DisplayInterface) :=
  match at_ c with
  | Entry => Some (goto S408 c, d)
  | NoWindow => Some (goto (Returned false) c, setHaveData false d)
  | Delegate =>
      match m_pOsgWidget d with
      | None => Some (goto NullDereference c, d)
      | Some w =>
          match heldBy w with
          | None => Some (goto (Returned true) c,
                          setSurface (Some (mkQOSGWidget (initialized w) (Some t))) d)
          | Some _ => None
          end
      end
  | _ => None
  end.

(** [DisplayInterface::try_lock], lines 211-216. *)
Definition try_lock (t : ThreadId) (c : Call) (d : DisplayInterface)
  : option (Call * DisplayInterface) :=
  match at_ c with
  | Entry =>
      match m_pOsgWidget d with
      | Some w =>
          match heldBy w with
          | None => Some (goto (Returned true) c,
                          setSurface (Some (mkQOSGWidget (initialized w) (Some t))) d)
          | Some _ => Some (goto (Returned false) c, d)
          end
      | None => Some (goto (Returned false) c, d)
      end
  | _ => None
  end.

(** [DisplayInterface::unlock], lines 220-228. *)
Definition unlock (t : ThreadId) (c : Call) (d : DisplayInterface)
  : option (Call * DisplayInterface) :=
  match at_ c with
  | Entry =>
      match m_pOsgWidget d with
      | Some w => Some (goto (Returned true) c,
                        setSurface (Some (mkQOSGWidget (initialized w) None)) d)
      | None => Some (goto (Returned false) c, d)
      end
  | _ => None
  end.

(** One step of a call: inside [setupMainWindow], or in the operation. *)
Definition callerStep (t : ThreadId) (c : Call) (d : DisplayInterface)
  : option (Call * DisplayInterface) :=
  match at_ c with
  | S408 | S411 | S412 | S415 | S416 | S416Blocked | S417 | S420 =>
      setupMainWindow t c d
  | _ =>
      match operation c with
      | AddNode | AddKeyHandler | AddMouseHandler | AddMotionHandler => add t c d
      | Track => track t c d
      | Lock => lock t c d
      | TryLock => try_lock t c d
      | Unlock => unlock t c d
      end
  end.

(** *** The destructor (lines 380-401) *)

(** [X383] to [X392]: the statements up to the call of [close()] at line
    392; they carry what the window will answer to that call.  [X393]: the
    message of line 393, after a refused close.  [X394]: the end of the scope
    of the lock.  [X400]: the join. *)
Inductive DestroyerPc :=
| X383 (closes : bool) | X386 (closes : bool) | X389 (closes : bool)
| X392 (closes : bool)
| X393 | X394 | X396 | X397 | X398 | X400 | Destroyed.

Global Instance DestroyerPc_eq_dec : EqDecision DestroyerPc.
Proof. solve_decision. Defined.

(** [displayExited] tells whether the display thread has returned, which
    is what [join] waits for. *)
Definition destroyerStep (displayExited : bool) (pc : DestroyerPc)
    (d : DisplayInterface) : option (DestroyerPc * DisplayInterface) :=
  match pc with
  | X383 closes => Some (X386 closes, d)
  | X386 closes => match m_pMainWindow d with
                   | Some _ => Some (X389 closes, d)
                   | None => Some (X396, d)
                   end
  | X389 closes => d' ← acquire Destroyer d; Some (X392 closes, d')
  | X392 closes => w ← m_pMainWindow d;
                   let '(rv, w') := close closes w in
                   Some (if rv then X394 else X393, setWindow (Some w') d)
  | X393 => Some (X394, d)
  | X394 => Some (X396, release d)
  | X396 => Some (X397, setHaveData true d)
  | X397 => Some (X398, setThreadShouldRun false d)
  | X398 => if m_setupComplete d then Some (X400, d)
            else Some (X400, notify_all d)
  | X400 => if displayExited then Some (Destroyed, d) else None
  | Destroyed => None
  end.

(** *** The process *)

Record Process := mkProcess {
  shared : DisplayInterface;
  display : DisplayPc;
  calls : list Call;
  destroyer : option DestroyerPc
}.

Global Instance Process_eq_dec : EqDecision Process.
Proof. solve_decision. Defined.

(** One step of thread [t]. *)
Definition step (t : ThreadId) (s : Process) : option Process :=
  match t with
  | DisplayThread =>
      '(pc, d) ← displayStep (display s) (shared s);
      Some (mkProcess d pc (calls s) (destroyer s))
  | Caller i =>
      c ← calls s !! i;
      '(c', d) ← callerStep t c (shared s);
      Some (mkProcess d (display s) (<[i := c']> (calls s)) (destroyer s))
  | Destroyer =>
      pc ← destroyer s;
      '(pc', d) ← destroyerStep (bool_decide (display s = DisplayExited)) pc (shared s);
      Some (mkProcess d (display s) (calls s) (Some pc'))
  end.

(** A schedule names the thread of each step. *)
Fixpoint run (schedule : list ThreadId) (s : Process) : option Process :=
  match schedule with
  | [] => Some s
  | t :: schedule' => s' ← step t s; run schedule' s'
  end.

(** Thread [t] is inside a wait. *)
Definition inWait (t : ThreadId) (s : Process) : bool :=
  match t with
  | DisplayThread => bool_decide (display s = D305Blocked)
  | Caller i => match calls s !! i with
                | Some c => bool_decide (at_ c = S416Blocked)
                | None => false
                end
  | Destroyer => false
  end.

(** Thread [t] is inside a wait and no notification has reached it: a step
    of [t] is then a spurious return from the wait. *)
Definition returnsSpuriously (t : ThreadId) (s : Process) : bool :=
  inWait t s && bool_decide (t ∈ m_addNotify (shared s)).

(** The steps and the executions in which no wait returns spuriously. *)
Definition stepNotified (t : ThreadId) (s : Process) : option Process :=
  if returnsSpuriously t s then None else step t s.

Fixpoint runNotified (schedule : list ThreadId) (s : Process) : option Process :=
  match schedule with
  | [] => Some s
  | t :: schedule' => s' ← stepNotified t s; runNotified schedule' s'
  end.

(** The destructor begins; [closes] is what the window will answer to
    [close()]. *)
Definition beginDestructor (closes : bool) (s : Process) : Process :=
  mkProcess (shared s) (display s) (calls s) (Some (X383 closes)).

(** The process after [DisplayInterface::DisplayInterface]: the display
    thread at the start of its lambda, the given calls not yet begun. *)
Definition started (ops : list (Operation * bool)) : Process :=
  mkProcess constructed D294 (map (λ o, mkCall o.1 o.2 Entry) ops) None.

(** The process in which the display thread is parked in the wait of line
    305, no call was ever made, and the destructor begins. *)
Definition parked : Process :=
  mkProcess (setWaiting [DisplayThread] constructed) D305Blocked []
            (Some (X383 true)).

(** The process in which the display thread has found [m_haveData] false
    at line 304 and is about to call the wait of line 305 when the destructor
    begins. *)
Definition parking : Process :=
  mkProcess (setMutex (Some DisplayThread) constructed) D305 []
            (Some (X383 true)).

(** The steps still to be taken by the destructor and by the display thread
    once the destructor has begun on the parked process, where the wait
    returns on the notification. *)
Definition stepsLeft (s : Process) : nat :=
  match destroyer s with
  | Some (X383 _) => 6 | Some (X386 _) => 5 | Some X396 => 4 | Some X397 => 3
  | Some X398 => 2 | Some X400 => 1 | _ => 0
  end +
  match display s with
  | D305Blocked => 3 | D304 => 2 | D307 => 1 | _ => 0
  end.

(** The states of the process between [parked] and the end of the
    destructor where no wait returns spuriously: each such step of the
    display thread or of the destructor from a state of the list leads to a
    state of the list. *)
Definition successors (s : Process) : list Process :=
  omap (λ t, stepNotified t s) [DisplayThread; Destroyer].

Fixpoint explore (n : nat) (seen : list Process) : list Process :=
  match n with
  | 0 => seen
  | S n => explore n (list_union seen (seen ≫= successors))
  end.

Definition teardownStates : list Process := explore 9 [parked].

(** The process when the destructor returns. *)
Definition tornDown : Process :=
  mkProcess (mkDisplayInterface None None None None [] true false false 0 0 0)
            DisplayExited [] (Some Destroyed).

(** What is checked of each state of [teardownStates]. *)
Definition teardownCheck (s : Process) : bool :=
  bool_decide (calls s = []) &&
  bool_decide (m_pMainWindow (shared s) = None) &&
  bool_decide (windowsMade (shared s) = 0) &&
  forallb (λ t, match stepNotified t s with
                | Some s' => bool_decide (s' ∈ teardownStates) &&
                             bool_decide (stepsLeft s = S (stepsLeft s'))
                | None => true
                end) [DisplayThread; Destroyer] &&
  (if bool_decide (stepsLeft s = 0) then bool_decide (s = tornDown)
   else bool_decide (is_Some (stepNotified DisplayThread s) ∨
                     is_Some (stepNotified Destroyer s))).

(** A schedule in which a call of [track] overtakes the construction: the
    display thread parks (4 steps), a call of [add] announces data, wakes it
    and waits for the setup (6 steps), the display thread wakes and makes the
    window (4 steps), and the call of [track] then runs to its end (4
    steps). *)
Definition overtaking : list ThreadId :=
  [DisplayThread; DisplayThread; DisplayThread; DisplayThread;
   Caller 0; Caller 0; Caller 0; Caller 0; Caller 0; Caller 0;
   DisplayThread; DisplayThread; DisplayThread; DisplayThread;
   Caller 1; Caller 1; Caller 1; Caller 1].

(** The schedule of the teardown: the destructor up to its notification
    (5 steps), the display thread from its wake-up to its return (3 steps),
    the join. *)
Definition teardown : list ThreadId :=
  [Destroyer; Destroyer; Destroyer; Destroyer; Destroyer;
   DisplayThread; DisplayThread; DisplayThread; Destroyer].

(** How far the construction has come: the window (sized, with the surface,
    with the panel), the surface (initialized), the panel (with the surface),
    the completion flag and the numbers of constructor calls. *)
Definition progress (d : DisplayInterface)
  : option (bool * bool * bool) * option bool * option bool * bool * (nat * nat * nat) :=
  ((λ w, (sized w, hasSurface w, hasPanel w)) <$> m_pMainWindow d,
   initialized <$> m_pOsgWidget d,
   hasWidget <$> m_pTreeView d,
   m_setupComplete d,
   (windowsMade d, surfacesMade d, panelsMade d)).

(** The progress at each statement of the display thread. *)
Definition expected (pc : DisplayPc)
  : list (option (bool * bool * bool) * option bool * option bool * bool * (nat * nat * nat)) :=
  match pc with
  | D294 | D301 | D304 | D305 | D305Blocked | D307 | D322 =>
      [(None, None, None, false, (0, 0, 0))]
  | D323 => [(Some (false, false, false), None, None, false, (1, 0, 0))]
  | D329 => [(Some (true, false, false), None, None, false, (1, 0, 0))]
  | D332 => [(Some (true, false, false), Some false, None, false, (1, 1, 0))]
  | D336 => [(Some (true, false, false), Some true, None, false, (1, 1, 0))]
  | D339 => [(Some (true, true, false), Some true, None, false, (1, 1, 0))]
  | D342 => [(Some (true, true, false), Some true, Some false, false, (1, 1, 1))]
  | D346 => [(Some (true, true, false), Some true, Some true, false, (1, 1, 1))]
  | D348 | D351 =>
      [(Some (true, true, true), Some true, Some true, false, (1, 1, 1))]
  | D354 | D357 =>
      [(Some (true, true, true), Some true, Some true, true, (1, 1, 1))]
  | DisplayExited =>
      [(None, None, None, false, (0, 0, 0));
       (Some (true, true, true), Some true, Some true, true, (1, 1, 1))]
  end.

(** The statements at which a thread owns [m_mutex]. *)
Definition displayHolds (pc : DisplayPc) : bool :=
  match pc with
  | D304 | D305 | D307 | D322 | D323 | D329 | D332 | D336 | D339 | D342
  | D346 | D348 => true
  | _ => false
  end.

Definition callHolds (c : Call) : bool :=
  match at_ c with
  | S412 | S415 | S416 | S417 | Unguard _ => true
  | Delegate => guarded (operation c)
  | _ => false
  end.

(** The statements after [setupMainWindow] returned true. *)
Definition pastSetup (c : Call) : bool :=
  match at_ c with
  | Guard | Delegate | Unguard _ => true
  | _ => false
  end.

(** What holds in every state of a process without destructor. *)
Record steady (s : Process) : Prop := mkSteady {
  steady_progress : progress (shared s) ∈ expected (display s);
  steady_display : displayHolds (display s) = true →
                   m_mutex (shared s) = Some DisplayThread;
  steady_calls : ∀ i c, calls s !! i = Some c → callHolds c = true →
                        m_mutex (shared s) = Some (Caller i);
  steady_window : ∀ i c, calls s !! i = Some c → pastSetup c = true →
                         is_Some (m_pMainWindow (shared s));
  steady_alive : destroyer s = None
}.

(** The window, the surface and the panel are made and put together. *)
Definition complete (d : DisplayInterface) : Prop :=
  (λ w, (sized w, hasSurface w, hasPanel w)) <$> m_pMainWindow d
    = Some (true, true, true) ∧
  initialized <$> m_pOsgWidget d = Some true ∧
  hasWidget <$> m_pTreeView d = Some true.

(** The destructor up to its join, then the display thread into its wait. *)
Definition stranding : list ThreadId :=
  [Destroyer; Destroyer; Destroyer; Destroyer; Destroyer; DisplayThread].

(** What a call that has returned can have returned while the destructor
    does not run: an overload of [add] the answer of the panel or the
    surface, [track] and [lock] true. *)
Definition answered (c : Call) (rv : bool) : Prop :=
  match operation c with
  | AddNode | AddKeyHandler | AddMouseHandler | AddMotionHandler => rv = accepted c
  | Track | Lock => rv = true
  | TryLock | Unlock => True
  end.

(** What holds of every call while the destructor does not run: the call is
    not in the branch taken when [setupMainWindow] returned false; at lines
    417 and 420 the window is there; the value it is about to return or has
    returned is as [answered] says; and once it has announced its data,
    [m_haveData] is set. *)
Definition settledCall (d : DisplayInterface) (c : Call) : Prop :=
  match at_ c with
  | NoWindow => False
  | S417 | S420 => is_Some (m_pMainWindow d)
  | Unguard rv => rv = accepted c
  | Returned rv => answered c rv
  | _ => True
  end ∧
  (announcesData (operation c) = true → at_ c ≠ Entry → m_haveData d = true).

(** The interface before any call has announced data. *)
Definition idle (d : DisplayInterface) : Prop :=
  m_haveData d = false ∧ m_setupComplete d = false ∧
  m_pMainWindow d = None ∧ m_pOsgWidget d = None ∧ m_pTreeView d = None ∧
  windowsMade d = 0.

(** The statements of the display thread up to the wait for data (lines
    294-305). *)
Definition displayWaits (pc : DisplayPc) : bool :=
  match pc with
  | D294 | D301 | D304 | D305 | D305Blocked => true
  | _ => false
  end.

(** A call of [lock] inside [setupMainWindow] or before it; a call of
    [try_lock] or [unlock] not yet begun or returned with false. *)
Definition callWaits (c : Call) : bool :=
  match operation c with
  | Lock => match at_ c with
            | Entry | S408 | S411 | S412 | S415 | S416 | S416Blocked => true
            | _ => false
            end
  | TryLock | Unlock => match at_ c with
                        | Entry | Returned false => true
                        | _ => false
                        end
  | _ => false
  end.

(** A first call of [add] on the constructed interface: the display thread
    parks in the wait of line 305 (4 steps); the call announces its data,
    notifies and waits for the setup (6 steps); the display thread wakes and
    makes the window, the surface and the panel (14 steps); the call wakes,
    takes the mutex and adds its node (7 steps). *)
Definition firstAdd : list ThreadId :=
  replicate 4 DisplayThread ++ replicate 6 (Caller 0) ++
  replicate 14 DisplayThread ++ replicate 7 (Caller 0).

(** The interface after the setup. *)
Definition shown : DisplayInterface :=
  mkDisplayInterface (Some (mkMainWindow true true true false))
                     (Some (mkTreeViewPanel true))
                     (Some (mkQOSGWidget true None))
                     None [] true true true 1 1 1.

(** The process that [firstAdd] leaves: the call has returned, the display
    thread is in its loop. *)
Definition added : Process :=
  mkProcess shown D357 [mkCall AddNode true (Returned true)] None.

(** The statements at which a call can own [m_mutex]: between lines 411
    and 417 of [setupMainWindow], and inside the scope of the [lock_guard] of
    an overload of [add]. *)
Definition callOwns (c : Call) : bool :=
  match at_ c with
  | S412 | S415 | S416 | S417 | Unguard _ => true
  | Delegate | NullDereference => guarded (operation c)
  | _ => false
  end.

(** The statements at which the destructor owns [m_mutex] (the scope of
    lines 388-394). *)
Definition destroyerHolds (pc : DestroyerPc) : bool :=
  match pc with
  | X392 _ | X393 | X394 => true
  | _ => false
  end.

(** Thread [t] is at a statement at which it can own [m_mutex]. *)
Definition owns (t : ThreadId) (s : Process) : bool :=
  match t with
  | DisplayThread => displayHolds (display s)
  | Caller i => match calls s !! i with
                | Some c => callOwns c
                | None => false
                end
  | Destroyer => match destroyer s with
                 | Some pc => destroyerHolds pc
                 | None => false
                 end
  end.

(** What holds besides [steady] in every state of a process without
    destructor: the owner of the mutex is inside a locked section, the run
    flag is set, and the window, if there is one, is open. *)
Record tidy (s : Process) : Prop := mkTidy {
  tidy_owner : ∀ t, m_mutex (shared s) = Some t → owns t s = true;
  tidy_running : m_threadShouldRun (shared s) = true;
  tidy_open : ∀ w, m_pMainWindow (shared s) = Some w → closed w = false
}.

(** No call is in progress. *)
Definition quiescent (s : Process) : Prop :=
  ∀ i c, calls s !! i = Some c → ∃ rv, at_ c = Returned rv.

(** The destructor at [pc] was begun with the answer [closes]. *)
Definition answers (closes : bool) (pc : DestroyerPc) : bool :=
  match pc with
  | X383 b | X386 b | X389 b | X392 b => bool_decide (b = closes)
  | _ => true
  end.

(** The run flag at each statement of the destructor (line 397 clears
    it). *)
Definition runsAt (pc : DestroyerPc) : bool :=
  match pc with
  | X398 | X400 | Destroyed => false
  | _ => true
  end.

(** The statements of the destructor after the call of [close()], and
    those between the test of line 386 and the end of its branch. *)
Definition pastClose (pc : DestroyerPc) : bool :=
  match pc with
  | X383 _ | X386 _ | X389 _ | X392 _ => false
  | _ => true
  end.

Definition foundWindow (pc : DestroyerPc) : bool :=
  match pc with
  | X389 _ | X392 _ | X393 | X394 => true
  | _ => false
  end.

(** The shared state with the destructor at [pc], begun with the answer
    [closes]; [had] tells whether the window was there when the destructor
    began.  The run flag is as line 397 leaves it, the destructor owns the
    mutex inside its locked scope and has a window there, and the window is
    closed only after an accepted [close()]. *)
Definition atDestroyer (closes had : bool) (pc : DestroyerPc)
    (d : DisplayInterface) : Prop :=
  answers closes pc = true ∧
  m_threadShouldRun d = runsAt pc ∧
  (destroyerHolds pc = true → m_mutex d = Some Destroyer) ∧
  (foundWindow pc = true → is_Some (m_pMainWindow d)) ∧
  (∀ w, m_pMainWindow d = Some w → closed w = true →
        closes = true ∧ pastClose pc = true) ∧
  (had = true → ∃ w, m_pMainWindow d = Some w ∧
                     closed w = closes && pastClose pc).

(** What holds in every state of a process whose destructor was begun when
    no call was in progress and the display thread had found data. *)
Record winding (closes had : bool) (s : Process) : Prop := mkWinding {
  winding_progress : progress (shared s) ∈ expected (display s);
  winding_calls : quiescent s;
  winding_display : displayWaits (display s) = false;
  winding_holds : displayHolds (display s) = true →
                  m_mutex (shared s) = Some DisplayThread;
  winding_owner : ∀ t, m_mutex (shared s) = Some t → owns t s = true;
  winding_pc : ∃ pc, destroyer s = Some pc ∧
                     atDestroyer closes had pc (shared s);
  winding_joined : destroyer s = Some Destroyed → display s = DisplayExited
}.

(** The statements still before the destructor and before the display
    thread; a turn of the loop of lines 357-374 counts for the display
    thread as long as it has not returned. *)
Definition destroyerLeft (pc : DestroyerPc) : nat :=
  match pc with
  | X383 _ => 10 | X386 _ => 9 | X389 _ => 8 | X392 _ => 7 | X393 => 6
  | X394 => 5 | X396 => 4 | X397 => 3 | X398 => 2 | X400 => 1 | Destroyed => 0
  end.

Definition displayLeft (pc : DisplayPc) : nat :=
  match pc with
  | D294 => 18 | D301 => 17 | D304 => 16 | D305 => 16 | D305Blocked => 16
  | D307 => 15 | D322 => 14 | D323 => 13 | D329 => 12 | D332 => 11
  | D336 => 10 | D339 => 9 | D342 => 8 | D346 => 7 | D348 => 6 | D351 => 5
  | D354 => 4 | D357 => 1 | DisplayExited => 0
  end.

Definition workLeft (s : Process) : nat :=
  match destroyer s with
  | Some pc => destroyerLeft pc
  | None => 0
  end + displayLeft (display s).

(** The destructor where the window refuses to close, up to its join (9
    steps), the display thread out of its loop, the join. *)
Definition closeDown : list ThreadId :=
  replicate 9 Destroyer ++ [DisplayThread; Destroyer].

(** The display thread from the start of its lambda to the call of [wait]
    (3 steps) and into the wait (4 steps). *)
Definition reachParking : list ThreadId := replicate 3 DisplayThread.
Definition reachParked : list ThreadId := replicate 4 DisplayThread.

(** The destructor up to line 397, with [m_haveData] set and
    [m_threadShouldRun] not yet cleared (3 steps). *)
Definition halfway : list ThreadId := replicate 3 Destroyer.

(** From there: the wait of line 305 returns without a notification, and the
    display thread finds [m_haveData] set and [m_threadShouldRun] set, makes
    the window, the surface and the panel and enters its loop (14 steps); the
    destructor clears the run flag and joins (2 steps); the display thread
    leaves its loop; the join returns. *)
Definition lateWindow : list ThreadId :=
  replicate 14 DisplayThread ++ replicate 2 Destroyer ++
  [DisplayThread; Destroyer].

(** The display thread parks, a call enters [setupMainWindow] and takes the
    mutex. *)
Definition entering : list ThreadId :=
  replicate 4 DisplayThread ++ replicate 3 (Caller 0).

(** A call of [add] that misses the notification of the setup: the call
    announces its data and reads a null [m_pMainWindow] at line 408 (2
    steps); the display thread takes the mutex, finds the data, makes window,
    surface and panel and releases the mutex at line 348 (13 steps); the call
    takes the mutex, notifies and finds [m_setupComplete] false at line 415
    (3 steps); the display thread sets the flag and notifies (2 steps); the
    call enters the wait of line 416. *)
Definition lostWakeup : list ThreadId :=
  replicate 2 (Caller 0) ++ replicate 13 DisplayThread ++
  replicate 3 (Caller 0) ++ replicate 2 DisplayThread ++ [Caller 0].

(** The process that [lostWakeup] leaves. *)
Definition missed (a : bool) : Process :=
  mkProcess
    (mkDisplayInterface (Some (mkMainWindow true true true false))
                        (Some (mkTreeViewPanel true))
                        (Some (mkQOSGWidget true None))
                        None [Caller 0] true true true 1 1 1)
    D357 [mkCall AddNode a S416Blocked] None.

End Startup.

(** ** The singleton ([DisplayInterface::get], lines 30-45)

    Any number of threads call [get] and run interleaved, one access to the
    statics at a time; the name of a position is the line of the thread's
    next statement.  Reads and writes of [pInstance] are taken as atomic and
    sequentially consistent.  An instance is named by the number of
    instances made before it. *)

Module Singleton.

Inductive GetPc :=
| G34 | G37 | G38 | G39 | G40 | G44 | GReturned (r : option nat).

Global Instance GetPc_eq_dec : EqDecision GetPc.
Proof. solve_decision. Defined.

(** The function-local statics of [get]: the instance, the owner of the
    mutex, and the number of calls of [new DisplayInterface()]. *)
Record Statics := mkStatics {
  pInstance : option nat;
  mutex : option nat;
  instancesMade : nat
}.

(** One step of thread [i] in [get]: the unlocked test of line 34, the lock
    of line 37, the test of line 38, the construction of line 39, the unlock
    of line 40, the return of line 44. *)
Definition get (i : nat) (pc : GetPc) (st : Statics)
  : option (GetPc * Statics) :=
  match pc with
  | G34 => match pInstance st with
           | None => Some (G37, st)
           | Some _ => Some (G44, st)
           end
  | G37 => match mutex st with
           | None => Some (G38, mkStatics (pInstance st) (Some i) (instancesMade st))
           | Some _ => None
           end
  | G38 => match pInstance st with
           | None => Some (G39, st)
           | Some _ => Some (G40, st)
           end
  | G39 => Some (G40, mkStatics (Some (instancesMade st)) (mutex st)
                                (S (instancesMade st)))
  | G40 => Some (G44, mkStatics (pInstance st) None (instancesMade st))
  | G44 => Some (GReturned (pInstance st), st)
  | GReturned _ => None
  end.

Record World := mkWorld {
  statics : Statics;
  callers : list GetPc
}.

Definition step (i : nat) (w : World) : option World :=
  pc ← callers w !! i;
  '(pc', st) ← get i pc (statics w);
  Some (mkWorld st (<[i := pc']> (callers w))).

Fixpoint run (schedule : list nat) (w : World) : option World :=
  match schedule with
  | [] => Some w
  | i :: schedule' => w' ← step i w; run schedule' w'
  end.

(** [n] threads at the start of [get], no instance made. *)
Definition begun (n : nat) : World :=
  mkWorld (mkStatics None None 0) (replicate n G34).

(** The statements at which a thread owns the mutex. *)
Definition holds (pc : GetPc) : bool :=
  match pc with G38 | G39 | G40 => true | _ => false end.

(** The statements that a thread reaches only once the instance is there. *)
Definition past (pc : GetPc) : bool :=
  match pc with G40 | G44 | GReturned _ => true | _ => false end.

Definition returned (pc : GetPc) : bool :=
  match pc with GReturned _ => true | _ => false end.

(** What holds in every state the threads reach. *)
Record orderly (w : World) : Prop := mkOrderly {
  orderly_made : pInstance (statics w) = None ∧ instancesMade (statics w) = 0 ∨
                 pInstance (statics w) = Some 0 ∧ instancesMade (statics w) = 1;
  orderly_holder : ∀ i pc, callers w !! i = Some pc → holds pc = true →
                           mutex (statics w) = Some i;
  orderly_mutex : ∀ i, mutex (statics w) = Some i →
                       ∃ pc, callers w !! i = Some pc ∧ holds pc = true;
  orderly_null : ∀ i, callers w !! i = Some G39 → pInstance (statics w) = None;
  orderly_past : ∀ i pc, callers w !! i = Some pc → past pc = true →
                         pInstance (statics w) = Some 0;
  orderly_returned : ∀ i r, callers w !! i = Some (GReturned r) → r = Some 0
}.

End Singleton.

(** ** Facts about the store *)

Section store_facts.
Implicit Types (h : Osg.Store) (n : nat) (m : Osg.NodeMask).

Lemma setNodeMask_Some h n m :
  n < length h → ∃ h', Osg.setNodeMask h n m = Some h'.
Proof.
  intros Hn. unfold Osg.setNodeMask.
  destruct (lookup_lt_is_Some_2 h n Hn) as [nd ->]. simpl. eauto.
Qed.

Lemma setNodeMask_length h n m h' :
  Osg.setNodeMask h n m = Some h' → length h' = length h ∧ n < length h.
Proof.
  unfold Osg.setNodeMask. destruct (h !! n) as [nd|] eqn:E; simpl; [|done].
  intros [= <-]. rewrite length_insert. split; [done|].
  by eapply lookup_lt_Some.
Qed.

Lemma getNodeMask_set_eq h n m h' :
  Osg.setNodeMask h n m = Some h' → Osg.getNodeMask h' n = Some m.
Proof.
  unfold Osg.setNodeMask, Osg.getNodeMask.
  destruct (h !! n) as [nd|] eqn:E; simpl; [|done].
  intros [= <-]. rewrite list_lookup_insert_eq; [done|].
  by eapply lookup_lt_Some.
Qed.

Lemma lookup_set_ne h n m h' k :
  Osg.setNodeMask h n m = Some h' → k ≠ n → h' !! k = h !! k.
Proof.
  unfold Osg.setNodeMask. destruct (h !! n) as [nd|]; simpl; [|done].
  intros [= <-] Hk. by rewrite list_lookup_insert_ne.
Qed.

Lemma getNodeMask_set_ne h n m h' k :
  Osg.setNodeMask h n m = Some h' → k ≠ n →
  Osg.getNodeMask h' k = Osg.getNodeMask h k.
Proof.
  intros Hs Hk. unfold Osg.getNodeMask. by rewrite (lookup_set_ne _ _ _ _ _ Hs Hk).
Qed.

Lemma children_set h n m h' k :
  Osg.setNodeMask h n m = Some h' →
  Osg.children <$> h' !! k = Osg.children <$> h !! k.
Proof.
  intros Hs. destruct (decide (k = n)) as [->|Hk].
  - revert Hs. unfold Osg.setNodeMask.
    destruct (h !! n) as [nd|] eqn:E; simpl; [|done].
    intros [= <-]. rewrite list_lookup_insert_eq; [done|].
    by eapply lookup_lt_Some.
  - by rewrite (lookup_set_ne _ _ _ _ _ Hs Hk).
Qed.

Lemma getNodeMask_Some h n : n < length h → is_Some (Osg.getNodeMask h n).
Proof.
  intros Hn. unfold Osg.getNodeMask.
  destruct (lookup_lt_is_Some_2 h n Hn) as [nd ->]. simpl. eauto.
Qed.

Lemma getNodeMask_lt h n m : Osg.getNodeMask h n = Some m → n < length h.
Proof.
  unfold Osg.getNodeMask. destruct (h !! n) eqn:E; [|done].
  intros _. by eapply lookup_lt_Some.
Qed.
End store_facts.

(** ** Facts about the propagation *)

Lemma updateChildren_eq item checked h :
  updateChildren item checked h =
  '(rs', h1) ← (if isChecked item then updateRows (rows item) checked h
                else Some (rows item, h));
  updateOwn item checked rs' h1.
Proof.
  destruct item as [name path node prior func en cs rs]. simpl.
  unfold updateOwn, setRows, setEnabled, setPriorNodeMask, isChecked. simpl.
  assert (Hloop : ∀ l h0,
    (fix loop (l : list d3DisplayItem) (h : Osg.Store) :=
       match l with
       | [] => Some ([], h)
       | child :: l' =>
           '(child', h') ← updateChildren child checked h;
           '(l'', h'') ← loop l' h';
           Some (child' :: l'', h'')
       end) l h0 = updateRows l checked h0).
  { induction l as [|x l IH]; intros h0; simpl; [done|].
    destruct (updateChildren x checked h0) as [[x' h']|]; simpl; [|done].
    by rewrite IH. }
  rewrite Hloop.
  destruct (bool_decide (cs = Checked)); simpl.
  - destruct (updateRows rs checked h) as [[rs' h1]|]; simpl; [|done].
    destruct checked; reflexivity.
  - destruct checked; reflexivity.
Qed.

(** Induction on a run of the propagation. *)
Section propagation_induction.
Variable checked : bool.
Variable R : d3DisplayItem → Osg.Store → d3DisplayItem → Osg.Store → Prop.
Variable Rs : list d3DisplayItem → Osg.Store →
              list d3DisplayItem → Osg.Store → Prop.
Hypothesis Rs_nil : ∀ h, Rs [] h [] h.
Hypothesis Rs_cons : ∀ x l h x' h1 l' h2,
  updateChildren x checked h = Some (x', h1) →
  updateRows l checked h1 = Some (l', h2) →
  R x h x' h1 → Rs l h1 l' h2 → Rs (x :: l) h (x' :: l') h2.
Hypothesis R_checked : ∀ item h rs' h1 item' h2,
  isChecked item = true →
  updateRows (rows item) checked h = Some (rs', h1) →
  Rs (rows item) h rs' h1 →
  updateOwn item checked rs' h1 = Some (item', h2) → R item h item' h2.
Hypothesis R_unchecked : ∀ item h item' h2,
  isChecked item = false →
  updateOwn item checked (rows item) h = Some (item', h2) → R item h item' h2.

Lemma updateChildren_run item :
  ∀ h item' h', updateChildren item checked h = Some (item', h') →
                R item h item' h'.
Proof.
  induction item as [name path node prior func en cs rs IH]
    using d3DisplayItem_rows_ind.
  intros h item' h'. rewrite updateChildren_eq.
  set (item := D3DisplayItem name path node prior func en cs rs).
  destruct (isChecked item) eqn:Hc; simpl.
  - destruct (updateRows rs checked h) as [[rs' h1]|] eqn:Hrs; simpl; [|done].
    intros Hown. eapply R_checked; eauto.
    clear Hown Hc. revert h rs' h1 Hrs.
    induction IH as [|x l Hx _ IHl]; intros h rs' h1; simpl.
    + intros [= <- <-]. apply Rs_nil.
    + destruct (updateChildren x checked h) as [[x' hx]|] eqn:Ex; simpl; [|done].
      destruct (updateRows l checked hx) as [[l' hl]|] eqn:El; simpl; [|done].
      intros [= <- <-]. eapply Rs_cons; eauto.
  - intros Hown. eapply R_unchecked; eauto.
Qed.

Lemma updateRows_run l :
  ∀ h l' h', updateRows l checked h = Some (l', h') → Rs l h l' h'.
Proof.
  induction l as [|x l IH]; intros h l' h'; simpl.
  - intros [= <- <-]. apply Rs_nil.
  - destruct (updateChildren x checked h) as [[x' hx]|] eqn:Ex; simpl; [|done].
    destruct (updateRows l checked hx) as [[l'' hl]|] eqn:El; simpl; [|done].
    intros [= <- <-]. eapply Rs_cons; eauto using updateChildren_run.
Qed.
End propagation_induction.

Lemma visited_subtree item : visited item ⊆ subtreeNodes item.
Proof.
  induction item as [name path node prior func en cs rs IH]
    using d3DisplayItem_rows_ind.
  cbn [visited subtreeNodes m_node rows]. intros n Hn.
  apply elem_of_cons in Hn as [->|Hn]; [left|right].
  destruct (isChecked _); [|by apply elem_of_nil in Hn].
  apply list_elem_of_In, in_flat_map in Hn as (x & Hx & Hn).
  apply list_elem_of_In, in_flat_map. exists x. split; [done|].
  apply list_elem_of_In. rewrite Forall_forall in IH.
  apply IH; [by apply list_elem_of_In|by apply list_elem_of_In].
Qed.

Lemma frame_fields a b :
  frame a = frame b →
  m_name a = m_name b ∧ m_path a = m_path b ∧ m_node a = m_node b ∧
  m_func a = m_func b ∧ checkState a = checkState b ∧
  map frame (rows a) = map frame (rows b).
Proof. destruct a, b; simpl; intros [=]; subst; auto 10. Qed.

Lemma frame_visited a b : frame a = frame b → visited a = visited b.
Proof.
  revert b. induction a as [name path node prior func en cs rs IH]
    using d3DisplayItem_rows_ind.
  intros [name' path' node' prior' func' en' cs' rs'].
  cbn [frame visited m_name m_path m_node m_func checkState rows isChecked].
  intros [= -> -> -> -> -> Hrs]. f_equal. unfold isChecked; simpl.
  destruct (bool_decide (cs' = Checked)); [|done].
  revert rs' Hrs. induction IH as [|x l Hx _ IHl]; intros [|y l']; simpl;
    try done.
  intros [= Hxy Hl]. f_equal; auto.
Qed.

Lemma frame_subtreeNodes a b : frame a = frame b → subtreeNodes a = subtreeNodes b.
Proof.
  revert b. induction a as [name path node prior func en cs rs IH]
    using d3DisplayItem_rows_ind.
  intros [name' path' node' prior' func' en' cs' rs'].
  cbn [frame subtreeNodes m_name m_path m_node m_func checkState rows].
  intros [= -> -> -> -> -> Hrs]. f_equal.
  revert rs' Hrs. induction IH as [|x l Hx _ IHl]; intros [|y l']; simpl;
    try done.
  intros [= Hxy Hl]. f_equal; auto.
Qed.

(** What [updateOwn] leaves behind. *)
Lemma updateOwn_inv item checked rs' h1 item' h2 :
  updateOwn item checked rs' h1 = Some (item', h2) →
  ∃ m prior',
    item' = D3DisplayItem (m_name item) (m_path item) (m_node item) prior'
                          (m_func item) checked (checkState item) rs' ∧
    Osg.getNodeMask h1 (m_node item) = Some m ∧
    prior' = (if isChecked item && negb checked then m else m_priorNodeMask item) ∧
    Osg.setNodeMask h1 (m_node item)
      (if isChecked item && checked then m_priorNodeMask item else 0%N) = Some h2.
Proof.
  unfold updateOwn.
  destruct (Osg.getNodeMask h1 (m_node item)) as [m|] eqn:Hm.
  - destruct checked, (isChecked item); simpl;
      destruct (Osg.setNodeMask h1 (m_node item) _) as [h2'|] eqn:Hs; simpl;
      intros [= <- <-]; exists m; eexists; (split; [reflexivity|]); auto.
  - assert (Hno : ∀ v, Osg.setNodeMask h1 (m_node item) v = None).
    { intros v. unfold Osg.setNodeMask. unfold Osg.getNodeMask in Hm.
      destruct (h1 !! m_node item); [done|done]. }
    destruct checked, (isChecked item); simpl; rewrite ?Hno; simpl; done.
Qed.

(** The propagation keeps names, paths, nodes, check states and the shape of
    the subtree, sets the enabled flag of the item it enters, and changes
    nothing in the store but masks. *)
Lemma updateChildren_frame checked item h item' h' :
  updateChildren item checked h = Some (item', h') →
  frame item' = frame item ∧ isEnabled item' = checked ∧
  length h' = length h ∧
  (∀ k, Osg.children <$> h' !! k = Osg.children <$> h !! k).
Proof.
  revert item h item' h'. apply (updateChildren_run checked _
    (λ l h l' h', map frame l' = map frame l ∧ length h' = length h ∧
       ∀ k, Osg.children <$> h' !! k = Osg.children <$> h !! k)).
  - done.
  - intros x l h x' h1 l' h2 _ _ (Hf & _ & Hl & Hc) (Hfs & Hls & Hcs).
    simpl. rewrite Hf, Hfs. split; [done|]. split; [congruence|].
    intros k. by rewrite Hcs, Hc.
  - intros item h rs' h1 item' h2 _ _ (Hfs & Hl & Hc) Hown.
    apply updateOwn_inv in Hown as (m & prior' & -> & _ & _ & Hs).
    destruct item; simpl in *. rewrite Hfs. split; [done|]. split; [done|].
    split; [by rewrite (proj1 (setNodeMask_length _ _ _ _ Hs))|].
    intros k. by rewrite (children_set _ _ _ _ k Hs).
  - intros item h item' h2 _ Hown.
    apply updateOwn_inv in Hown as (m & prior' & -> & _ & _ & Hs).
    destruct item; simpl in *. split; [done|]. split; [done|].
    split; [by rewrite (proj1 (setNodeMask_length _ _ _ _ Hs))|].
    intros k. by rewrite (children_set _ _ _ _ k Hs).
Qed.

Lemma updateRows_frame checked l h l' h' :
  updateRows l checked h = Some (l', h') →
  map frame l' = map frame l ∧ Forall (λ x, isEnabled x = checked) l' ∧
  length h' = length h ∧
  (∀ k, Osg.children <$> h' !! k = Osg.children <$> h !! k).
Proof.
  revert h l' h'. induction l as [|x l IH]; intros h l' h'; simpl.
  - intros [= <- <-]. done.
  - destruct (updateChildren x checked h) as [[x' hx]|] eqn:Ex; simpl; [|done].
    destruct (updateRows l checked hx) as [[l'' hl]|] eqn:El; simpl; [|done].
    intros [= <- <-].
    apply updateChildren_frame in Ex as (Hf & He & Hl & Hc).
    apply IH in El as (Hfs & Hes & Hls & Hcs). simpl.
    rewrite Hf, Hfs. split; [done|]. split; [by constructor|].
    split; [congruence|]. intros k. by rewrite Hcs, Hc.
Qed.

(** A node that the propagation does not visit keeps its state. *)
Lemma updateChildren_other checked item h item' h' :
  updateChildren item checked h = Some (item', h') →
  ∀ n, n ∉ visited item → h' !! n = h !! n.
Proof.
  revert item h item' h'. apply (updateChildren_run checked
    (λ item h item' h', ∀ n : nat, n ∉ visited item → h' !! n = h !! n)
    (λ l h l' h', ∀ n : nat, n ∉ flat_map visited l → h' !! n = h !! n)).
  - done.
  - intros x l h x' h1 l' h2 _ _ Hx Hl n Hn. simpl in Hn.
    rewrite not_elem_of_app in Hn. destruct Hn as [Hn1 Hn2].
    rewrite Hl, Hx; done.
  - intros item h rs' h1 item' h2 Hc _ Hrs Hown n Hn.
    destruct item as [name path node prior func en cs rs].
    cbn [visited m_node rows] in Hn. rewrite Hc in Hn.
    apply not_elem_of_cons in Hn as [Hne Hn].
    apply updateOwn_inv in Hown as (m & prior' & _ & _ & _ & Hs). simpl in Hs.
    rewrite (lookup_set_ne _ _ _ _ _ Hs Hne). by apply Hrs.
  - intros item h item' h2 _ Hown n Hn.
    destruct item as [name path node prior func en cs rs].
    cbn [visited m_node rows] in Hn.
    apply not_elem_of_cons in Hn as [Hne Hn].
    apply updateOwn_inv in Hown as (m & prior' & _ & _ & _ & Hs). simpl in Hs.
    by rewrite (lookup_set_ne _ _ _ _ _ Hs Hne).
Qed.

Lemma updateRows_other checked l h l' h' :
  updateRows l checked h = Some (l', h') →
  ∀ n, n ∉ flat_map visited l → h' !! n = h !! n.
Proof.
  revert h l' h'. induction l as [|x l IH]; intros h l' h'; simpl.
  - by intros [= <- <-].
  - destruct (updateChildren x checked h) as [[x' hx]|] eqn:Ex; simpl; [|done].
    destruct (updateRows l checked hx) as [[l'' hl]|] eqn:El; simpl; [|done].
    intros [= <- <-] n Hn. rewrite not_elem_of_app in Hn.
    destruct Hn as [Hn1 Hn2].
    rewrite (IH _ _ _ El n Hn2). by eapply updateChildren_other.
Qed.

(** The propagation returns when the nodes it visits are in the store. *)
Lemma updateOwn_total item checked rs' h1 :
  m_node item < length h1 → is_Some (updateOwn item checked rs' h1).
Proof.
  intros Hn. unfold updateOwn.
  destruct (getNodeMask_Some _ _ Hn) as [m ->].
  destruct checked, (isChecked item); simpl;
    destruct (setNodeMask_Some h1 (m_node item) ltac:(assumption) Hn) as [h2 ->] ||
    (edestruct (setNodeMask_Some h1 (m_node item)) as [h2 ->]; [exact Hn|]);
    simpl; eauto.
Qed.

Lemma updateChildren_total checked item :
  ∀ h, Forall (λ n, n < length h) (visited item) →
       is_Some (updateChildren item checked h).
Proof.
  induction item as [name path node prior func en cs rs IH]
    using d3DisplayItem_rows_ind.
  intros h Hlive. rewrite updateChildren_eq.
  cbn [visited m_node rows] in Hlive. apply Forall_cons in Hlive as [Hn Hrs].
  destruct (isChecked _) eqn:Hc; cbn [rows].
  - assert (Hrows : ∃ rs' h1, updateRows rs checked h = Some (rs', h1)).
    { clear Hn Hc. revert h Hrs.
      induction IH as [|x l Hx _ IHl]; intros h Hrs; simpl; [eauto|].
      simpl in Hrs. apply Forall_app in Hrs as [Hx1 Hl1].
      destruct (Hx h Hx1) as [[x' hx] Ex]. rewrite Ex. simpl.
      destruct (updateChildren_frame _ _ _ _ _ Ex) as (_ & _ & Hlen & _).
      destruct (IHl hx) as (l' & hl & El); [by rewrite Hlen|].
      rewrite El. simpl. eauto. }
    destruct Hrows as (rs' & h1 & Hrows). rewrite Hrows. simpl.
    apply updateOwn_total.
    destruct (updateRows_frame _ _ _ _ _ Hrows) as (_ & _ & Hlen & _).
    by rewrite Hlen.
  - simpl. by apply updateOwn_total.
Qed.

Lemma updateRows_total checked l :
  ∀ h, Forall (λ n, n < length h) (flat_map visited l) →
       is_Some (updateRows l checked h).
Proof.
  induction l as [|x l IH]; intros h Hlive; simpl; [eauto|].
  apply Forall_app in Hlive as [Hx Hl].
  destruct (updateChildren_total checked x h Hx) as [[x' hx] Ex].
  rewrite Ex. simpl.
  destruct (updateChildren_frame _ _ _ _ _ Ex) as (_ & _ & Hlen & _).
  destruct (IH hx) as [[l' hl] El]; [by rewrite Hlen|].
  rewrite El. simpl. eauto.
Qed.

(** ** Facts about [clicked] *)

Lemma clickedOwn_inv item h item1 h1 :
  clickedOwn item h = Some (item1, h1) →
  ∃ m,
    Osg.getNodeMask h (m_node item) = Some m ∧
    item1 = setPriorNodeMask
              (if negb (isChecked item) && isEnabled item
               then m else m_priorNodeMask item) item ∧
    Osg.setNodeMask h (m_node item)
      (if isChecked item && isEnabled item then m_priorNodeMask item else 0%N)
      = Some h1.
Proof.
  unfold clickedOwn.
  destruct (Osg.getNodeMask h (m_node item)) as [m|] eqn:Hm.
  - destruct (isChecked item), (isEnabled item) eqn:He; simpl;
      destruct (Osg.setNodeMask h (m_node item) _) as [h'|] eqn:Hs; simpl;
      intros [= <- <-]; exists m; (split; [done|]); split; try done;
      destruct item; simpl in *; by subst.
  - assert (Hno : ∀ v, Osg.setNodeMask h (m_node item) v = None).
    { intros v. unfold Osg.setNodeMask. unfold Osg.getNodeMask in Hm.
      destruct (h !! m_node item); [done|done]. }
    destruct (isChecked item), (isEnabled item); simpl; rewrite ?Hno; simpl; done.
Qed.

Lemma clickedOwn_total item h :
  m_node item < length h → is_Some (clickedOwn item h).
Proof.
  intros Hn. unfold clickedOwn.
  destruct (getNodeMask_Some _ _ Hn) as [m Hm].
  destruct (isChecked item), (isEnabled item); simpl; rewrite ?Hm; simpl;
    (edestruct (setNodeMask_Some h (m_node item)) as [h2 ->]; [exact Hn|]);
    simpl; eauto.
Qed.

Lemma clickedItem_total item h :
  Forall (λ n, n < length h) (subtreeNodes item) → is_Some (clickedItem item h).
Proof.
  intros Hlive. unfold clickedItem.
  assert (Hn : m_node item < length h).
  { destruct item; simpl in *. by apply Forall_cons in Hlive as [? _]. }
  destruct (clickedOwn_total item h Hn) as [[item1 h1] E1]. rewrite E1. simpl.
  apply clickedOwn_inv in E1 as (m & _ & -> & Hs).
  apply setNodeMask_length in Hs as [Hlen _].
  destruct (updateRows_total (isChecked (setPriorNodeMask
      (if negb (isChecked item) && isEnabled item then m
       else m_priorNodeMask item) item)) (rows item) h1) as [[rs h2] E2].
  { rewrite Hlen. destruct item as [name path node prior func en cs rs].
    simpl in *. apply Forall_cons in Hlive as [_ Hlive].
    rewrite Forall_forall in Hlive |- *. intros n Hin. apply Hlive.
    apply list_elem_of_In, in_flat_map in Hin as (x & Hx & Hin).
    apply list_elem_of_In, in_flat_map. exists x. split; [done|].
    apply list_elem_of_In. by apply visited_subtree, list_elem_of_In. }
  destruct item; simpl in *. rewrite E2. simpl. eauto.
Qed.

Lemma updateChildren_hide n item h item' h' :
  updateChildren item false h = Some (item', h') →
  Osg.getNodeMask h n = Some 0%N →
  Osg.getNodeMask h' n = Some 0%N ∧ quiet n item' = true.
Proof.
  revert item h item' h'. apply (updateChildren_run false
    (λ item h item' h', Osg.getNodeMask h n = Some 0%N →
       Osg.getNodeMask h' n = Some 0%N ∧ quiet n item' = true)
    (λ l h l' h', Osg.getNodeMask h n = Some 0%N →
       Osg.getNodeMask h' n = Some 0%N ∧ forallb (quiet n) l' = true)).
  - done.
  - intros x l h x' h1 l' h2 _ _ Hx Hl Hz.
    destruct (Hx Hz) as [Hz1 Hq]. destruct (Hl Hz1) as [Hz2 Hqs].
    split; [done|]. simpl. by rewrite Hq, Hqs.
  - intros item h rs' h1 item' h2 Hc _ Hrs Hown Hz.
    destruct (Hrs Hz) as [Hz1 Hqs].
    apply updateOwn_inv in Hown as (m & prior' & -> & Hm & -> & Hs).
    rewrite Hc in *. simpl in Hs.
    destruct (decide (n = m_node item)) as [->|Hne].
    + split; [by eapply getNodeMask_set_eq|].
      cbn [quiet m_node m_priorNodeMask rows]. rewrite Hqs.
      assert (m = 0%N) as -> by congruence.
      rewrite (bool_decide_eq_true_2 (0%N = 0%N)) by done.
      by rewrite !orb_true_r.
    + split; [by rewrite (getNodeMask_set_ne _ _ _ _ _ Hs Hne)|].
      cbn [quiet m_node m_priorNodeMask rows]. rewrite Hqs.
      rewrite (bool_decide_eq_false_2 (m_node item = n)) by done.
      simpl. by rewrite orb_true_r.
  - intros item h item' h2 Hc Hown Hz.
    apply updateOwn_inv in Hown as (m & prior' & -> & Hm & -> & Hs).
    rewrite Hc in *. simpl in Hs. split.
    + destruct (decide (n = m_node item)) as [->|Hne];
        [by eapply getNodeMask_set_eq|].
      by rewrite (getNodeMask_set_ne _ _ _ _ _ Hs Hne).
    + cbn [quiet]. unfold isChecked in *. simpl in *. by rewrite Hc.
Qed.

Lemma updateRows_hide n l h l' h' :
  updateRows l false h = Some (l', h') →
  Osg.getNodeMask h n = Some 0%N →
  Osg.getNodeMask h' n = Some 0%N ∧ forallb (quiet n) l' = true.
Proof.
  revert h l' h'. induction l as [|x l IH]; intros h l' h'; simpl.
  - by intros [= <- <-].
  - destruct (updateChildren x false h) as [[x' hx]|] eqn:Ex; simpl; [|done].
    destruct (updateRows l false hx) as [[l'' hl]|] eqn:El; simpl; [|done].
    intros [= <- <-] Hz.
    destruct (updateChildren_hide n _ _ _ _ Ex Hz) as [Hz1 Hq].
    destruct (IH _ _ _ El Hz1) as [Hz2 Hqs]. simpl. by rewrite Hq, Hqs.
Qed.

(** Showing again: where every remembered mask of a hidden node is 0, the
    node stays hidden. *)
Lemma updateChildren_show_quiet n item h item' h' :
  updateChildren item true h = Some (item', h') →
  Osg.getNodeMask h n = Some 0%N → quiet n item = true →
  Osg.getNodeMask h' n = Some 0%N.
Proof.
  revert item h item' h'. apply (updateChildren_run true
    (λ item h item' h', Osg.getNodeMask h n = Some 0%N →
       quiet n item = true → Osg.getNodeMask h' n = Some 0%N)
    (λ l h l' h', Osg.getNodeMask h n = Some 0%N →
       forallb (quiet n) l = true → Osg.getNodeMask h' n = Some 0%N)).
  - done.
  - intros x l h x' h1 l' h2 _ _ Hx Hl Hz Hq. simpl in Hq.
    apply andb_true_iff in Hq as [Hq Hqs]. auto.
  - intros item h rs' h1 item' h2 Hc _ Hrs Hown Hz Hq.
    destruct item as [name path node prior func en cs rs].
    cbn [quiet m_node m_priorNodeMask rows] in Hq. rewrite Hc in Hq.
    simpl in Hq. apply andb_true_iff in Hq as [Hp Hqs].
    specialize (Hrs Hz Hqs).
    apply updateOwn_inv in Hown as (m & prior' & _ & _ & _ & Hs).
    rewrite Hc in Hs. simpl in Hs.
    destruct (decide (n = node)) as [->|Hne].
    + rewrite (bool_decide_eq_true_2 (node = node)) in Hp by done.
      simpl in Hp. apply bool_decide_eq_true in Hp as ->.
      by eapply getNodeMask_set_eq.
    + by rewrite (getNodeMask_set_ne _ _ _ _ _ Hs Hne).
  - intros item h item' h2 Hc Hown Hz _.
    apply updateOwn_inv in Hown as (m & prior' & _ & _ & _ & Hs).
    rewrite Hc in Hs. simpl in Hs.
    destruct (decide (n = m_node item)) as [->|Hne];
      [by eapply getNodeMask_set_eq|].
    by rewrite (getNodeMask_set_ne _ _ _ _ _ Hs Hne).
Qed.

Lemma updateRows_show_quiet n l h l' h' :
  updateRows l true h = Some (l', h') →
  Osg.getNodeMask h n = Some 0%N → forallb (quiet n) l = true →
  Osg.getNodeMask h' n = Some 0%N.
Proof.
  revert h l' h'. induction l as [|x l IH]; intros h l' h'; simpl.
  - by intros [= <- <-].
  - destruct (updateChildren x true h) as [[x' hx]|] eqn:Ex; simpl; [|done].
    destruct (updateRows l true hx) as [[l'' hl]|] eqn:El; simpl; [|done].
    intros [= <- <-] Hz Hq. apply andb_true_iff in Hq as [Hq Hqs].
    eapply IH; eauto using updateChildren_show_quiet.
Qed.

(** ** Facts about indices *)

Lemma itemFromIndex_row rs ii : itemFromIndex rs [ii] = rs !! ii.
Proof. simpl. by destruct (rs !! ii). Qed.

Lemma itemFromIndex_cons rs ii q item :
  rs !! ii = Some item → q ≠ [] →
  itemFromIndex rs (ii :: q) = itemFromIndex (rows item) q.
Proof. intros Hii Hq. simpl. rewrite Hii. simpl. by destruct q. Qed.

Lemma itemFromIndex_app rs p q item :
  itemFromIndex rs p = Some item → q ≠ [] →
  itemFromIndex rs (p ++ q) = itemFromIndex (rows item) q.
Proof.
  revert rs. induction p as [|ii p IH]; intros rs; [done|].
  simpl. destruct (rs !! ii) as [x|] eqn:Hx; simpl; [|done].
  destruct p as [|jj p].
  - intros [= ->] Hq. simpl. by destruct q.
  - intros Hp Hq. simpl in *. by apply IH.
Qed.

Lemma atIndex_Some f rs index h item item' h' :
  itemFromIndex rs index = Some item → f item h = Some (item', h') →
  ∃ rs', atIndex f rs index h = Some (rs', h') ∧
         itemFromIndex rs' index = Some item'.
Proof.
  revert rs. induction index as [|ii p IH]; intros rs; [done|].
  simpl. destruct (rs !! ii) as [x|] eqn:Hx; simpl; [|done].
  assert (Hlt : ii < length rs) by by eapply lookup_lt_Some.
  destruct p as [|jj p].
  - intros [= ->] Hf. rewrite Hf. simpl. eexists. split; [done|].
    by rewrite list_lookup_insert_eq.
  - intros Hp Hf. destruct (IH _ Hp Hf) as (rs' & Hat & Hit).
    rewrite Hat. simpl. eexists. split; [done|].
    rewrite list_lookup_insert_eq by done. simpl. done.
Qed.

Lemma toggle_Some c index tv w item item' h' :
  m_pOsgWidget tv = Some w →
  itemFromIndex (m_pModel tv) index = Some item →
  clickedItem (setCheckState c item) (nodes tv) = Some (item', h') →
  ∃ tv', toggle c index tv = Some tv' ∧ m_pOsgWidget tv' = Some w ∧
         nodes tv' = h' ∧ itemFromIndex (m_pModel tv') index = Some item'.
Proof.
  intros Hw Hit Hcl. unfold toggle.
  destruct (atIndex_Some (λ item h, Some (setCheckState c item, h))
              _ _ (nodes tv) _ _ _ Hit eq_refl) as (rs1 & -> & Hit1).
  simpl. unfold clicked. simpl. rewrite Hw.
  destruct (atIndex_Some clickedItem _ _ _ _ _ _ Hit1 Hcl) as (rs2 & -> & Hit2).
  simpl. eexists. split; [done|]. simpl. done.
Qed.

Lemma clickedItem_inv item h item' h' :
  clickedItem item h = Some (item', h') →
  ∃ item1 h1 rs,
    clickedOwn item h = Some (item1, h1) ∧
    updateRows (rows item) (isChecked item) h1 = Some (rs, h') ∧
    item' = setRows rs item1.
Proof.
  unfold clickedItem.
  destruct (clickedOwn item h) as [[item1 h1]|] eqn:E1; simpl; [|done].
  destruct (clickedOwn_inv _ _ _ _ E1) as (m & _ & Hitem1 & _).
  assert (rows item1 = rows item ∧ isChecked item1 = isChecked item) as [-> ->].
  { subst item1. by destruct item. }
  destruct (updateRows (rows item) (isChecked item) h1) as [[rs h2]|] eqn:E2;
    simpl; [|done].
  intros [= <- <-]. eauto 10.
Qed.

Lemma subtreeNodes_row item ii child :
  rows item !! ii = Some child → subtreeNodes child ⊆ subtreeNodes item.
Proof.
  intros Hrow n Hn. destruct item as [name path node prior func en cs rs].
  simpl in *. right. apply list_elem_of_In, in_flat_map. exists child.
  split; [|by apply list_elem_of_In].
  apply list_elem_of_In. by eapply list_elem_of_lookup_2.
Qed.

Lemma frame_setCheckState_subtreeNodes c item :
  subtreeNodes (setCheckState c item) = subtreeNodes item.
Proof. by destruct item. Qed.

(** What a toggle of the item at [index] does, step by step: [item1] and
    [h1] are the item and the store after lines 158-171, [item'] and the
    store of [tv'] are the result of the whole slot. *)
Lemma toggle_spec c index tv w item :
  m_pOsgWidget tv = Some w →
  itemFromIndex (m_pModel tv) index = Some item →
  Forall (λ n, n < length (nodes tv)) (subtreeNodes item) →
  ∃ m item1 h1 rs tv',
    Osg.getNodeMask (nodes tv) (m_node item) = Some m ∧
    clickedOwn (setCheckState c item) (nodes tv) = Some (item1, h1) ∧
    item1 = setPriorNodeMask
              (if bool_decide (c = Checked) then m_priorNodeMask item
               else if isEnabled item then m else m_priorNodeMask item)
              (setCheckState c item) ∧
    Osg.setNodeMask (nodes tv) (m_node item)
      (if bool_decide (c = Checked)
       then if isEnabled item then m_priorNodeMask item else 0%N
       else 0%N) = Some h1 ∧
    updateRows (rows item) (bool_decide (c = Checked)) h1 = Some (rs, nodes tv') ∧
    toggle c index tv = Some tv' ∧
    m_pOsgWidget tv' = Some w ∧
    itemFromIndex (m_pModel tv') index = Some (setRows rs item1) ∧
    frame (setRows rs item1) = frame (setCheckState c item) ∧
    length (nodes tv') = length (nodes tv).
Proof.
  intros Hw Hit Hlive.
  set (item0 := setCheckState c item).
  assert (Hlive0 : Forall (λ n, n < length (nodes tv)) (subtreeNodes item0)).
  { by destruct item. }
  destruct (clickedItem_total _ _ Hlive0) as [[item' h'] Hcl].
  destruct (toggle_Some c _ _ _ _ _ _ Hw Hit Hcl) as (tv' & Htg & Hw' & Hh & Hit').
  destruct (clickedItem_inv _ _ _ _ Hcl) as (item1 & h1 & rs & Hown & Hrs & ->).
  destruct (clickedOwn_inv _ _ _ _ Hown) as (m & Hm & Hitem1 & Hs).
  assert (Hfields : m_node item0 = m_node item ∧ rows item0 = rows item ∧
    isEnabled item0 = isEnabled item ∧ isChecked item0 = bool_decide (c = Checked) ∧
    m_priorNodeMask item0 = m_priorNodeMask item).
  { by destruct item. }
  destruct Hfields as (Hnode & Hrows & Hen & Hchk & Hprior).
  rewrite Hnode, Hen, Hchk, Hprior in *. rewrite Hrows in Hrs.
  exists m, item1, h1, rs, tv'. rewrite Hh.
  split; [done|]. split; [done|].
  split. { rewrite Hitem1. f_equal.
           by destruct (bool_decide (c = Checked)), (isEnabled item). }
  assert (Hs' : Osg.setNodeMask (nodes tv) (m_node item)
      (if bool_decide (c = Checked)
       then if isEnabled item then m_priorNodeMask item else 0%N
       else 0%N) = Some h1).
  { rewrite <- Hs. f_equal.
    by destruct (bool_decide (c = Checked)), (isEnabled item). }
  split; [done|]. split; [done|]. split; [done|]. split; [done|].
  split; [done|].
  destruct (updateRows_frame _ _ _ _ _ Hrs) as (Hf & _ & Hlen & _).
  split.
  - rewrite Hitem1. destruct item; simpl in *. by rewrite Hf.
  - rewrite Hlen. by destruct (setNodeMask_length _ _ _ _ Hs').
Qed.

(** C5.  The clicked transition of an item to the checked state sets the
    mask of the item's node to the remembered prior mask when the item is
    enabled and to 0 when it is disabled; the transition to an unchecked state
    first stores the node's current mask as the remembered prior mask exactly
    when the item is enabled, and then sets the node's mask to 0.  This is
    the state [h1] after lines 158-171; the propagation into the rows that
    follows leaves the item's remembered mask, enabled flag and check state
    as they are, keeps the node hidden after an uncheck, and keeps the mask
    written by a check unless a row that the propagation visits holds the
    same node. *)
Theorem clicked_own_node_mask c index tv w item :
  m_pOsgWidget tv = Some w →
  itemFromIndex (m_pModel tv) index = Some item →
  Forall (λ n, n < length (nodes tv)) (subtreeNodes item) →
  ∃ m item1 h1 tv' item',
    Osg.getNodeMask (nodes tv) (m_node item) = Some m ∧
    clickedOwn (setCheckState c item) (nodes tv) = Some (item1, h1) ∧
    m_priorNodeMask item1 =
      (if bool_decide (c = Checked) then m_priorNodeMask item
       else if isEnabled item then m else m_priorNodeMask item) ∧
    Osg.getNodeMask h1 (m_node item) =
      Some (if bool_decide (c = Checked)
            then if isEnabled item then m_priorNodeMask item else 0%N
            else 0%N) ∧
    toggle c index tv = Some tv' ∧
    itemFromIndex (m_pModel tv') index = Some item' ∧
    m_priorNodeMask item' = m_priorNodeMask item1 ∧
    isEnabled item' = isEnabled item ∧
    checkState item' = c ∧
    m_node item' = m_node item ∧
    (c ≠ Checked → Osg.getNodeMask (nodes tv') (m_node item) = Some 0%N) ∧
    (m_node item ∉ flat_map visited (rows item) →
     Osg.getNodeMask (nodes tv') (m_node item) = Osg.getNodeMask h1 (m_node item)).
Proof.
  intros Hw Hit Hlive.
  destruct (toggle_spec c _ _ _ _ Hw Hit Hlive)
    as (m & item1 & h1 & rs & tv' & Hm & Hown & Hitem1 & Hs & Hrs & Htg & _ & Hit' & _).
  exists m, item1, h1, tv', (setRows rs item1).
  pose proof (getNodeMask_set_eq _ _ _ _ Hs) as Hmask1.
  split; [done|]. split; [done|].
  split. { by rewrite Hitem1. }
  split; [done|]. split; [done|]. split; [done|]. split; [done|].
  split. { rewrite Hitem1. by destruct item. }
  split. { rewrite Hitem1. by destruct item. }
  split. { rewrite Hitem1. by destruct item. }
  split.
  - intros Hc. rewrite (bool_decide_eq_false_2 _ Hc) in *.
    by destruct (updateRows_hide (m_node item) _ _ _ _ Hrs Hmask1).
  - intros Hfresh. unfold Osg.getNodeMask.
    by rewrite (updateRows_other _ _ _ _ _ Hrs _ Hfresh).
Qed.

Lemma updateRows_row checked l h l' h' ii x' :
  updateRows l checked h = Some (l', h') → l' !! ii = Some x' →
  ∃ x, l !! ii = Some x ∧ frame x' = frame x ∧ isEnabled x' = checked.
Proof.
  intros Hrs Hx'. apply updateRows_frame in Hrs as (Hf & He & _ & _).
  assert (Hfx : map frame l !! ii = Some (frame x')).
  { rewrite <- Hf. by rewrite list_lookup_fmap, Hx'. }
  rewrite list_lookup_fmap in Hfx.
  destruct (l !! ii) as [x|]; [|done]. simpl in Hfx.
  exists x. split; [done|]. split; [congruence|].
  rewrite Forall_forall in He. apply He. by eapply list_elem_of_lookup_2.
Qed.

Lemma updateRows_length checked l h l' h' :
  updateRows l checked h = Some (l', h') → length l' = length l.
Proof.
  intros Hrs. apply updateRows_frame in Hrs as (Hf & _).
  by rewrite <- (length_map frame l'), Hf, length_map.
Qed.

(** C9.  A toggle of an item sets the enabled flag of every direct row to
    the item's new checked state.  So after an uncheck every direct row is
    disabled.  A direct check of such a row, in whatever state [h] the scene
    is by then, writes 0 to the mask of the row's node in lines 158-171,
    whatever mask the node has in [h] and whatever mask the row remembers,
    changes no other node there, and leaves the remembered mask as it is.
    At the end of the slot the row is checked, still disabled, and remembers
    the same mask; the node is still at 0 unless a row that the propagation
    into the row's own rows visits holds the same node. *)
Theorem updateChildren_sets_enabled c index tv w item :
  m_pOsgWidget tv = Some w →
  itemFromIndex (m_pModel tv) index = Some item →
  Forall (λ n, n < length (nodes tv)) (subtreeNodes item) →
  ∃ tv1 item1,
    toggle c index tv = Some tv1 ∧
    itemFromIndex (m_pModel tv1) index = Some item1 ∧
    length (rows item1) = length (rows item) ∧
    (∀ ii child, rows item1 !! ii = Some child →
       isEnabled child = bool_decide (c = Checked)) ∧
    (c ≠ Checked → ∀ ii child, rows item1 !! ii = Some child →
       isEnabled child = false ∧
       itemFromIndex (m_pModel tv1) (index ++ [ii]) = Some child ∧
       Forall (λ n, n < length (nodes tv1)) (subtreeNodes child) ∧
       ∀ h, Forall (λ n, n < length h) (subtreeNodes child) →
         ∃ m child1 h1 tv2 child2,
           Osg.getNodeMask h (m_node child) = Some m ∧
           clickedOwn (setCheckState Checked child) h = Some (child1, h1) ∧
           Osg.getNodeMask h1 (m_node child) = Some 0%N ∧
           (∀ k, k ≠ m_node child → h1 !! k = h !! k) ∧
           m_priorNodeMask child1 = m_priorNodeMask child ∧
           toggle Checked (index ++ [ii])
                  (mkTreeView (m_pOsgWidget tv1) (m_pModel tv1) h) = Some tv2 ∧
           itemFromIndex (m_pModel tv2) (index ++ [ii]) = Some child2 ∧
           m_priorNodeMask child2 = m_priorNodeMask child ∧
           checkState child2 = Checked ∧ isEnabled child2 = false ∧
           (m_node child ∉ flat_map visited (rows child) →
            Osg.getNodeMask (nodes tv2) (m_node child) = Some 0%N)).
Proof.
  intros Hw Hit Hlive.
  destruct (toggle_spec c _ _ _ _ Hw Hit Hlive)
    as (m & item1 & h1 & rs & tv1 & Hm & Hown & Hitem1 & Hs & Hrs & Htg & Hw1 & Hit1
        & _ & Hlen).
  exists tv1, (setRows rs item1).
  split; [done|]. split; [done|].
  split. { simpl. by eapply updateRows_length. }
  assert (Hen : ∀ ii child, rows (setRows rs item1) !! ii = Some child →
                isEnabled child = bool_decide (c = Checked)).
  { simpl. intros ii child Hch.
    by destruct (updateRows_row _ _ _ _ _ _ _ Hrs Hch) as (x & _ & _ & ?). }
  split; [done|].
  intros Hc ii child Hch. rewrite (Hen _ _ Hch), (bool_decide_eq_false_2 _ Hc).
  split; [done|]. simpl in Hch.
  destruct (updateRows_row _ _ _ _ _ _ _ Hrs Hch) as (x & Hx & Hfx & Hex).
  rewrite (bool_decide_eq_false_2 _ Hc) in Hex.
  assert (Hidx : itemFromIndex (m_pModel tv1) (index ++ [ii]) = Some child).
  { rewrite (itemFromIndex_app _ _ _ _ Hit1) by done.
    by rewrite itemFromIndex_row. }
  split; [done|]. split.
  { rewrite Hlen, (frame_subtreeNodes _ _ Hfx).
    rewrite Forall_forall in Hlive |- *. intros n Hn. apply Hlive.
    by eapply subtreeNodes_row. }
  intros h Hliveh.
  set (tvh := mkTreeView (m_pOsgWidget tv1) (m_pModel tv1) h).
  destruct (toggle_spec Checked (index ++ [ii]) tvh w child) as
    (m2 & child1 & h2 & rs2 & tv2 & Hm2 & Hown2 & Hchild1 & Hs2 & Hrs2 & Htg2 & _
     & Hit2 & _); [done|done|done|].
  simpl in Hm2, Hown2, Hs2.
  rewrite Hex in *. rewrite (bool_decide_eq_true_2 (Checked = Checked)) in * by done.
  exists m2, child1, h2, tv2, (setRows rs2 child1).
  pose proof (getNodeMask_set_eq _ _ _ _ Hs2) as Hmask2.
  split; [done|]. split; [done|]. split; [done|].
  split. { intros k Hk. by eapply lookup_set_ne. }
  split. { rewrite Hchild1. by destruct child. }
  split; [done|]. split; [done|].
  split. { rewrite Hchild1. by destruct child. }
  split. { rewrite Hchild1. by destruct child. }
  split. { rewrite Hchild1. destruct child; simpl in *. done. }
  intros Hfresh. unfold Osg.getNodeMask in *.
  by rewrite (updateRows_other _ _ _ _ _ Hrs2 _ Hfresh).
Qed.

(** The rows of an unchecked item are out of reach of the propagation. *)
Lemma updateChildren_unchecked item checked h :
  isChecked item = false →
  updateChildren item checked h =
  h' ← Osg.setNodeMask h (m_node item) 0%N; Some (setEnabled checked item, h').
Proof.
  intros Hc. rewrite updateChildren_eq, Hc. simpl. unfold updateOwn.
  rewrite Hc, andb_false_r.
  destruct (Osg.setNodeMask h (m_node item) 0%N); simpl; [|done].
  by destruct item.
Qed.

Lemma updateChildren_below checked item h item' h' :
  updateChildren item checked h = Some (item', h') →
  (isChecked item = false → rows item' = rows item) ∧
  ∀ q U, q ≠ [] → itemFromIndex (rows item) q = Some U → isChecked U = false →
         ∃ U', itemFromIndex (rows item') q = Some U' ∧ rows U' = rows U.
Proof.
  revert item h item' h'. apply (updateChildren_run checked
    (λ item h item' h',
       (isChecked item = false → rows item' = rows item) ∧
       ∀ q U, q ≠ [] → itemFromIndex (rows item) q = Some U →
              isChecked U = false →
              ∃ U', itemFromIndex (rows item') q = Some U' ∧ rows U' = rows U)
    (λ l h l' h',
       ∀ q U, q ≠ [] → itemFromIndex l q = Some U → isChecked U = false →
              ∃ U', itemFromIndex l' q = Some U' ∧ rows U' = rows U)).
  - intros h [|ii q] U Hq; [done|]. simpl. done.
  - intros x l h x' h1 l' h2 Hux _ [Hx1 Hx2] Hl [|ii q] U Hq HU Hc; [done|].
    destruct ii as [|ii].
    + destruct q as [|jj q].
      * simpl in HU. injection HU as ->. exists x'. split; [done|]. auto.
      * rewrite (itemFromIndex_cons (x :: l) 0 (jj :: q) x) in HU by done.
        destruct (Hx2 (jj :: q) U ltac:(done) HU Hc) as (U' & HU' & Hr).
        exists U'. split; [|done].
        by rewrite (itemFromIndex_cons (x' :: l') 0 (jj :: q) x').
    + assert (HU2 : itemFromIndex l (ii :: q) = Some U) by exact HU.
      destruct (Hl (ii :: q) U ltac:(done) HU2 Hc) as (U' & HU' & Hr).
      exists U'. split; [exact HU'|done].
  - intros item h rs' h1 item' h2 Hc _ Hrs Hown.
    apply updateOwn_inv in Hown as (m & prior' & -> & _). simpl.
    split; [by rewrite Hc|]. done.
  - intros item h item' h2 Hc Hown.
    apply updateOwn_inv in Hown as (m & prior' & -> & _). simpl.
    split; [done|]. intros q U _ HU _. eauto.
Qed.

Lemma updateRows_below checked l h l' h' :
  updateRows l checked h = Some (l', h') →
  ∀ q U, q ≠ [] → itemFromIndex l q = Some U → isChecked U = false →
         ∃ U', itemFromIndex l' q = Some U' ∧ rows U' = rows U.
Proof.
  revert h l' h'. induction l as [|x l IH]; intros h l' h'; simpl.
  - intros [= <- <-] [|ii q] U Hq; [done|]. simpl. done.
  - destruct (updateChildren x checked h) as [[x' hx]|] eqn:Ex; simpl; [|done].
    destruct (updateRows l checked hx) as [[l'' hl]|] eqn:El; simpl; [|done].
    intros [= <- <-] [|ii q] U Hq HU Hc; [done|].
    destruct (updateChildren_below _ _ _ _ _ Ex) as [Hx1 Hx2].
    destruct ii as [|ii].
    + destruct q as [|jj q].
      * simpl in HU. injection HU as ->. exists x'. split; [done|]. auto.
      * rewrite (itemFromIndex_cons (x :: l) 0 (jj :: q) x) in HU by done.
        destruct (Hx2 (jj :: q) U ltac:(done) HU Hc) as (U' & HU' & Hr).
        exists U'. split; [|done].
        by rewrite (itemFromIndex_cons (x' :: l'') 0 (jj :: q) x').
    + assert (HU2 : itemFromIndex l (ii :: q) = Some U) by exact HU.
      destruct (IH _ _ _ El (ii :: q) U ltac:(done) HU2 Hc) as (U' & HU' & Hr).
      exists U'. split; [exact HU'|done].
Qed.

(** C10, as amended.  [updateChildren] does not recurse into the rows of an
    item that is not checked: entered with such an item it writes 0 to the
    mask of the item's node, sets the enabled flag, and returns.  So when an
    item is toggled, every item strictly below an unchecked item of its
    subtree is left as it is (remembered mask included), and the mask of the
    node it holds is left as it is unless that node is also the node of the
    toggled item or of an item the propagation visits. *)
Theorem updateChildren_skips_unchecked c index tv w item :
  m_pOsgWidget tv = Some w →
  itemFromIndex (m_pModel tv) index = Some item →
  Forall (λ n, n < length (nodes tv)) (subtreeNodes item) →
  (∀ U checked h, isChecked U = false →
     updateChildren U checked h =
     h' ← Osg.setNodeMask h (m_node U) 0%N; Some (setEnabled checked U, h')) ∧
  ∃ tv',
    toggle c index tv = Some tv' ∧
    ∀ q1 q2 U D,
      q1 ≠ [] → q2 ≠ [] →
      itemFromIndex (rows item) q1 = Some U → checkState U ≠ Checked →
      itemFromIndex (rows U) q2 = Some D →
      itemFromIndex (m_pModel tv') (index ++ q1 ++ q2) = Some D ∧
      (m_node D ∉ m_node item :: flat_map visited (rows item) →
       Osg.getNodeMask (nodes tv') (m_node D) =
       Osg.getNodeMask (nodes tv) (m_node D)).
Proof.
  intros Hw Hit Hlive. split; [apply updateChildren_unchecked|].
  destruct (toggle_spec c _ _ _ _ Hw Hit Hlive)
    as (m & item1 & h1 & rs & tv' & Hm & Hown & Hitem1 & Hs & Hrs & Htg & _ & Hit'
        & _).
  exists tv'. split; [done|].
  intros q1 q2 U D Hq1 Hq2 HU Hc HD.
  assert (HcU : isChecked U = false).
  { unfold isChecked. by apply bool_decide_eq_false_2. }
  destruct (updateRows_below _ _ _ _ _ Hrs q1 U Hq1 HU HcU) as (U' & HU' & Hr).
  split.
  - rewrite (itemFromIndex_app _ _ _ _ Hit') by (by destruct q1).
    simpl. rewrite (itemFromIndex_app _ _ _ _ HU') by done.
    by rewrite Hr.
  - intros Hfresh. apply not_elem_of_cons in Hfresh as [Hne Hfresh].
    unfold Osg.getNodeMask.
    rewrite (updateRows_other _ _ _ _ _ Hrs _ Hfresh).
    by rewrite (lookup_set_ne _ _ _ _ _ Hs Hne).
Qed.

(** An item whose node no row that the propagation visits below it holds. *)
Lemma updateChildren_own checked x h x' h' :
  updateChildren x checked h = Some (x', h') →
  m_node x ∉ flat_map visited (rows x) →
  ∃ m, Osg.getNodeMask h (m_node x) = Some m ∧
       m_priorNodeMask x' =
         (if isChecked x && negb checked then m else m_priorNodeMask x) ∧
       Osg.getNodeMask h' (m_node x) =
         Some (if isChecked x && checked then m_priorNodeMask x else 0%N).
Proof.
  rewrite updateChildren_eq. intros Hrun Hfresh.
  destruct (isChecked x) eqn:Hc; simpl in Hrun.
  - destruct (updateRows (rows x) checked h) as [[rs' h1]|] eqn:Hrs;
      simpl in Hrun; [|done].
    apply updateOwn_inv in Hrun as (m & prior' & -> & Hm & -> & Hs).
    rewrite Hc in *. exists m. unfold Osg.getNodeMask in Hm |- *.
    rewrite <- (updateRows_other _ _ _ _ _ Hrs _ Hfresh). split; [done|].
    split; [done|]. by apply (getNodeMask_set_eq _ _ _ _ Hs).
  - apply updateOwn_inv in Hrun as (m & prior' & -> & Hm & -> & Hs).
    rewrite Hc in *. exists m. split; [done|]. split; [done|].
    by apply (getNodeMask_set_eq _ _ _ _ Hs).
Qed.

Lemma updateRows_own checked l : ∀ h l' h' ii x,
  updateRows l checked h = Some (l', h') → l !! ii = Some x →
  (∀ j y, j ≠ ii → l !! j = Some y → m_node x ∉ visited y) →
  m_node x ∉ flat_map visited (rows x) →
  ∃ x' m, l' !! ii = Some x' ∧ Osg.getNodeMask h (m_node x) = Some m ∧
    m_priorNodeMask x' =
      (if isChecked x && negb checked then m else m_priorNodeMask x) ∧
    Osg.getNodeMask h' (m_node x) =
      Some (if isChecked x && checked then m_priorNodeMask x else 0%N).
Proof.
  induction l as [|y l IH]; intros h l' h' ii x; simpl; [done|].
  destruct (updateChildren y checked h) as [[y' hy]|] eqn:Ey; simpl; [|done].
  destruct (updateRows l checked hy) as [[l'' hl]|] eqn:El; simpl; [|done].
  intros [= <- <-] Hx Hothers Hfresh. destruct ii as [|ii].
  - simpl in Hx. injection Hx as ->.
    destruct (updateChildren_own _ _ _ _ _ Ey Hfresh) as (m & Hm & Hp & Hm').
    exists y', m. split; [done|]. split; [done|]. split; [done|].
    rewrite <- Hm'. unfold Osg.getNodeMask.
    rewrite (updateRows_other _ _ _ _ _ El); [done|].
    intros Hin. apply list_elem_of_In, in_flat_map in Hin as (z & Hz & Hin).
    apply list_elem_of_In, list_elem_of_lookup in Hz as [j Hj].
    apply (Hothers (S j) z); [done|done|by apply list_elem_of_In].
  - simpl in Hx.
    destruct (IH hy l'' hl ii x El Hx) as (x' & m & Hx' & Hm & Hp & Hm').
    { intros j z Hj Hz. apply (Hothers (S j) z); [lia|done]. }
    { done. }
    exists x', m. split; [done|]. split; [|done].
    rewrite <- Hm. unfold Osg.getNodeMask.
    by rewrite (updateChildren_other _ _ _ _ _ Ey _ (Hothers 0 y ltac:(done) eq_refl)).
Qed.

(** C2, as amended.  Let P have the direct rows C1, not checked and with
    its node hidden (mask 0), and C2, checked and with mask [m] on its node,
    where the node of C2 is not also the node of P, of an item that the
    propagation from P visits under the other rows, or of an item it visits
    below C2.  Then unchecking P and checking P again returns the mask of
    C2's node to [m], which is also the mask C2 then remembers, and leaves
    the mask of C1's node at 0 (this part needs no condition on C1's node).
    The two toggles change no check state in the subtree. *)
Theorem recheck_restores_rows index tv w P i1 i2 C1 C2 m :
  m_pOsgWidget tv = Some w →
  itemFromIndex (m_pModel tv) index = Some P →
  Forall (λ n, n < length (nodes tv)) (subtreeNodes P) →
  rows P !! i1 = Some C1 → rows P !! i2 = Some C2 →
  checkState C1 ≠ Checked →
  Osg.getNodeMask (nodes tv) (m_node C1) = Some 0%N →
  checkState C2 = Checked →
  Osg.getNodeMask (nodes tv) (m_node C2) = Some m →
  m_node C2 ≠ m_node P →
  (∀ j X, j ≠ i2 → rows P !! j = Some X → m_node C2 ∉ visited X) →
  m_node C2 ∉ flat_map visited (rows C2) →
  ∃ tv1 tv2 P2 C1' C2',
    toggle Unchecked index tv = Some tv1 ∧
    toggle Checked index tv1 = Some tv2 ∧
    itemFromIndex (m_pModel tv2) index = Some P2 ∧
    frame P2 = frame (setCheckState Checked P) ∧
    itemFromIndex (m_pModel tv2) (index ++ [i1]) = Some C1' ∧
    itemFromIndex (m_pModel tv2) (index ++ [i2]) = Some C2' ∧
    frame C1' = frame C1 ∧ frame C2' = frame C2 ∧
    Osg.getNodeMask (nodes tv1) (m_node C2) = Some 0%N ∧
    Osg.getNodeMask (nodes tv2) (m_node C2) = Some m ∧
    m_priorNodeMask C2' = m ∧
    Osg.getNodeMask (nodes tv2) (m_node C1) = Some 0%N.
Proof.
  intros Hw HP Hlive HC1 HC2 Hc1 Hz1 Hc2 Hm2 HneP Hothers Hfresh.
  (* the uncheck *)
  destruct (toggle_spec Unchecked _ _ _ _ Hw HP Hlive)
    as (mP & Pa & ha & rsa & tv1 & HmP & _ & HPa & Hsa & Hrsa & Htg1 & Hw1 & HP1
        & Hf1 & Hlen1).
  rewrite (bool_decide_eq_false_2 (Unchecked = Checked)) in * by done.
  assert (HcC2 : isChecked C2 = true).
  { unfold isChecked. by apply bool_decide_eq_true_2. }
  assert (Hma2 : Osg.getNodeMask ha (m_node C2) = Some m).
  { by rewrite (getNodeMask_set_ne _ _ _ _ _ Hsa HneP). }
  destruct (updateRows_own _ _ _ _ _ _ _ Hrsa HC2 Hothers Hfresh)
    as (C2a & m' & HC2a & Hm' & HpC2a & Hmask1).
  rewrite HcC2 in HpC2a, Hmask1. simpl in HpC2a, Hmask1.
  assert (m' = m) as -> by congruence.
  destruct (updateRows_row _ _ _ _ _ _ _ Hrsa HC2a) as (C2o & HC2o & HfC2a & _).
  assert (C2o = C2) as -> by congruence.
  assert (Hza : Osg.getNodeMask ha (m_node C1) = Some 0%N).
  { destruct (decide (m_node C1 = m_node P)) as [->|Hne].
    - by apply (getNodeMask_set_eq _ _ _ _ Hsa).
    - by rewrite (getNodeMask_set_ne _ _ _ _ _ Hsa Hne). }
  destruct (updateRows_hide (m_node C1) _ _ _ _ Hrsa Hza) as [Hz1' Hquiet].
  (* the check *)
  set (P1 := setRows rsa Pa) in *.
  assert (Hlive1 : Forall (λ n, n < length (nodes tv1)) (subtreeNodes P1)).
  { rewrite Hlen1, (frame_subtreeNodes _ _ Hf1).
    by rewrite frame_setCheckState_subtreeNodes. }
  destruct (toggle_spec Checked _ _ _ _ Hw1 HP1 Hlive1)
    as (mP1 & Pb & hb & rsb & tv2 & HmP1 & _ & HPb & Hsb & Hrsb & Htg2 & _ & HP2
        & Hf2 & _).
  rewrite (bool_decide_eq_true_2 (Checked = Checked)) in * by done.
  assert (HP1f : m_node P1 = m_node P ∧ rows P1 = rsa ∧
                 isEnabled P1 = isEnabled P ∧
                 m_priorNodeMask P1 = (if isEnabled P then mP else m_priorNodeMask P)).
  { subst P1. rewrite HPa. by destruct P. }
  destruct HP1f as (HnP1 & HrP1 & HeP1 & HpP1).
  rewrite HnP1, HrP1, HeP1, HpP1 in *.
  assert (Hzb : Osg.getNodeMask hb (m_node C1) = Some 0%N).
  { destruct (decide (m_node C1 = m_node P)) as [Heq|Hne].
    - rewrite Heq in *. rewrite (getNodeMask_set_eq _ _ _ _ Hsb).
      assert (mP = 0%N) as -> by congruence.
      by destruct (isEnabled P).
    - by rewrite (getNodeMask_set_ne _ _ _ _ _ Hsb Hne). }
  pose proof (updateRows_show_quiet _ _ _ _ _ Hrsb Hzb Hquiet) as Hz2.
  assert (Hothers1 : ∀ j X, j ≠ i2 → rsa !! j = Some X → m_node C2a ∉ visited X).
  { intros j X Hj HX.
    destruct (updateRows_row _ _ _ _ _ _ _ Hrsa HX) as (Xo & HXo & HfX & _).
    rewrite (frame_visited _ _ HfX).
    destruct (frame_fields _ _ HfC2a) as (_ & _ & -> & _). eauto. }
  assert (HnC2a : m_node C2a = m_node C2 ∧ isChecked C2a = true ∧
                  flat_map visited (rows C2a) = flat_map visited (rows C2)).
  { destruct (frame_fields _ _ HfC2a) as (_ & _ & Hn & _ & Hcs & _).
    split; [done|]. unfold isChecked. rewrite Hcs, Hc2. split; [done|].
    pose proof (frame_visited _ _ HfC2a) as Hv.
    destruct C2a, C2; simpl in *. unfold isChecked in Hv. simpl in Hv.
    rewrite Hcs, Hc2 in Hv. simpl in Hv. by injection Hv. }
  destruct HnC2a as (HnC2a & HcC2a & HvC2a).
  assert (Hfresh1 : m_node C2a ∉ flat_map visited (rows C2a)).
  { by rewrite HnC2a, HvC2a. }
  destruct (updateRows_own _ _ _ _ _ _ _ Hrsb HC2a Hothers1 Hfresh1)
    as (C2b & mb & HC2b & _ & HpC2b & Hmask2).
  rewrite HcC2a in HpC2b, Hmask2. rewrite HnC2a in Hmask2.
  simpl in HpC2b, Hmask2.
  destruct (updateRows_row _ _ _ _ _ _ _ Hrsb HC2b) as (C2x & HC2x & HfC2b & _).
  assert (C2x = C2a) as -> by congruence.
  (* the first row *)
  assert (HC1b : ∃ C1b, rsb !! i1 = Some C1b ∧ frame C1b = frame C1).
  { assert (Hlt : i1 < length rsb).
    { rewrite (updateRows_length _ _ _ _ _ Hrsb), (updateRows_length _ _ _ _ _ Hrsa).
      by eapply lookup_lt_Some. }
    destruct (lookup_lt_is_Some_2 _ _ Hlt) as [C1b HC1b].
    destruct (updateRows_row _ _ _ _ _ _ _ Hrsb HC1b) as (C1a & HC1a & Hfb & _).
    destruct (updateRows_row _ _ _ _ _ _ _ Hrsa HC1a) as (C1o & HC1o & Hfa & _).
    exists C1b. split; [done|]. congruence. }
  destruct HC1b as (C1b & HC1b & HfC1b).
  exists tv1, tv2, (setRows rsb Pb), C1b, C2b.
  split; [done|]. split; [done|]. split; [done|].
  split. { rewrite Hf2. subst P1. rewrite HPa.
           destruct (updateRows_frame _ _ _ _ _ Hrsa) as (Hfa & _).
           destruct P; simpl in *. by rewrite Hfa. }
  split. { rewrite (itemFromIndex_app _ _ _ _ HP2) by done.
           by rewrite itemFromIndex_row. }
  split. { rewrite (itemFromIndex_app _ _ _ _ HP2) by done.
           by rewrite itemFromIndex_row. }
  split; [done|]. split; [congruence|]. split; [done|].
  split; [by rewrite Hmask2, HpC2a|]. split; [congruence|]. done.
Qed.

(** ** Facts about names *)

Lemma prefix_empty s : String.prefix "" s = true.
Proof. by destruct s. Qed.
Lemma prefix_cons a s1 b s2 :
  String.prefix (String a s1) (String b s2) =
  if Ascii.ascii_dec a b then String.prefix s1 s2 else false.
Proof. reflexivity. Qed.
Lemma index_cons s c t :
  String.index 0 s (String c t) =
  if String.prefix s (String c t) then Some 0 else S <$> String.index 0 s t.
Proof. reflexivity. Qed.
Lemma append_cons c s t : String c s +:+ t = String c (s +:+ t).
Proof. reflexivity. Qed.
Lemma append_empty t : "" +:+ t = t.
Proof. reflexivity. Qed.
Lemma index_segment_aux A R :
  String.index 0 "::" (A +:+ ":") = None →
  String.index 0 "::" (A +:+ String ":" (String ":" R)) = Some (String.length A).
Proof.
  induction A as [|c A IH].
  - intros _. rewrite append_empty, index_cons, !prefix_cons.
    destruct (Ascii.ascii_dec ":" ":"); [|done]. by rewrite prefix_empty.
  - rewrite !append_cons, !index_cons.
    destruct (String.prefix "::" (String c (A +:+ ":"))) eqn:Hp; [done|].
    destruct (String.index 0 "::" (A +:+ ":")) eqn:Hi; [done|].
    intros _. rewrite IH by done.
    assert (String.prefix "::" (String c (A +:+ String ":" (String ":" R))) = false)
      as ->; [|done].
    revert Hp. destruct A as [|d A].
    + rewrite !append_empty, !prefix_cons.
      destruct (Ascii.ascii_dec ":" c); [|done].
      destruct (Ascii.ascii_dec ":" ":"); [|done]. by rewrite !prefix_empty.
    + rewrite !append_cons, !prefix_cons.
      destruct (Ascii.ascii_dec ":" c); [|done].
      destruct (Ascii.ascii_dec ":" d); [|done]. by rewrite !prefix_empty.
Qed.

Lemma index_segment A R :
  segment A → String.index 0 "::" (A +:+ "::" +:+ R) = Some (String.length A).
Proof. exact (index_segment_aux A R). Qed.

Lemma substring_pre A R : String.substring 0 (String.length A) (A +:+ R) = A.
Proof.
  induction A as [|c A IH]; simpl; [by destruct R|]. by rewrite IH.
Qed.

Lemma substring_all n R : String.length R ≤ n → String.substring 0 n R = R.
Proof.
  revert n. induction R as [|c R IH]; intros [|n] Hn; simpl in *;
    try done; try lia.
  rewrite IH; [done|lia].
Qed.

Lemma substring_post A R n :
  String.length R ≤ n →
  String.substring (String.length A + 2) n (A +:+ "::" +:+ R) = R.
Proof.
  intros Hn. induction A as [|c A IH]; simpl; [|done].
  by apply substring_all.
Qed.

Lemma length_append A R :
  String.length (A +:+ R) = String.length A + String.length R.
Proof. induction A as [|c A IH]; simpl; [done|]. by rewrite IH. Qed.

(** ** Facts about [add] *)

Lemma isGroup_true h g :
  Osg.isGroup h g = true ↔ ∃ nd cs, h !! g = Some nd ∧ Osg.children nd = Some cs.
Proof.
  unfold Osg.isGroup. destruct (h !! g) as [nd|]; split.
  - intros Hg. apply bool_decide_eq_true in Hg as [cs Hcs]. eauto.
  - intros (nd' & cs & [= <-] & Hcs). apply bool_decide_eq_true. eauto.
  - done.
  - by intros (nd' & cs & ? & _).
Qed.

Lemma isGroup_children h h' k :
  Osg.children <$> h' !! k = Osg.children <$> h !! k →
  Osg.isGroup h' k = Osg.isGroup h k.
Proof.
  unfold Osg.isGroup. destruct (h' !! k), (h !! k); simpl; try done.
  by intros [= ->].
Qed.

Lemma isGroup_lt h g : Osg.isGroup h g = true → g < length h.
Proof.
  intros Hg. apply isGroup_true in Hg as (nd & cs & Hnd & _).
  by eapply lookup_lt_Some.
Qed.

Lemma setNodeMask_groups h n m h' k :
  Osg.setNodeMask h n m = Some h' → Osg.isGroup h' k = Osg.isGroup h k.
Proof. intros Hs. apply isGroup_children. by eapply children_set. Qed.

Lemma addChild_spec h g c :
  Osg.isGroup h g = true →
  ∃ h', Osg.addChild h g c = Some h' ∧ length h' = length h ∧
        (∀ k, Osg.isGroup h' k = Osg.isGroup h k) ∧
        (∀ k, Osg.getNodeMask h' k = Osg.getNodeMask h k).
Proof.
  intros Hg. apply isGroup_true in Hg as (nd & cs & Hnd & Hcs).
  unfold Osg.addChild. rewrite Hnd. simpl. rewrite Hcs. simpl.
  eexists. split; [done|]. rewrite length_insert. split; [done|].
  assert (Hlt : g < length h) by by eapply lookup_lt_Some.
  split; intros k; unfold Osg.isGroup, Osg.getNodeMask;
    (destruct (decide (k = g)) as [->|Hk];
     [rewrite list_lookup_insert_eq by done; by rewrite Hnd, ?Hcs
     |by rewrite list_lookup_insert_ne by done]).
Qed.

Lemma removeChild_spec h g c :
  Osg.isGroup h g = true →
  ∃ h', Osg.removeChild h g c = Some h' ∧ length h' = length h ∧
        (∀ k, Osg.isGroup h' k = Osg.isGroup h k) ∧
        (∀ k, Osg.getNodeMask h' k = Osg.getNodeMask h k).
Proof.
  intros Hg. apply isGroup_true in Hg as (nd & cs & Hnd & Hcs).
  unfold Osg.removeChild. rewrite Hnd. simpl. rewrite Hcs. simpl.
  eexists. split; [done|]. rewrite length_insert. split; [done|].
  assert (Hlt : g < length h) by by eapply lookup_lt_Some.
  split; intros k; unfold Osg.isGroup, Osg.getNodeMask;
    (destruct (decide (k = g)) as [->|Hk];
     [rewrite list_lookup_insert_eq by done; by rewrite Hnd, ?Hcs
     |by rewrite list_lookup_insert_ne by done]).
Qed.

Lemma newGroup_spec h :
  Osg.isGroup (Osg.newGroup h).2 (length h) = true ∧
  Osg.getNodeMask (Osg.newGroup h).2 (length h) = Some Osg.defaultMask ∧
  length (Osg.newGroup h).2 = S (length h) ∧
  (∀ k, k < length h → Osg.isGroup (Osg.newGroup h).2 k = Osg.isGroup h k) ∧
  (∀ k, k < length h →
        Osg.getNodeMask (Osg.newGroup h).2 k = Osg.getNodeMask h k).
Proof.
  unfold Osg.newGroup, Osg.isGroup, Osg.getNodeMask. simpl.
  rewrite length_app. simpl.
  rewrite (lookup_app_r h) by lia. rewrite Nat.sub_diag. simpl.
  split; [done|]. split; [done|]. split; [lia|].
  split; intros k Hk; by rewrite lookup_app_l.
Qed.

Lemma findRow_nil name : findRow [] name = None.
Proof. done. Qed.

Lemma findRow_head item rs : findRow (item :: rs) (m_name item) = Some 0.
Proof. simpl. by rewrite String.eqb_refl. Qed.

Lemma add_split fuel A R path node cb en show disp myParent h :
  segment A →
  add (S fuel) (A +:+ "::" +:+ R) path node cb en show disp myParent h =
  addParent (λ childName entry h,
               add fuel childName path node cb en show disp entry h)
            A R path cb myParent h.
Proof.
  intros HA. cbn [add]. rewrite (index_segment A R HA).
  rewrite substring_pre, substring_post; [done|].
  rewrite !length_append. lia.
Qed.

Lemma add_leaf fuel name path node cb en show disp myParent h :
  String.index 0 "::" name = None →
  add (S fuel) name path node cb en show disp myParent h =
  match findChild myParent name with
  | None => createNewEntry name path node cb en show disp myParent h
  | Some ii => replaceNode ii node en disp myParent h
  end.
Proof. intros Hn. cbn [add]. by rewrite Hn. Qed.

Lemma createNewEntry_spec name path node cb en show disp myParent h :
  Osg.isGroup h (m_node myParent) = true → node < length h →
  ∃ entry h',
    createNewEntry name path node cb en show disp myParent h
      = Some (true, appendRow entry myParent, h') ∧
    m_name entry = name ∧ m_path entry = path ∧ m_node entry = node ∧
    m_func entry = cb ∧ rows entry = [] ∧ isEnabled entry = en ∧
    checkState entry = (if show then Checked else Unchecked) ∧
    length h' = length h ∧ (∀ k, Osg.isGroup h' k = Osg.isGroup h k).
Proof.
  intros Hg Hn. unfold createNewEntry, newItem.
  destruct (getNodeMask_Some _ _ Hn) as [m Hm]. rewrite Hm. simpl.
  assert (Hh1 : ∃ h1, (if disp then Osg.addChild h (m_node myParent) node
                       else Some h) = Some h1 ∧ length h1 = length h ∧
                      ∀ k, Osg.isGroup h1 k = Osg.isGroup h k).
  { destruct disp; [|eauto].
    destruct (addChild_spec h _ node Hg) as (h1 & -> & ? & ? & _). eauto. }
  destruct Hh1 as (h1 & -> & Hlen1 & Hg1). simpl.
  destruct show; simpl.
  - eexists _, _. split; [done|]. simpl. done.
  - unfold clickedItem, clickedOwn, isChecked, setCheckState, setEnabled. simpl.
    destruct (getNodeMask_Some h1 node ltac:(by rewrite Hlen1)) as [m1 Hm1].
    destruct (setNodeMask_Some h1 node 0%N ltac:(by rewrite Hlen1)) as [h2 Hs].
    destruct en; simpl; rewrite ?Hm1; simpl; rewrite Hs; simpl;
      (eexists _, _; split; [done|]; simpl;
       repeat (split; [done|]);
       split; [by destruct (setNodeMask_length _ _ _ _ Hs) as [-> _]|];
       intros k; by rewrite (setNodeMask_groups _ _ _ _ k Hs)).
Qed.

Lemma replaceNode_spec ii node en disp myParent h entry :
  rows myParent !! ii = Some entry →
  m_node entry < length h → node < length h →
  Osg.isGroup h (m_node myParent) = true →
  ∃ h',
    replaceNode ii node en disp myParent h
      = Some (true,
              setRows (<[ii := setEnabled en (setNode node entry)]> (rows myParent))
                      myParent, h') ∧
    Osg.getNodeMask h' node = Osg.getNodeMask h (m_node entry) ∧
    length h' = length h ∧ (∀ k, Osg.isGroup h' k = Osg.isGroup h k).
Proof.
  intros Hrow He Hn Hg. unfold replaceNode. rewrite Hrow. simpl.
  destruct (getNodeMask_Some _ _ He) as [m Hm]. rewrite Hm. simpl.
  destruct (setNodeMask_Some h node m Hn) as [h1 Hs]. rewrite Hs. simpl.
  pose proof (getNodeMask_set_eq _ _ _ _ Hs) as Hm1.
  destruct (setNodeMask_length _ _ _ _ Hs) as [Hlen1 _].
  pose proof (λ k, setNodeMask_groups _ _ _ _ k Hs) as Hg1.
  destruct disp; simpl.
  - destruct (removeChild_spec h1 (m_node myParent) (m_node entry))
      as (h2 & -> & Hlen2 & Hg2 & Hm2); [by rewrite Hg1|]. simpl.
    destruct (addChild_spec h2 (m_node myParent) node)
      as (h3 & -> & Hlen3 & Hg3 & Hm3); [by rewrite Hg2, Hg1|]. simpl.
    eexists. split; [done|]. split; [by rewrite Hm3, Hm2|].
    split; [congruence|]. intros k. by rewrite Hg3, Hg2.
  - eexists. split; [done|]. done.
Qed.

Lemma addParent_new addRest parentName childName path cb myParent h :
  findChild myParent parentName = None →
  Osg.isGroup h (m_node myParent) = true →
  ∃ h1,
    length h1 = S (length h) ∧ Osg.isGroup h1 (length h) = true ∧
    (∀ k, k < length h → Osg.isGroup h1 k = Osg.isGroup h k) ∧
    (∀ k, k < length h → Osg.getNodeMask h1 k = Osg.getNodeMask h k) ∧
    addParent addRest parentName childName path cb myParent h =
    '(rv, entry', h') ←
        addRest childName
          (D3DisplayItem parentName path (length h) Osg.defaultMask cb
                         true Checked []) h1;
    Some (rv, setRows (rows myParent ++ [entry']) myParent, h').
Proof.
  intros Hfind Hg. unfold addParent. rewrite Hfind.
  destruct (newGroup_spec h) as (HgN & HmN & HlenN & HgO & HmO).
  destruct (Osg.newGroup h) as [g h0] eqn:EN.
  assert (g = length h) as -> by (by injection EN).
  simpl in *. unfold newItem. rewrite HmN. simpl.
  pose proof (isGroup_lt _ _ Hg) as Hlt.
  destruct (addChild_spec h0 (m_node myParent) (length h))
    as (h1 & -> & Hlen1 & Hg1 & Hm1); [by rewrite HgO|]. simpl.
  exists h1. split; [congruence|]. split; [by rewrite Hg1|].
  split. { intros k Hk. by rewrite Hg1, HgO. }
  split. { intros k Hk. by rewrite Hm1, HmO. }
  destruct myParent as [name' path' node' prior' func' en' cs' rs']. simpl.
  rewrite (lookup_app_r rs') by lia. rewrite Nat.sub_diag. simpl.
  rewrite Hg1, HgN.
  destruct (addRest childName _ h1) as [[[rv entry'] h']|]; simpl; [|done].
  unfold setRows. simpl. do 3 f_equal.
  rewrite (insert_app_r_alt rs') by lia. rewrite Nat.sub_diag. done.
Qed.

Lemma addParent_found addRest parentName childName path cb myParent h ii entry :
  findChild myParent parentName = Some ii → rows myParent !! ii = Some entry →
  addParent addRest parentName childName path cb myParent h =
  if Osg.isGroup h (m_node entry) then
    '(rv, entry', h') ← addRest childName entry h;
    Some (rv, setRows (<[ii := entry']> (rows myParent)) myParent, h')
  else Some (false, myParent, h).
Proof. intros Hfind Hrow. unfold addParent. rewrite Hfind. simpl. by rewrite Hrow. Qed.

Lemma findChild_single x p name :
  m_name x = name → findChild (setRows [x] p) name = Some 0.
Proof. intros <-. apply findRow_head. Qed.

Lemma TreeView_add_eq name node show disp cb w top rs h :
  TreeView_add name node show disp cb (mkTreeView (Some w) (top :: rs) h) =
  '(rv, top', h') ←
    add (S (String.length name)) name name node cb true show disp top h;
  Some (rv, mkTreeView (Some w) (top' :: rs) h').
Proof. reflexivity. Qed.

(** C1.  On a tree that holds only the synthetic top item, adding a node
    under a path of three segments A, B and leaf returns true and leaves
    exactly one chain below the top item: the item A with the single row B
    with the single row leaf, which has no rows; the nodes of A and B are
    groups and leaf holds the added node.  Adding another node under the
    same path returns true and changes nothing in the chain but the leaf,
    whose node becomes the new node with the check state (and remembered
    mask) as before, the new node taking the mask the old node had. *)
Theorem add_builds_chain A B leaf h rootGroup nodeX showX dispX cbX :
  segment A → segment B → String.index 0 "::" leaf = None →
  Osg.isGroup h rootGroup = true → nodeX < length h →
  ∃ tv0 tv1 top itemA itemB leafX,
    setOsgWidget rootGroup (newTreeView h) = Some tv0 ∧
    m_pModel tv0 = [top] ∧ rows top = [] ∧
    TreeView_add (A +:+ "::" +:+ B +:+ "::" +:+ leaf) nodeX showX dispX cbX tv0
      = Some (true, tv1) ∧
    m_pModel tv1 = [setRows [setRows [setRows [leafX] itemB] itemA] top] ∧
    m_name itemA = A ∧ m_name itemB = B ∧ m_name leafX = leaf ∧
    rows leafX = [] ∧
    Osg.isGroup (nodes tv1) (m_node itemA) = true ∧
    Osg.isGroup (nodes tv1) (m_node itemB) = true ∧
    m_node leafX = nodeX ∧
    ∀ nodeY showY dispY cbY, nodeY < length (nodes tv1) →
      ∃ tv2 leafY,
        TreeView_add (A +:+ "::" +:+ B +:+ "::" +:+ leaf) nodeY showY dispY cbY tv1
          = Some (true, tv2) ∧
        m_pModel tv2 = [setRows [setRows [setRows [leafY] itemB] itemA] top] ∧
        leafY = setEnabled true (setNode nodeY leafX) ∧
        m_node leafY = nodeY ∧ checkState leafY = checkState leafX ∧
        m_priorNodeMask leafY = m_priorNodeMask leafX ∧
        Osg.getNodeMask (nodes tv2) nodeY = Osg.getNodeMask (nodes tv1) nodeX.
Proof.
  intros HA HB Hleaf Hroot HX.
  set (path := A +:+ "::" +:+ B +:+ "::" +:+ leaf).
  assert (Hfuel : String.length path =
                  S (S (String.length A + String.length B + 2 + String.length leaf))).
  { unfold path. rewrite !length_append. simpl. lia. }
  pose proof (isGroup_lt _ _ Hroot) as Hrlt.
  destruct (getNodeMask_Some _ _ Hrlt) as [mr Hmr].
  set (top := D3DisplayItem "All Displayed Items" "All Displayed Items"
                            rootGroup mr noCallback true Checked []).
  set (entryA := D3DisplayItem A path (length h) Osg.defaultMask cbX true Checked []).
  destruct (addParent_new
    (λ childName entry h0,
       add (String.length path) childName path nodeX cbX true showX dispX entry h0)
    A (B +:+ "::" +:+ leaf) path cbX top h eq_refl Hroot)
    as (h1 & Hlen1 & HgA1 & Hg1 & Hm1 & HaddA).
  set (entryB := D3DisplayItem B path (length h1) Osg.defaultMask cbX true Checked []).
  destruct (addParent_new
    (λ childName entry h0,
       add (S (String.length A + String.length B + 2 + String.length leaf))
           childName path nodeX cbX true showX dispX entry h0)
    B leaf path cbX entryA h1 eq_refl HgA1)
    as (h2 & Hlen2 & HgB2 & Hg2 & Hm2 & HaddB).
  destruct (createNewEntry_spec leaf path nodeX cbX true showX dispX entryB h2)
    as (leafX & h3 & Hnew & HnameX & _ & HnodeX & _ & HrowsX & _ & _ & Hlen3 & Hg3);
    [done|lia|].
  assert (Hadd1 : add (S (String.length path)) path path nodeX cbX true showX dispX
                      top h
                  = Some (true, setRows [setRows [setRows [leafX] entryB] entryA] top, h3)).
  { unfold path at 2. rewrite add_split by done. fold path. rewrite HaddA.
    fold entryA. rewrite Hfuel. rewrite add_split by done. rewrite HaddB.
    fold entryB. rewrite add_leaf by done.
    change (findChild entryB leaf) with (@None nat). cbv iota. rewrite Hnew.
    reflexivity. }
  exists (mkTreeView (Some rootGroup) [top] h),
         (mkTreeView (Some rootGroup)
            [setRows [setRows [setRows [leafX] entryB] entryA] top] h3),
         top, entryA, entryB, leafX.
  split. { unfold setOsgWidget, newItem. simpl. by rewrite Hmr. }
  split; [done|]. split; [done|].
  split. { rewrite TreeView_add_eq. fold path. by rewrite Hadd1. }
  split; [done|]. split; [done|]. split; [done|]. split; [done|].
  split; [done|].
  assert (HgA3 : Osg.isGroup h3 (length h) = true).
  { rewrite Hg3, Hg2; [done|lia]. }
  assert (HgB3 : Osg.isGroup h3 (length h1) = true) by by rewrite Hg3.
  split; [done|]. split; [done|]. split; [done|].
  intros nodeY showY dispY cbY HY. simpl in HY.
  destruct (replaceNode_spec 0 nodeY true dispY (setRows [leafX] entryB) h3 leafX)
    as (h4 & Hrep & Hmask & _); [done|rewrite HnodeX; lia|done|done|].
  exists (mkTreeView (Some rootGroup)
            [setRows [setRows [setRows [setEnabled true (setNode nodeY leafX)]
                                       entryB] entryA] top] h4),
         (setEnabled true (setNode nodeY leafX)).
  split.
  { rewrite TreeView_add_eq. fold path.
    unfold path at 2. rewrite add_split by done. fold path.
    rewrite (addParent_found _ _ _ _ _ _ _ 0 (setRows [setRows [leafX] entryB] entryA));
      [|by apply findChild_single|done].
    change (m_node (setRows [setRows [leafX] entryB] entryA)) with (length h).
    rewrite HgA3, Hfuel. rewrite add_split by done.
    rewrite (addParent_found _ _ _ _ _ _ _ 0 (setRows [leafX] entryB));
      [|by apply findChild_single|done].
    change (m_node (setRows [leafX] entryB)) with (length h1).
    rewrite HgB3. rewrite add_leaf by done.
    rewrite (findChild_single leafX entryB leaf HnameX).
    rewrite Hrep. reflexivity. }
  split; [done|]. split; [done|].
  split; [by destruct leafX|]. split; [by destruct leafX|].
  split; [by destruct leafX|]. simpl. by rewrite Hmask, HnodeX.
Qed.

Lemma prefix_append s A R :
  String.prefix s A = true → String.prefix s (A +:+ R) = true.
Proof.
  revert A. induction s as [|a s IH]; intros A; [by rewrite !prefix_empty|].
  destruct A as [|c A]; [done|].
  rewrite append_cons, !prefix_cons.
  destruct (Ascii.ascii_dec a c); [apply IH|done].
Qed.

Lemma segment_index A : segment A → String.index 0 "::" A = None.
Proof.
  unfold segment. induction A as [|c A IH]; [done|].
  rewrite append_cons, !index_cons.
  destruct (String.prefix "::" (String c A)) eqn:Hp.
  - rewrite <- append_cons, (prefix_append _ _ _ Hp). done.
  - rewrite <- append_cons.
    destruct (String.prefix "::" (String c A +:+ ":")); [done|].
    destruct (String.index 0 "::" (A +:+ ":")) eqn:Hi; [done|].
    intros _. by rewrite IH.
Qed.

(** C3, as amended.  After a leaf was added under the path X::Y, an add
    under the path X is not rejected: it returns true and is carried out as a
    replacement of the node of item X, the group made for X giving way to the
    new node (which takes the group's mask) while the row Y stays below X.
    The rejection is that of the opposite order: where X holds a node that is
    not a group, an add under X::Y returns false and leaves the tree view and
    the store of nodes as they were. *)
Theorem add_conflict_with_group X Y h rootGroup n1 n2
    show1 disp1 cb1 show2 disp2 cb2 :
  segment X → String.index 0 "::" Y = None →
  Osg.isGroup h rootGroup = true → n1 < length h → n2 < length h →
  (∃ tv0 tv1 tv2 top itemX leafY,
     setOsgWidget rootGroup (newTreeView h) = Some tv0 ∧
     TreeView_add (X +:+ "::" +:+ Y) n1 show1 disp1 cb1 tv0 = Some (true, tv1) ∧
     m_pModel tv1 = [setRows [setRows [leafY] itemX] top] ∧
     m_name itemX = X ∧ m_node itemX = length h ∧
     Osg.isGroup (nodes tv1) (m_node itemX) = true ∧
     TreeView_add X n2 show2 disp2 cb2 tv1 = Some (true, tv2) ∧
     m_pModel tv2 =
       [setRows [setRows [leafY] (setEnabled true (setNode n2 itemX))] top] ∧
     Osg.getNodeMask (nodes tv2) n2 = Osg.getNodeMask (nodes tv1) (m_node itemX)) ∧
  (Osg.isGroup h n1 = false →
   ∃ tv0 tv1,
     setOsgWidget rootGroup (newTreeView h) = Some tv0 ∧
     TreeView_add X n1 show1 disp1 cb1 tv0 = Some (true, tv1) ∧
     TreeView_add (X +:+ "::" +:+ Y) n2 show2 disp2 cb2 tv1 = Some (false, tv1)).
Proof.
  intros HX HY Hroot H1 H2.
  pose proof (segment_index _ HX) as HXi.
  pose proof (isGroup_lt _ _ Hroot) as Hrlt.
  destruct (getNodeMask_Some _ _ Hrlt) as [mr Hmr].
  set (top := D3DisplayItem "All Displayed Items" "All Displayed Items"
                            rootGroup mr noCallback true Checked []).
  assert (Hset : setOsgWidget rootGroup (newTreeView h)
                 = Some (mkTreeView (Some rootGroup) [top] h)).
  { unfold setOsgWidget, newItem. simpl. by rewrite Hmr. }
  split.
  - set (path := X +:+ "::" +:+ Y).
    set (entryX := D3DisplayItem X path (length h) Osg.defaultMask cb1 true Checked []).
    destruct (addParent_new
      (λ childName entry h0,
         add (String.length path) childName path n1 cb1 true show1 disp1 entry h0)
      X Y path cb1 top h eq_refl Hroot)
      as (h1 & Hlen1 & HgX1 & Hg1 & Hm1 & HaddX).
    destruct (createNewEntry_spec Y path n1 cb1 true show1 disp1 entryX h1)
      as (leafY & h2 & Hnew & _ & _ & _ & _ & _ & _ & _ & Hlen2 & Hg2);
      [done|lia|].
    assert (Hfuel : String.length path = S (S (String.length X + String.length Y))).
    { unfold path. rewrite !length_append. simpl. lia. }
    assert (HgX2 : Osg.isGroup h2 (length h) = true) by by rewrite Hg2.
    destruct (replaceNode_spec 0 n2 true disp2 (setRows [setRows [leafY] entryX] top)
                h2 (setRows [leafY] entryX))
      as (h3 & Hrep & Hmask & _); [done|simpl; lia|lia|by rewrite Hg2, Hg1|].
    exists (mkTreeView (Some rootGroup) [top] h),
           (mkTreeView (Some rootGroup) [setRows [setRows [leafY] entryX] top] h2),
           (mkTreeView (Some rootGroup)
              [setRows [setRows [leafY] (setEnabled true (setNode n2 entryX))] top] h3),
           top, entryX, leafY.
    split; [done|].
    split. { rewrite TreeView_add_eq. fold path. unfold path at 2.
             rewrite add_split by done. fold path. rewrite HaddX. fold entryX.
             rewrite Hfuel, add_leaf by done.
             change (findChild entryX Y) with (@None nat). cbv iota.
             rewrite Hnew. reflexivity. }
    split; [done|]. split; [done|]. split; [done|]. split; [done|].
    split. { rewrite TreeView_add_eq, add_leaf by done.
             rewrite (findChild_single (setRows [leafY] entryX) top X eq_refl).
             rewrite Hrep. reflexivity. }
    split; [done|]. exact Hmask.
  - intros Hleaf.
    destruct (createNewEntry_spec X X n1 cb1 true show1 disp1 top h)
      as (leafX & h1 & Hnew & HnameX & _ & HnodeX & _ & _ & _ & _ & Hlen1 & Hg1);
      [done|done|].
    exists (mkTreeView (Some rootGroup) [top] h),
           (mkTreeView (Some rootGroup) [setRows [leafX] top] h1).
    split; [done|].
    split. { rewrite TreeView_add_eq, add_leaf by done.
             change (findChild top X) with (@None nat). cbv iota.
             rewrite Hnew. reflexivity. }
    rewrite TreeView_add_eq, add_split by done.
    rewrite (addParent_found _ _ _ _ _ _ _ 0 leafX);
      [|by apply findChild_single|done].
    rewrite Hg1, HnodeX, Hleaf. reflexivity.
Qed.

(** ** The example scenes *)

Lemma plainScene_view : plainScene = Some plainView.
Proof. vm_compute. reflexivity. Qed.

Lemma aliasScene_view : aliasScene = Some aliasView.
Proof. vm_compute. reflexivity. Qed.

Lemma add_builds_chain_witness :
  (segment "A" ∧ segment "B" ∧ String.index 0 "::" "leaf" = None ∧
   Osg.isGroup exampleStore 0 = true ∧ 1 < length exampleStore) ∧
  ∃ tv0 tv1 top itemA itemB leafX,
    setOsgWidget 0 (newTreeView exampleStore) = Some tv0 ∧
    m_pModel tv0 = [top] ∧ rows top = [] ∧
    TreeView_add ("A" +:+ "::" +:+ "B" +:+ "::" +:+ "leaf") 1 true true noCallback tv0
      = Some (true, tv1) ∧
    m_pModel tv1 = [setRows [setRows [setRows [leafX] itemB] itemA] top] ∧
    m_name itemA = "A" ∧ m_name itemB = "B" ∧ m_name leafX = "leaf" ∧
    rows leafX = [] ∧
    Osg.isGroup (nodes tv1) (m_node itemA) = true ∧
    Osg.isGroup (nodes tv1) (m_node itemB) = true ∧
    m_node leafX = 1 ∧
    ∀ nodeY showY dispY cbY, nodeY < length (nodes tv1) →
      ∃ tv2 leafY,
        TreeView_add ("A" +:+ "::" +:+ "B" +:+ "::" +:+ "leaf") nodeY showY dispY cbY tv1
          = Some (true, tv2) ∧
        m_pModel tv2 = [setRows [setRows [setRows [leafY] itemB] itemA] top] ∧
        leafY = setEnabled true (setNode nodeY leafX) ∧
        m_node leafY = nodeY ∧ checkState leafY = checkState leafX ∧
        m_priorNodeMask leafY = m_priorNodeMask leafX ∧
        Osg.getNodeMask (nodes tv2) nodeY = Osg.getNodeMask (nodes tv1) 1.
Proof.
  assert (Hhyp : segment "A" ∧ segment "B" ∧ String.index 0 "::" "leaf" = None ∧
                 Osg.isGroup exampleStore 0 = true ∧ 1 < length exampleStore).
  { repeat split; try reflexivity. simpl. lia. }
  split; [exact Hhyp|].
  destruct Hhyp as (HA & HB & Hleaf & Hroot & Hnode).
  exact (add_builds_chain "A" "B" "leaf" exampleStore 0 1 true true noCallback
                          HA HB Hleaf Hroot Hnode).
Defined.

Lemma recheck_restores_rows_witness :
  (m_pOsgWidget plainView = Some 0 ∧
   itemFromIndex (m_pModel plainView) [0; 0] = Some plainP ∧
   Forall (λ n, n < length (nodes plainView)) (subtreeNodes plainP) ∧
   rows plainP !! 0 = Some plainC1 ∧ rows plainP !! 1 = Some plainC2 ∧
   checkState plainC1 ≠ Checked ∧
   Osg.getNodeMask (nodes plainView) (m_node plainC1) = Some 0%N ∧
   checkState plainC2 = Checked ∧
   Osg.getNodeMask (nodes plainView) (m_node plainC2) = Some 9%N ∧
   m_node plainC2 ≠ m_node plainP ∧
   (∀ j X, j ≠ 1 → rows plainP !! j = Some X → m_node plainC2 ∉ visited X) ∧
   m_node plainC2 ∉ flat_map visited (rows plainC2)) ∧
  ∃ tv1 tv2 P2 C1' C2',
    toggle Unchecked [0; 0] plainView = Some tv1 ∧
    toggle Checked [0; 0] tv1 = Some tv2 ∧
    itemFromIndex (m_pModel tv2) [0; 0] = Some P2 ∧
    frame P2 = frame (setCheckState Checked plainP) ∧
    itemFromIndex (m_pModel tv2) ([0; 0] ++ [0]) = Some C1' ∧
    itemFromIndex (m_pModel tv2) ([0; 0] ++ [1]) = Some C2' ∧
    frame C1' = frame plainC1 ∧ frame C2' = frame plainC2 ∧
    Osg.getNodeMask (nodes tv1) (m_node plainC2) = Some 0%N ∧
    Osg.getNodeMask (nodes tv2) (m_node plainC2) = Some 9%N ∧
    m_priorNodeMask C2' = 9%N ∧
    Osg.getNodeMask (nodes tv2) (m_node plainC1) = Some 0%N.
Proof.
  assert (Hlive : Forall (λ n, n < length (nodes plainView)) (subtreeNodes plainP)).
  { repeat (constructor; [simpl; lia|]). constructor. }
  assert (Hothers : ∀ j X, j ≠ 1 → rows plainP !! j = Some X →
                           m_node plainC2 ∉ visited X).
  { intros [|[|j]] X Hj; simpl; [|done|done].
    intros [= <-]. simpl. intros Hin. apply list_elem_of_singleton in Hin. done. }
  assert (Hfresh : m_node plainC2 ∉ flat_map visited (rows plainC2)).
  { simpl. apply not_elem_of_nil. }
  assert (Hc1 : checkState plainC1 ≠ Checked) by done.
  assert (Hne : m_node plainC2 ≠ m_node plainP) by (simpl; lia).
  split; [repeat split; try reflexivity; assumption|].
  exact (recheck_restores_rows [0; 0] plainView 0 plainP 0 1 plainC1 plainC2 9%N
           eq_refl eq_refl Hlive eq_refl eq_refl Hc1 eq_refl eq_refl eq_refl
           Hne Hothers Hfresh).
Defined.

(** C2, a state in which the claim as stated fails: the rows C2 and C3 of P
    hold the same node.  After P is unchecked and checked again, C2 is checked
    and remembers the mask 9, but its node is hidden: C3, which the
    propagation visits after C2, remembered the 0 that C2 had just written. *)
Lemma recheck_hides_shared_node :
  ∃ tv P C1 C2 C3 tv1 tv2 C2',
    sharedScene = Some tv ∧
    itemFromIndex (m_pModel tv) [0; 0] = Some P ∧
    rows P = [C1; C2; C3] ∧
    checkState C1 = Unchecked ∧
    Osg.getNodeMask (nodes tv) (m_node C1) = Some 0%N ∧
    checkState C2 = Checked ∧
    Osg.getNodeMask (nodes tv) (m_node C2) = Some 9%N ∧
    m_node C3 = m_node C2 ∧
    toggle Unchecked [0; 0] tv = Some tv1 ∧
    toggle Checked [0; 0] tv1 = Some tv2 ∧
    itemFromIndex (m_pModel tv2) [0; 0; 1] = Some C2' ∧
    checkState C2' = Checked ∧ m_priorNodeMask C2' = 9%N ∧
    Osg.getNodeMask (nodes tv2) (m_node C2) = Some 0%N ∧
    Osg.getNodeMask (nodes tv2) (m_node C2) ≠ Some (m_priorNodeMask C2').
Proof.
  do 8 eexists.
  split; [vm_compute; reflexivity|].
  split; [vm_compute; reflexivity|].
  split; [reflexivity|].
  repeat (split; [vm_compute; reflexivity|]).
  vm_compute. discriminate.
Qed.

Lemma add_conflict_with_group_witness :
  (segment "X" ∧ String.index 0 "::" "Y" = None ∧
   Osg.isGroup exampleStore 0 = true ∧ 1 < length exampleStore ∧
   2 < length exampleStore ∧ Osg.isGroup exampleStore 1 = false) ∧
  (∃ tv0 tv1 tv2 top itemX leafY,
     setOsgWidget 0 (newTreeView exampleStore) = Some tv0 ∧
     TreeView_add ("X" +:+ "::" +:+ "Y") 1 true true noCallback tv0 = Some (true, tv1) ∧
     m_pModel tv1 = [setRows [setRows [leafY] itemX] top] ∧
     m_name itemX = "X" ∧ m_node itemX = length exampleStore ∧
     Osg.isGroup (nodes tv1) (m_node itemX) = true ∧
     TreeView_add "X" 2 true true noCallback tv1 = Some (true, tv2) ∧
     m_pModel tv2 =
       [setRows [setRows [leafY] (setEnabled true (setNode 2 itemX))] top] ∧
     Osg.getNodeMask (nodes tv2) 2 = Osg.getNodeMask (nodes tv1) (m_node itemX)) ∧
  (∃ tv0 tv1,
     setOsgWidget 0 (newTreeView exampleStore) = Some tv0 ∧
     TreeView_add "X" 1 true true noCallback tv0 = Some (true, tv1) ∧
     TreeView_add ("X" +:+ "::" +:+ "Y") 2 true true noCallback tv1 = Some (false, tv1)).
Proof.
  assert (Hhyp : segment "X" ∧ String.index 0 "::" "Y" = None ∧
                 Osg.isGroup exampleStore 0 = true ∧ 1 < length exampleStore ∧
                 2 < length exampleStore ∧ Osg.isGroup exampleStore 1 = false).
  { repeat split; try reflexivity; simpl; lia. }
  split; [exact Hhyp|].
  destruct Hhyp as (HX & HY & Hroot & H1 & H2 & Hleaf).
  destruct (add_conflict_with_group "X" "Y" exampleStore 0 1 2
              true true noCallback true true noCallback HX HY Hroot H1 H2)
    as [Hfirst Hsecond].
  split; [exact Hfirst|exact (Hsecond Hleaf)].
Defined.

(** C3, the claim as stated fails: after the add under X::Y, the add under X
    returns true, item X holds the new node 2 in place of its group 4, and the
    root group has the child 2 in place of 4. *)
Lemma add_over_group_is_accepted :
  ∃ tv1 tv2 itemX itemX',
    conflictScene = Some tv1 ∧
    itemFromIndex (m_pModel tv1) [0; 0] = Some itemX ∧
    m_name itemX = "X" ∧ m_node itemX = 4 ∧
    Osg.isGroup (nodes tv1) (m_node itemX) = true ∧
    Osg.children <$> nodes tv1 !! 0 = Some (Some [4]) ∧
    TreeView_add "X" 2 true true noCallback tv1 = Some (true, tv2) ∧
    TreeView_add "X" 2 true true noCallback tv1 ≠ Some (false, tv1) ∧
    itemFromIndex (m_pModel tv2) [0; 0] = Some itemX' ∧
    m_node itemX' = 2 ∧ rows itemX' = rows itemX ∧
    Osg.children <$> nodes tv2 !! 0 = Some (Some [2]).
Proof.
  do 4 eexists.
  split; [vm_compute; reflexivity|].
  split; [vm_compute; reflexivity|].
  repeat (split; [vm_compute; reflexivity|]).
  split; [vm_compute; discriminate|].
  repeat (split; [vm_compute; reflexivity|]).
  vm_compute. reflexivity.
Qed.

Lemma clicked_own_node_mask_witness :
  (m_pOsgWidget plainView = Some 0 ∧
   itemFromIndex (m_pModel plainView) [0; 0; 1] = Some plainC2 ∧
   Forall (λ n, n < length (nodes plainView)) (subtreeNodes plainC2)) ∧
  ∃ m item1 h1 tv' item',
    Osg.getNodeMask (nodes plainView) (m_node plainC2) = Some m ∧
    clickedOwn (setCheckState Unchecked plainC2) (nodes plainView) = Some (item1, h1) ∧
    m_priorNodeMask item1 =
      (if bool_decide (Unchecked = Checked) then m_priorNodeMask plainC2
       else if isEnabled plainC2 then m else m_priorNodeMask plainC2) ∧
    Osg.getNodeMask h1 (m_node plainC2) =
      Some (if bool_decide (Unchecked = Checked)
            then if isEnabled plainC2 then m_priorNodeMask plainC2 else 0%N
            else 0%N) ∧
    toggle Unchecked [0; 0; 1] plainView = Some tv' ∧
    itemFromIndex (m_pModel tv') [0; 0; 1] = Some item' ∧
    m_priorNodeMask item' = m_priorNodeMask item1 ∧
    isEnabled item' = isEnabled plainC2 ∧
    checkState item' = Unchecked ∧
    m_node item' = m_node plainC2 ∧
    (Unchecked ≠ Checked →
     Osg.getNodeMask (nodes tv') (m_node plainC2) = Some 0%N) ∧
    (m_node plainC2 ∉ flat_map visited (rows plainC2) →
     Osg.getNodeMask (nodes tv') (m_node plainC2) =
     Osg.getNodeMask h1 (m_node plainC2)).
Proof.
  assert (Hlive : Forall (λ n, n < length (nodes plainView)) (subtreeNodes plainC2)).
  { repeat (constructor; [simpl; lia|]). constructor. }
  split; [repeat split; try reflexivity; assumption|].
  exact (clicked_own_node_mask Unchecked [0; 0; 1] plainView 0 plainC2
           eq_refl eq_refl Hlive).
Defined.

Lemma updateChildren_sets_enabled_witness :
  (m_pOsgWidget plainView = Some 0 ∧
   itemFromIndex (m_pModel plainView) [0; 0] = Some plainP ∧
   Forall (λ n, n < length (nodes plainView)) (subtreeNodes plainP)) ∧
  ∃ tv1 item1,
    toggle Unchecked [0; 0] plainView = Some tv1 ∧
    itemFromIndex (m_pModel tv1) [0; 0] = Some item1 ∧
    length (rows item1) = length (rows plainP) ∧
    (∀ ii child, rows item1 !! ii = Some child →
       isEnabled child = bool_decide (Unchecked = Checked)) ∧
    (Unchecked ≠ Checked → ∀ ii child, rows item1 !! ii = Some child →
       isEnabled child = false ∧
       itemFromIndex (m_pModel tv1) ([0; 0] ++ [ii]) = Some child ∧
       Forall (λ n, n < length (nodes tv1)) (subtreeNodes child) ∧
       ∀ h, Forall (λ n, n < length h) (subtreeNodes child) →
         ∃ m child1 h1 tv2 child2,
           Osg.getNodeMask h (m_node child) = Some m ∧
           clickedOwn (setCheckState Checked child) h = Some (child1, h1) ∧
           Osg.getNodeMask h1 (m_node child) = Some 0%N ∧
           (∀ k, k ≠ m_node child → h1 !! k = h !! k) ∧
           m_priorNodeMask child1 = m_priorNodeMask child ∧
           toggle Checked ([0; 0] ++ [ii])
                  (mkTreeView (m_pOsgWidget tv1) (m_pModel tv1) h) = Some tv2 ∧
           itemFromIndex (m_pModel tv2) ([0; 0] ++ [ii]) = Some child2 ∧
           m_priorNodeMask child2 = m_priorNodeMask child ∧
           checkState child2 = Checked ∧ isEnabled child2 = false ∧
           (m_node child ∉ flat_map visited (rows child) →
            Osg.getNodeMask (nodes tv2) (m_node child) = Some 0%N)).
Proof.
  assert (Hlive : Forall (λ n, n < length (nodes plainView)) (subtreeNodes plainP)).
  { repeat (constructor; [simpl; lia|]). constructor. }
  split; [repeat split; try reflexivity; assumption|].
  exact (updateChildren_sets_enabled Unchecked [0; 0] plainView 0 plainP
           eq_refl eq_refl Hlive).
Defined.

(** An execution of the second half on a scene that three calls of the
    public [add] and two clicks make: P is unchecked, which hides the node of
    its row C and disables C; a click on the checked row Q, which holds the
    same node, gives the node its mask 9 back; the direct check of the
    disabled C then writes 0 to the node, while C remembers 9. *)
Lemma direct_check_of_disabled_row_hides :
  ∃ tv0 tv1 tv2 tv3 C C',
    twinScene = Some tv0 ∧
    toggle Unchecked [0; 0] tv0 = Some tv1 ∧
    toggle Checked [0; 1] tv1 = Some tv2 ∧
    itemFromIndex (m_pModel tv2) [0; 0; 0] = Some C ∧
    isEnabled C = false ∧ m_priorNodeMask C = 9%N ∧
    Osg.getNodeMask (nodes tv2) (m_node C) = Some 9%N ∧
    toggle Checked [0; 0; 0] tv2 = Some tv3 ∧
    itemFromIndex (m_pModel tv3) [0; 0; 0] = Some C' ∧
    checkState C' = Checked ∧ m_priorNodeMask C' = 9%N ∧
    Osg.getNodeMask (nodes tv3) (m_node C) = Some 0%N.
Proof.
  do 6 eexists.
  split; [vm_compute; reflexivity|].
  split; [vm_compute; reflexivity|].
  split; [vm_compute; reflexivity|].
  split; [vm_compute; reflexivity|].
  repeat (split; [vm_compute; reflexivity|]).
  vm_compute. reflexivity.
Qed.

Lemma updateChildren_skips_unchecked_witness :
  (m_pOsgWidget aliasView = Some 0 ∧
   itemFromIndex (m_pModel aliasView) [0; 0] = Some aliasP ∧
   Forall (λ n, n < length (nodes aliasView)) (subtreeNodes aliasP)) ∧
  (∀ U checked h, isChecked U = false →
     updateChildren U checked h =
     h' ← Osg.setNodeMask h (m_node U) 0%N; Some (setEnabled checked U, h')) ∧
  ∃ tv',
    toggle Unchecked [0; 0] aliasView = Some tv' ∧
    ∀ q1 q2 U D,
      q1 ≠ [] → q2 ≠ [] →
      itemFromIndex (rows aliasP) q1 = Some U → checkState U ≠ Checked →
      itemFromIndex (rows U) q2 = Some D →
      itemFromIndex (m_pModel tv') ([0; 0] ++ q1 ++ q2) = Some D ∧
      (m_node D ∉ m_node aliasP :: flat_map visited (rows aliasP) →
       Osg.getNodeMask (nodes tv') (m_node D) =
       Osg.getNodeMask (nodes aliasView) (m_node D)).
Proof.
  assert (Hlive : Forall (λ n, n < length (nodes aliasView)) (subtreeNodes aliasP)).
  { repeat (constructor; [simpl; lia|]). constructor. }
  split; [repeat split; try reflexivity; assumption|].
  exact (updateChildren_skips_unchecked Unchecked [0; 0] aliasView 0 aliasP
           eq_refl eq_refl Hlive).
Defined.

(** C10, a state in which the claim as stated fails: D lies below the
    unchecked U in the subtree of P and holds the node of V, a checked row of
    P.  Unchecking P leaves the item D as it is, but the mask of its node goes
    from 7 to 0, written by the propagation into V. *)
Lemma toggle_hides_node_below_unchecked :
  ∃ tv P U D tv',
    aliasScene = Some tv ∧
    itemFromIndex (m_pModel tv) [0; 0] = Some P ∧
    itemFromIndex (rows P) [0] = Some U ∧ checkState U = Unchecked ∧
    itemFromIndex (rows U) [0] = Some D ∧
    toggle Unchecked [0; 0] tv = Some tv' ∧
    itemFromIndex (m_pModel tv') [0; 0; 0; 0] = Some D ∧
    Osg.getNodeMask (nodes tv) (m_node D) = Some 7%N ∧
    Osg.getNodeMask (nodes tv') (m_node D) = Some 0%N ∧
    Osg.getNodeMask (nodes tv') (m_node D) ≠ Osg.getNodeMask (nodes tv) (m_node D).
Proof.
  do 5 eexists.
  split; [vm_compute; reflexivity|].
  split; [vm_compute; reflexivity|].
  repeat (split; [vm_compute; reflexivity|]).
  vm_compute. discriminate.
Qed.

(** ** The rows of an item ([TreeView::findChild]) *)

Lemma findRow_spec rs name :
  match findRow rs name with
  | Some ii => ∃ ch, rs !! ii = Some ch ∧ m_name ch = name ∧
               ∀ j x, j < ii → rs !! j = Some x → m_name x ≠ name
  | None => ∀ x, x ∈ rs → m_name x ≠ name
  end.
Proof.
  induction rs as [|ch rs IH]; simpl.
  - intros x Hx. by apply elem_of_nil in Hx.
  - destruct (String.eqb_spec (m_name ch) name) as [Heq|Hne].
    + exists ch. split; [done|]. split; [done|]. intros j x Hj. lia.
    + destruct (findRow rs name) as [ii|]; simpl.
      * destruct IH as (c & Hc & Hn & Hfirst). exists c.
        split; [done|]. split; [done|].
        intros [|j] x Hj; simpl; [by intros [= <-]|]. apply Hfirst. lia.
      * intros x Hx. apply elem_of_cons in Hx as [->|Hx]; [done|by apply IH].
Qed.

Lemma findChild_Some myParent name ii :
  findChild myParent name = Some ii →
  ∃ ch, rows myParent !! ii = Some ch ∧ m_name ch = name.
Proof.
  unfold findChild. intros H. pose proof (findRow_spec (rows myParent) name) as Hs.
  rewrite H in Hs. destruct Hs as (ch & ? & ? & _). eauto.
Qed.

Lemma findChild_None myParent name :
  findChild myParent name = None → name ∉ m_name <$> rows myParent.
Proof.
  unfold findChild. intros H. pose proof (findRow_spec (rows myParent) name) as Hs.
  rewrite H in Hs. intros Hin. apply list_elem_of_fmap in Hin as (x & -> & Hx).
  by apply (Hs x Hx).
Qed.

(** X1.  [findChild] returns null exactly when no row of the parent has the
    name, and otherwise the first row with that name: the row it returns has
    the name and every row before it has another one. *)
Theorem findChild_first myParent name :
  (findChild myParent name = None ↔ name ∉ m_name <$> rows myParent) ∧
  ∀ ii, findChild myParent name = Some ii ↔
        ∃ ch, rows myParent !! ii = Some ch ∧ m_name ch = name ∧
              ∀ j x, j < ii → rows myParent !! j = Some x → m_name x ≠ name.
Proof.
  unfold findChild. pose proof (findRow_spec (rows myParent) name) as Hs.
  destruct (findRow (rows myParent) name) as [ii|] eqn:Hf.
  - destruct Hs as (ch & Hch & Hname & Hfirst). split.
    + split; [done|]. intros Hno. exfalso. apply Hno.
      apply list_elem_of_fmap. exists ch. split; [done|].
      by eapply list_elem_of_lookup_2.
    + intros jj. split.
      * intros [= <-]. eauto.
      * intros (ch' & Hch' & Hname' & Hfirst'). f_equal.
        destruct (Nat.lt_trichotomy ii jj) as [Hlt|[->|Hgt]]; [|done|].
        -- by destruct (Hfirst' ii ch Hlt Hch).
        -- by destruct (Hfirst jj ch' Hgt Hch').
  - split.
    + split; [|done]. intros _ Hin.
      apply list_elem_of_fmap in Hin as (x & -> & Hx). by apply (Hs x Hx).
    + intros ii. split; [done|]. intros (ch & Hch & Hname & _).
      exfalso. apply (Hs ch); [|done]. by eapply list_elem_of_lookup_2.
Qed.

(** ** inversion *)

(** ** What [add] keeps *)

Lemma addChild_inv h g c h' :
  Osg.addChild h g c = Some h' →
  Osg.isGroup h g = true ∧ length h' = length h ∧
  (∀ k, Osg.isGroup h' k = Osg.isGroup h k) ∧
  (∀ k, Osg.getNodeMask h' k = Osg.getNodeMask h k).
Proof.
  intros Hadd.
  assert (Hg : Osg.isGroup h g = true).
  { apply isGroup_true. revert Hadd. unfold Osg.addChild.
    destruct (h !! g) as [nd|]; simpl; [|done].
    destruct (Osg.children nd) as [cs|] eqn:Hcs; simpl; [|done]. eauto. }
  split; [done|].
  destruct (addChild_spec h g c Hg) as (h2 & Hadd2 & ? & ? & ?).
  rewrite Hadd in Hadd2. by injection Hadd2 as <-.
Qed.

Lemma removeChild_inv h g c h' :
  Osg.removeChild h g c = Some h' →
  Osg.isGroup h g = true ∧ length h' = length h ∧
  (∀ k, Osg.isGroup h' k = Osg.isGroup h k) ∧
  (∀ k, Osg.getNodeMask h' k = Osg.getNodeMask h k).
Proof.
  intros Hrm.
  assert (Hg : Osg.isGroup h g = true).
  { apply isGroup_true. revert Hrm. unfold Osg.removeChild.
    destruct (h !! g) as [nd|]; simpl; [|done].
    destruct (Osg.children nd) as [cs|] eqn:Hcs; simpl; [|done]. eauto. }
  split; [done|].
  destruct (removeChild_spec h g c Hg) as (h2 & Hrm2 & ? & ? & ?).
  rewrite Hrm in Hrm2. by injection Hrm2 as <-.
Qed.

Lemma createNewEntry_inv name path node cb en show disp myParent h rv p' h' :
  createNewEntry name path node cb en show disp myParent h = Some (rv, p', h') →
  ∃ m h1,
    rv = true ∧
    Osg.getNodeMask h node = Some m ∧
    (if disp then Osg.addChild h (m_node myParent) node else Some h) = Some h1 ∧
    (if show then Some h1 else Osg.setNodeMask h1 node 0%N) = Some h' ∧
    p' = appendRow (D3DisplayItem name path node m cb en
                      (if show then Checked else Unchecked) []) myParent.
Proof.
  unfold createNewEntry, newItem.
  destruct (Osg.getNodeMask h node) as [m|] eqn:Hm; simpl; [|done].
  destruct (if disp then Osg.addChild h (m_node myParent) node else Some h)
    as [h1|] eqn:Hh1; simpl; [|done].
  assert (Hm1 : Osg.getNodeMask h1 node = Some m).
  { destruct disp; [|by injection Hh1 as <-].
    apply addChild_inv in Hh1 as (_ & _ & _ & Hmask). by rewrite Hmask. }
  destruct show; simpl.
  - intros [= <- <- <-]. exists m, h1. done.
  - unfold clickedItem, clickedOwn, isChecked, setCheckState, setEnabled. simpl.
    destruct en; simpl; rewrite ?Hm1; simpl;
      (destruct (Osg.setNodeMask h1 node 0%N) as [h2|] eqn:Hs; simpl; [|done]);
      intros [= <- <- <-]; exists m, h1; done.
Qed.

Lemma replaceNode_inv ii node en disp myParent h rv p' h' :
  replaceNode ii node en disp myParent h = Some (rv, p', h') →
  ∃ entry m h1 h2,
    rv = true ∧ rows myParent !! ii = Some entry ∧
    Osg.getNodeMask h (m_node entry) = Some m ∧
    Osg.setNodeMask h node m = Some h1 ∧
    (if disp then Osg.removeChild h1 (m_node myParent) (m_node entry)
     else Some h1) = Some h2 ∧
    (if disp then Osg.addChild h2 (m_node myParent) node else Some h2) = Some h' ∧
    p' = setRows (<[ii := setEnabled en (setNode node entry)]> (rows myParent))
                 myParent.
Proof.
  unfold replaceNode.
  destruct (rows myParent !! ii) as [entry|] eqn:Hrow; simpl; [|done].
  destruct (Osg.getNodeMask h (m_node entry)) as [m|] eqn:Hm; simpl; [|done].
  destruct (Osg.setNodeMask h node m) as [h1|] eqn:Hs; simpl; [|done].
  destruct (if disp then Osg.removeChild h1 (m_node myParent) (m_node entry)
            else Some h1) as [h2|] eqn:Hh2; simpl; [|done].
  destruct (if disp then Osg.addChild h2 (m_node myParent) node else Some h2)
    as [h3|] eqn:Hh3; simpl.
  - intros [= <- <- <-]. exists entry, m, h1, h2. done.
  - done.
Qed.

(** Induction on a run of [add]. *)
Section add_induction.
Variables (path : string) (node cb : nat) (en show disp : bool).
Variable R : d3DisplayItem → Osg.Store → bool → d3DisplayItem → Osg.Store → Prop.
Hypothesis R_create : ∀ name myParent h rv p' h',
  findChild myParent name = None →
  createNewEntry name path node cb en show disp myParent h = Some (rv, p', h') →
  R myParent h rv p' h'.
Hypothesis R_replace : ∀ name ii myParent h rv p' h',
  findChild myParent name = Some ii →
  replaceNode ii node en disp myParent h = Some (rv, p', h') →
  R myParent h rv p' h'.
Hypothesis R_reject : ∀ name myParent h ii entry,
  findChild myParent name = Some ii → rows myParent !! ii = Some entry →
  Osg.isGroup h (m_node entry) = false →
  R myParent h false myParent h.
Hypothesis R_descend : ∀ name myParent h ii entry rv entry' h',
  findChild myParent name = Some ii → rows myParent !! ii = Some entry →
  Osg.isGroup h (m_node entry) = true →
  R entry h rv entry' h' →
  R myParent h rv (setRows (<[ii := entry']> (rows myParent)) myParent) h'.
Hypothesis R_new : ∀ name myParent h h1 rv entry' h',
  findChild myParent name = None →
  Osg.addChild (Osg.newGroup h).2 (m_node myParent) (length h) = Some h1 →
  R (D3DisplayItem name path (length h) Osg.defaultMask cb true Checked [])
    h1 rv entry' h' →
  R myParent h rv (setRows (rows myParent ++ [entry']) myParent) h'.

Lemma add_run fuel : ∀ name myParent h rv p' h',
  add fuel name path node cb en show disp myParent h = Some (rv, p', h') →
  R myParent h rv p' h'.
Proof.
  induction fuel as [|fuel IH]; intros name myParent h rv p' h'; [done|].
  cbn [add]. destruct (String.index 0 "::" name) as [nameSplit|].
  - set (pre := String.substring 0 nameSplit name).
    set (post := String.substring (nameSplit + 2) (String.length name) name).
    unfold addParent.
    destruct (findChild myParent pre) as [ii|] eqn:Hfind.
    + simpl. destruct (rows myParent !! ii) as [entry|] eqn:Hrow; simpl; [|done].
      destruct (Osg.isGroup h (m_node entry)) eqn:Hg.
      * destruct (add fuel post path node cb en show disp entry h)
          as [[[rv1 entry'] h1]|] eqn:Hrest; simpl; [|done].
        intros [= <- <- <-]. eapply R_descend; eauto.
      * intros [= <- <- <-]. eapply R_reject; eauto.
    + destruct (newGroup_spec h) as (HgN & HmN & HlenN & HgO & HmO).
      destruct (Osg.newGroup h) as [g h0] eqn:EN.
      assert (g = length h) as -> by (by injection EN).
      simpl in HgN, HmN, HlenN, HgO, HmO. unfold newItem. rewrite HmN. simpl.
      destruct (Osg.addChild h0 (m_node myParent) (length h)) as [h1|] eqn:Hadd;
        simpl; [|done].
      destruct (addChild_inv _ _ _ _ Hadd) as (_ & _ & Hg1 & _).
      destruct myParent as [name' path' node' prior' func' en' cs' rs'].
      cbn [rows appendRow setRows m_name m_path m_node m_priorNodeMask m_func
           isEnabled checkState].
      rewrite (lookup_app_r rs') by lia. rewrite Nat.sub_diag. simpl.
      rewrite Hg1, HgN.
      destruct (add fuel post path node cb en show disp _ h1)
        as [[[rv1 entry'] h2]|] eqn:Hrest; simpl; [|done].
      intros [= <- <- <-].
      rewrite (insert_app_r_alt rs') by lia. rewrite Nat.sub_diag. simpl.
      apply (R_new pre (D3DisplayItem name' path' node' prior' func' en' cs' rs')
                   h h1 rv1 entry' h2); [done| |by apply IH in Hrest].
      by rewrite EN.
  - destruct (findChild myParent name) as [ii|] eqn:Hfind.
    + intros Hrep. eapply R_replace; eauto.
    + intros Hnew. eapply R_create; eauto.
Qed.
End add_induction.

Lemma uniqueNames_eq item :
  uniqueNames item = true ↔
  NoDup (m_name <$> rows item) ∧ Forall (λ x, uniqueNames x = true) (rows item).
Proof.
  destruct item as [name path node prior func en cs rs].
  cbn [uniqueNames rows]. rewrite andb_true_iff, bool_decide_eq_true.
  rewrite forallb_forall, Forall_forall.
  split; intros [? Hall]; (split; [done|]); intros x Hx; apply Hall;
    by apply list_elem_of_In.
Qed.

Lemma names_insert (rs : list d3DisplayItem) (ii : nat) (e e' : d3DisplayItem) :
  rs !! ii = Some e → m_name e' = m_name e →
  m_name <$> <[ii := e']> rs = m_name <$> rs.
Proof.
  intros Hrow Hname. rewrite list_fmap_insert, Hname.
  apply list_insert_id. by rewrite list_lookup_fmap, Hrow.
Qed.

Lemma add_unique path node cb en show disp fuel name myParent h rv p' h' :
  add fuel name path node cb en show disp myParent h = Some (rv, p', h') →
  m_name p' = m_name myParent ∧
  (uniqueNames myParent = true → uniqueNames p' = true).
Proof.
  revert name myParent h rv p' h'.
  apply (add_run path node cb en show disp
    (λ p h rv p' h', m_name p' = m_name p ∧
                     (uniqueNames p = true → uniqueNames p' = true))).
  - intros name p h rv p' h' Hfind Hnew.
    apply createNewEntry_inv in Hnew as (m & h1 & _ & _ & _ & _ & ->).
    split; [done|]. rewrite !uniqueNames_eq. intros [Hnd Hall].
    cbn [appendRow setRows rows]. rewrite fmap_app. simpl. split.
    + apply NoDup_app. split; [done|]. split; [|apply NoDup_singleton].
      intros x Hx Hx'. apply list_elem_of_singleton in Hx' as ->.
      by apply (findChild_None _ _ Hfind).
    + apply Forall_app. split; [done|]. by constructor.
  - intros name ii p h rv p' h' Hfind Hrep.
    apply replaceNode_inv in Hrep as (entry & m & h1 & h2 & _ & Hrow & _ & _ & _ & _ & ->).
    split; [done|]. rewrite !uniqueNames_eq. intros [Hnd Hall].
    cbn [setRows rows]. rewrite (names_insert _ _ entry) by done.
    split; [done|]. apply Forall_insert; [done|].
    rewrite Forall_forall in Hall.
    pose proof (Hall entry (list_elem_of_lookup_2 _ _ _ Hrow)) as He.
    by destruct entry.
  - done.
  - intros name p h ii entry rv entry' h' Hfind Hrow Hg [Hname Huniq].
    split; [done|]. rewrite !uniqueNames_eq. intros [Hnd Hall].
    cbn [setRows rows]. rewrite (names_insert _ _ entry) by done.
    split; [done|]. apply Forall_insert; [done|]. apply Huniq.
    rewrite Forall_forall in Hall.
    apply (Hall entry (list_elem_of_lookup_2 _ _ _ Hrow)).
  - intros name p h h1 rv entry' h' Hfind Hadd [Hname Huniq].
    split; [done|]. rewrite !uniqueNames_eq. intros [Hnd Hall].
    cbn [setRows rows]. rewrite fmap_app. simpl. split.
    + apply NoDup_app. split; [done|]. split; [|apply NoDup_singleton].
      intros x Hx Hx'. apply list_elem_of_singleton in Hx' as ->.
      rewrite Hname in Hx. simpl in Hx. by apply (findChild_None _ _ Hfind).
    + apply Forall_app. split; [done|]. constructor; [|done]. by apply Huniq.
Qed.

Lemma TreeView_add_inv name node show disp cb tv rv tv' :
  TreeView_add name node show disp cb tv = Some (rv, tv') →
  (m_pOsgWidget tv = None ∧ rv = false ∧ tv' = tv) ∨
  ∃ w top top' h',
    m_pOsgWidget tv = Some w ∧ m_pModel tv !! 0 = Some top ∧
    add (S (String.length name)) name name node cb true show disp top (nodes tv)
      = Some (rv, top', h') ∧
    tv' = mkTreeView (Some w) (<[0 := top']> (m_pModel tv)) h'.
Proof.
  unfold TreeView_add.
  destruct (m_pOsgWidget tv) as [w|] eqn:Hw; [|intros [= <- <-]; by left].
  destruct (m_pModel tv !! 0) as [top|] eqn:Htop; cbn -[add]; [|done].
  destruct (add (S (String.length name)) name name node cb true show disp top (nodes tv))
    as [[[rv1 top'] h']|] eqn:Hadd; cbn -[add]; [|done].
  intros [= <- <-]. right. exists w, top, top', h'. done.
Qed.

(** X5.  [add] keeps the names of siblings distinct: where no two rows of
    one item have the same name, at every level of the model, the same holds
    after the call. *)
Theorem TreeView_add_keeps_names_unique name node show disp cb tv rv tv' :
  Forall (λ x, uniqueNames x = true) (m_pModel tv) →
  TreeView_add name node show disp cb tv = Some (rv, tv') →
  Forall (λ x, uniqueNames x = true) (m_pModel tv').
Proof.
  intros Hall Hadd.
  apply TreeView_add_inv in Hadd
    as [(_ & _ & ->)|(w & top & top' & h' & Hw & Htop & Hadd & ->)]; [done|].
  simpl. apply Forall_insert; [done|].
  apply add_unique in Hadd as [_ Huniq]. apply Huniq.
  rewrite Forall_forall in Hall.
  apply (Hall top (list_elem_of_lookup_2 _ _ _ Htop)).
Qed.

Lemma kept_refl x : kept x x.
Proof. by unfold kept. Qed.

Lemma keeps_refl rs : keeps rs rs.
Proof. intros q x Hx. exists x. split; [done|apply kept_refl]. Qed.

Lemma keeps_app rs rs' e : keeps rs rs' → keeps rs (rs' ++ [e]).
Proof.
  intros Hk [|ii q] x; [done|]. intros Hx.
  destruct (Hk (ii :: q) x Hx) as (x' & Hx' & Hkept).
  exists x'. split; [|done]. revert Hx'. simpl.
  destruct (rs' !! ii) as [y|] eqn:Hy; simpl; [|done].
  by rewrite (lookup_app_l_Some _ _ _ _ Hy).
Qed.

Lemma keeps_insert rs ii e e' :
  rs !! ii = Some e → kept e e' → keeps (rows e) (rows e') →
  keeps rs (<[ii := e']> rs).
Proof.
  intros Hrow Hkept Hrows [|jj q] x; [done|].
  pose proof (lookup_lt_Some _ _ _ Hrow) as Hlt.
  destruct (decide (jj = ii)) as [->|Hne].
  - simpl. rewrite Hrow, list_lookup_insert_eq by done. simpl.
    destruct q as [|kk q].
    + intros [= <-]. eauto.
    + intros Hx. by apply Hrows.
  - simpl. rewrite list_lookup_insert_ne by done.
    destruct (rs !! jj) as [y|]; simpl; [|done].
    intros Hx. exists x. split; [done|apply kept_refl].
Qed.

Lemma add_keeps path node cb en show disp fuel name myParent h rv p' h' :
  add fuel name path node cb en show disp myParent h = Some (rv, p', h') →
  (kept myParent p' ∧ m_node p' = m_node myParent ∧
   isEnabled p' = isEnabled myParent) ∧
  keeps (rows myParent) (rows p') ∧
  (rows myParent = [] → rv = true) ∧
  (rv = false →
   p' = myParent ∧ h' = h ∧
   ∃ q entry, itemFromIndex (rows myParent) q = Some entry ∧
              Osg.isGroup h (m_node entry) = false).
Proof.
  revert name myParent h rv p' h'.
  apply (add_run path node cb en show disp
    (λ p h rv p' h',
       (kept p p' ∧ m_node p' = m_node p ∧ isEnabled p' = isEnabled p) ∧
       keeps (rows p) (rows p') ∧
       (rows p = [] → rv = true) ∧
       (rv = false →
        p' = p ∧ h' = h ∧
        ∃ q entry, itemFromIndex (rows p) q = Some entry ∧
                   Osg.isGroup h (m_node entry) = false))).
  - intros name p h rv p' h' Hfind Hnew.
    apply createNewEntry_inv in Hnew as (m & h1 & -> & _ & _ & _ & ->).
    split; [done|]. split; [apply keeps_app, keeps_refl|]. done.
  - intros name ii p h rv p' h' Hfind Hrep.
    apply replaceNode_inv in Hrep as (entry & m & h1 & h2 & -> & Hrow & _ & _ & _ & _ & ->).
    split; [done|]. split; [|done].
    apply (keeps_insert _ _ entry); [done|done|apply keeps_refl].
  - intros name p h ii entry Hfind Hrow Hg.
    split; [done|]. split; [apply keeps_refl|]. split.
    { intros Hnil. by rewrite Hnil in Hrow. }
    intros _. split; [done|]. split; [done|]. exists [ii], entry.
    by rewrite itemFromIndex_row.
  - intros name p h ii entry rv entry' h' Hfind Hrow Hg
      ((Hkept & Hnode & Hen) & Hkeeps & _ & Hrej).
    split; [done|]. split; [by apply (keeps_insert _ _ entry)|].
    split. { intros Hnil. by rewrite Hnil in Hrow. }
    intros Hrv. destruct (Hrej Hrv) as (-> & -> & q & x & Hx & Hgx).
    split. { rewrite list_insert_id by done. by destruct p. }
    split; [done|]. exists (ii :: q), x. split; [|done].
    rewrite (itemFromIndex_cons _ _ _ entry); [done|done|].
    intros ->. done.
  - intros name p h h1 rv entry' h' Hfind Hadd (_ & _ & Htrue & _).
    split; [done|]. split; [apply keeps_app, keeps_refl|].
    rewrite (Htrue eq_refl). done.
Qed.

(** X4.  [add] removes and renames no item: every index that denoted an
    item before the call denotes an item after it, with the same name, path,
    click callback, check state and remembered mask; the model keeps its
    number of top-level rows. *)
Theorem TreeView_add_keeps_items name node show disp cb tv rv tv' :
  TreeView_add name node show disp cb tv = Some (rv, tv') →
  length (m_pModel tv') = length (m_pModel tv) ∧
  ∀ q x, itemFromIndex (m_pModel tv) q = Some x →
    ∃ x', itemFromIndex (m_pModel tv') q = Some x' ∧
          m_name x' = m_name x ∧ m_path x' = m_path x ∧ m_func x' = m_func x ∧
          checkState x' = checkState x ∧
          m_priorNodeMask x' = m_priorNodeMask x.
Proof.
  intros Hadd.
  apply TreeView_add_inv in Hadd
    as [(_ & _ & ->)|(w & top & top' & h' & Hw & Htop & Hadd & ->)].
  - split; [done|]. intros q x Hx. exists x. done.
  - simpl. split; [by rewrite length_insert|].
    apply add_keeps in Hadd as ((Hkept & _) & Hkeeps & _).
    exact (keeps_insert _ _ _ _ Htop Hkept Hkeeps).
Qed.

(** X3.  An [add] that returns false has changed nothing, neither the items
    nor the store.  It returns false only where no surface is set (line 132)
    or where an item that was there before the call, below the top-level
    item, holds a node that is not a group (lines 423-427). *)
Theorem TreeView_add_rejected name node show disp cb tv tv' :
  TreeView_add name node show disp cb tv = Some (false, tv') →
  tv' = tv ∧
  (m_pOsgWidget tv = None ∨
   ∃ q entry, q ≠ [] ∧ itemFromIndex (m_pModel tv) (0 :: q) = Some entry ∧
              Osg.isGroup (nodes tv) (m_node entry) = false).
Proof.
  intros Hadd.
  apply TreeView_add_inv in Hadd
    as [(Hw & _ & ->)|(w & top & top' & h' & Hw & Htop & Hadd & ->)]; [by auto|].
  apply add_keeps in Hadd as (_ & _ & _ & Hrej).
  destruct (Hrej eq_refl) as (-> & -> & q & entry & Hentry & Hg). split.
  - rewrite list_insert_id by done. destruct tv; simpl in *. by rewrite Hw.
  - right. exists q, entry.
    assert (Hq : q ≠ []) by (intros ->; done).
    split; [done|]. split; [|done].
    by rewrite (itemFromIndex_cons _ _ _ top).
Qed.

(** ** [add] returns *)

Lemma subtreeNodes_live (P : nat → Prop) item :
  Forall P (subtreeNodes item) ↔
  P (m_node item) ∧ Forall (λ x, Forall P (subtreeNodes x)) (rows item).
Proof.
  destruct item as [name path node prior func en cs rs].
  cbn [subtreeNodes m_node rows]. by rewrite Forall_cons, Forall_flat_map.
Qed.

Lemma live_mono (n m : nat) l :
  n ≤ m → Forall (λ k, k < n) l → Forall (λ k, k < m) l.
Proof.
  intros Hnm Hl. eapply Forall_impl; [exact Hl|]. intros k Hk. simpl in *. lia.
Qed.

Lemma live_rows_mono (n m : nat) (rs : list d3DisplayItem) :
  n ≤ m → Forall (λ x, Forall (λ k, k < n) (subtreeNodes x)) rs →
  Forall (λ x, Forall (λ k, k < m) (subtreeNodes x)) rs.
Proof.
  intros Hnm Hl. eapply Forall_impl; [exact Hl|]. intros x. by apply live_mono.
Qed.

Lemma setNodeMask_inv h n m h' :
  Osg.setNodeMask h n m = Some h' →
  length h' = length h ∧ (∀ k, Osg.isGroup h' k = Osg.isGroup h k).
Proof.
  intros Hs. split; [by destruct (setNodeMask_length _ _ _ _ Hs)|].
  intros k. by eapply setNodeMask_groups.
Qed.

Lemma add_store path node cb en show disp fuel name myParent h rv p' h' :
  add fuel name path node cb en show disp myParent h = Some (rv, p', h') →
  length h ≤ length h' ∧
  (∀ k, Osg.isGroup h k = true → Osg.isGroup h' k = true) ∧
  (node < length h →
   Forall (λ n, n < length h) (subtreeNodes myParent) →
   Forall (λ n, n < length h') (subtreeNodes p')).
Proof.
  revert name myParent h rv p' h'.
  apply (add_run path node cb en show disp
    (λ p h rv p' h',
       length h ≤ length h' ∧
       (∀ k, Osg.isGroup h k = true → Osg.isGroup h' k = true) ∧
       (node < length h →
        Forall (λ n, n < length h) (subtreeNodes p) →
        Forall (λ n, n < length h') (subtreeNodes p')))).
  - intros name p h rv p' h' Hfind Hnew.
    apply createNewEntry_inv in Hnew as (m & h1 & _ & _ & Hh1 & Hh' & ->).
    assert (H1 : length h1 = length h ∧ ∀ k, Osg.isGroup h1 k = Osg.isGroup h k).
    { destruct disp; [|by injection Hh1 as <-].
      by apply addChild_inv in Hh1 as (_ & ? & ? & _). }
    assert (H2 : length h' = length h1 ∧ ∀ k, Osg.isGroup h' k = Osg.isGroup h1 k).
    { destruct show; [by injection Hh' as <-|]. by apply setNodeMask_inv in Hh'. }
    destruct H1 as [Hl1 Hg1], H2 as [Hl2 Hg2].
    split; [lia|]. split. { intros k. by rewrite Hg2, Hg1. }
    intros Hn. rewrite !subtreeNodes_live. cbn [appendRow setRows m_node rows].
    rewrite Hl2, Hl1. intros [Hp Hrs]. split; [done|].
    apply Forall_app. split; [done|]. constructor; [|done]. simpl. by constructor.
  - intros name ii p h rv p' h' Hfind Hrep.
    apply replaceNode_inv in Hrep
      as (entry & m & h1 & h2 & _ & Hrow & _ & Hh1 & Hh2 & Hh' & ->).
    apply setNodeMask_inv in Hh1 as [Hl1 Hg1].
    assert (H2 : length h2 = length h1 ∧ ∀ k, Osg.isGroup h2 k = Osg.isGroup h1 k).
    { destruct disp; [|by injection Hh2 as <-].
      by apply removeChild_inv in Hh2 as (_ & ? & ? & _). }
    assert (H3 : length h' = length h2 ∧ ∀ k, Osg.isGroup h' k = Osg.isGroup h2 k).
    { destruct disp; [|by injection Hh' as <-].
      by apply addChild_inv in Hh' as (_ & ? & ? & _). }
    destruct H2 as [Hl2 Hg2], H3 as [Hl3 Hg3].
    split; [lia|]. split. { intros k. by rewrite Hg3, Hg2, Hg1. }
    intros Hn. rewrite !subtreeNodes_live. cbn [setRows m_node rows].
    rewrite Hl3, Hl2, Hl1. intros [Hp Hrs]. split; [done|].
    apply Forall_insert; [done|].
    rewrite Forall_forall in Hrs.
    pose proof (Hrs entry (list_elem_of_lookup_2 _ _ _ Hrow)) as He.
    rewrite subtreeNodes_live in He |- *. destruct He as [_ He].
    destruct entry; simpl in *. done.
  - intros name p h ii entry Hfind Hrow Hg. done.
  - intros name p h ii entry rv entry' h' Hfind Hrow Hg (Hlen & Hgs & Hlive).
    split; [done|]. split; [done|].
    intros Hn. rewrite !subtreeNodes_live. cbn [setRows m_node rows].
    intros [Hp Hrs]. split; [lia|].
    apply Forall_insert; [by eapply live_rows_mono|].
    apply Hlive; [done|]. rewrite Forall_forall in Hrs.
    apply (Hrs entry (list_elem_of_lookup_2 _ _ _ Hrow)).
  - intros name p h h1 rv entry' h' Hfind Hadd (Hlen & Hgs & Hlive).
    destruct (newGroup_spec h) as (HgN & HmN & HlenN & HgO & HmO).
    apply addChild_inv in Hadd as (_ & Hl1 & Hg1 & _).
    split; [lia|]. split.
    { intros k Hk. apply Hgs. rewrite Hg1, HgO; [done|]. by eapply isGroup_lt. }
    intros Hn. rewrite !subtreeNodes_live. cbn [setRows m_node rows].
    intros [Hp Hrs]. split; [lia|].
    apply Forall_app. split; [eapply live_rows_mono; [|done]; lia|].
    constructor; [|done]. apply Hlive; [lia|].
    simpl. constructor; [lia|done].
Qed.

Lemma substring_length n m s :
  String.length (String.substring n m s) ≤ String.length s - n.
Proof.
  revert n m. induction s as [|c s IH]; intros [|n] [|m]; simpl; try lia.
  - specialize (IH 0 m). lia.
  - apply IH.
  - apply IH.
Qed.

Lemma index_post_shorter name nameSplit :
  String.index 0 "::" name = Some nameSplit →
  String.length (String.substring (nameSplit + 2) (String.length name) name)
    < String.length name.
Proof.
  intros Hidx. apply String.index_correct1 in Hidx.
  pose proof (substring_length nameSplit 2 name) as Hle.
  simpl in Hidx. rewrite Hidx in Hle. simpl in Hle.
  pose proof (substring_length (nameSplit + 2) (String.length name) name). lia.
Qed.

Lemma add_total path node cb en show disp fuel : ∀ name myParent h,
  String.length name < fuel →
  Osg.isGroup h (m_node myParent) = true →
  Forall (λ n, n < length h) (subtreeNodes myParent) → node < length h →
  is_Some (add fuel name path node cb en show disp myParent h).
Proof.
  induction fuel as [|fuel IH]; intros name myParent h Hfuel Hg Hlive Hn; [lia|].
  cbn [add]. destruct (String.index 0 "::" name) as [nameSplit|] eqn:Hidx.
  - pose proof (index_post_shorter _ _ Hidx) as Hshort.
    set (pre := String.substring 0 nameSplit name) in *.
    set (post := String.substring (nameSplit + 2) (String.length name) name) in *.
    destruct (findChild myParent pre) as [ii|] eqn:Hfind.
    + destruct (findChild_Some _ _ _ Hfind) as (entry & Hrow & _).
      rewrite (addParent_found _ _ _ _ _ _ _ ii entry) by done.
      destruct (Osg.isGroup h (m_node entry)) eqn:Hge; [|eauto].
      destruct (IH post entry h) as [[[rv entry'] h'] ->]; [lia|done| |done|].
      * rewrite subtreeNodes_live in Hlive. destruct Hlive as [_ Hrs].
        rewrite Forall_forall in Hrs.
        apply (Hrs entry (list_elem_of_lookup_2 _ _ _ Hrow)).
      * simpl. eauto.
    + destruct (addParent_new (λ childName entry h0,
                   add fuel childName path node cb en show disp entry h0)
                 pre post path cb myParent h Hfind Hg)
        as (h1 & Hl1 & Hg1 & _ & _ & ->).
      destruct (IH post (D3DisplayItem pre path (length h) Osg.defaultMask cb
                                       true Checked []) h1)
        as [[[rv entry'] h'] ->]; [lia|done| |lia|].
      * simpl. constructor; [lia|done].
      * simpl. eauto.
  - destruct (findChild myParent name) as [ii|] eqn:Hfind.
    + destruct (findChild_Some _ _ _ Hfind) as (entry & Hrow & _).
      destruct (replaceNode_spec ii node en disp myParent h entry)
        as (h' & -> & _); [done| |done|done|eauto].
      rewrite subtreeNodes_live in Hlive. destruct Hlive as [_ Hrs].
      rewrite Forall_forall in Hrs.
      pose proof (Hrs entry (list_elem_of_lookup_2 _ _ _ Hrow)) as He.
      rewrite subtreeNodes_live in He. by destruct He.
    + destruct (createNewEntry_spec name path node cb en show disp myParent h)
        as (entry & h' & -> & _); [done|done|eauto].
Qed.

(** X2.  Where the surface is set, the node of the top-level item is a
    group, and the added node and the nodes of all items are in the store,
    the public [add] returns, whatever the name and the flags: the recursion
    over the path ends and no pointer it follows is null.  The same
    conditions hold of the tree view it leaves, so that a further [add]
    returns as well; the store only grows. *)
Theorem TreeView_add_returns name node show disp cb tv w top :
  m_pOsgWidget tv = Some w → m_pModel tv !! 0 = Some top →
  Osg.isGroup (nodes tv) (m_node top) = true →
  Forall (λ n, n < length (nodes tv)) (subtreeNodes top) →
  node < length (nodes tv) →
  ∃ rv tv' top',
    TreeView_add name node show disp cb tv = Some (rv, tv') ∧
    m_pOsgWidget tv' = Some w ∧ m_pModel tv' !! 0 = Some top' ∧
    Osg.isGroup (nodes tv') (m_node top') = true ∧
    Forall (λ n, n < length (nodes tv')) (subtreeNodes top') ∧
    length (nodes tv) ≤ length (nodes tv').
Proof.
  intros Hw Htop Hg Hlive Hn.
  destruct (add_total name node cb true show disp (S (String.length name))
              name top (nodes tv)) as [[[rv top'] h'] Hadd]; [lia|done|done|done|].
  pose proof (add_store _ _ _ _ _ _ _ _ _ _ _ _ _ Hadd) as (Hlen & Hgs & Hlive').
  pose proof (add_keeps _ _ _ _ _ _ _ _ _ _ _ _ _ Hadd) as ((_ & Hnode & _) & _).
  exists rv, (mkTreeView (Some w) (<[0 := top']> (m_pModel tv)) h'), top'.
  split. { unfold TreeView_add. rewrite Hw, Htop. cbn -[add]. rewrite Hadd. done. }
  split; [done|]. simpl.
  split. { apply list_lookup_insert_eq. by eapply lookup_lt_Some. }
  split. { rewrite Hnode. by apply Hgs. }
  split; [by apply Hlive'|done].
Qed.

(** ** What [clicked] keeps *)

Lemma atIndex_None f rs index h :
  itemFromIndex rs index = None → atIndex f rs index h = None.
Proof.
  revert rs. induction index as [|ii p IH]; intros rs; [done|].
  simpl. destruct (rs !! ii) as [x|]; simpl; [|done].
  destruct p as [|jj p]; [done|].
  intros Hp. by rewrite (IH _ Hp).
Qed.

Lemma itemFromIndex_live (P : nat → Prop) rs index item :
  Forall (λ x, Forall P (subtreeNodes x)) rs →
  itemFromIndex rs index = Some item → Forall P (subtreeNodes item).
Proof.
  revert rs. induction index as [|ii p IH]; intros rs Hrs; [done|].
  simpl. destruct (rs !! ii) as [x|] eqn:Hx; simpl; [|done].
  rewrite Forall_forall in Hrs.
  pose proof (Hrs x (list_elem_of_lookup_2 _ _ _ Hx)) as Hlive.
  destruct p as [|jj p]; [by intros [= <-]|].
  apply IH. rewrite subtreeNodes_live in Hlive. by destruct Hlive.
Qed.

(** X9.  With a surface set and the nodes of all items in the store, the
    slot [clicked] throws exactly when the index denotes no item of the
    model. *)
Theorem clicked_throws_iff index tv w :
  m_pOsgWidget tv = Some w →
  Forall (λ x, Forall (λ n, n < length (nodes tv)) (subtreeNodes x)) (m_pModel tv) →
  (clicked index tv = None ↔ itemFromIndex (m_pModel tv) index = None).
Proof.
  intros Hw Hlive. unfold clicked. rewrite Hw.
  destruct (itemFromIndex (m_pModel tv) index) as [item|] eqn:Hit.
  - pose proof (itemFromIndex_live _ _ _ _ Hlive Hit) as Hitem.
    destruct (clickedItem_total _ _ Hitem) as [[item' h'] Hcl].
    destruct (atIndex_Some _ _ _ _ _ _ _ Hit Hcl) as (rs' & -> & _). simpl.
    split; done.
  - rewrite (atIndex_None _ _ _ _ Hit). simpl. split; done.
Qed.

Lemma atIndex_inv f rs index h rs' h' :
  atIndex f rs index h = Some (rs', h') →
  ∃ item item',
    itemFromIndex rs index = Some item ∧ f item h = Some (item', h') ∧
    itemFromIndex rs' index = Some item' ∧
    (frame item' = frame item → map frame rs' = map frame rs).
Proof.
  revert rs rs'. induction index as [|ii p IH]; intros rs rs'; [done|].
  simpl. destruct (rs !! ii) as [x|] eqn:Hx; simpl; [|done].
  assert (Hlt : ii < length rs) by by eapply lookup_lt_Some.
  assert (Hins : ∀ y, frame y = frame x →
                      map frame (<[ii := y]> rs) = map frame rs).
  { intros y Hy. change (frame <$> <[ii := y]> rs = frame <$> rs).
    rewrite list_fmap_insert, Hy. apply list_insert_id.
    by rewrite list_lookup_fmap, Hx. }
  destruct p as [|jj p].
  - destruct (f x h) as [[x' hx]|] eqn:Hf; simpl; [|done].
    intros [= <- <-]. exists x, x'.
    rewrite list_lookup_insert_eq by done. auto.
  - destruct (atIndex f (rows x) (jj :: p) h) as [[rs1 h1]|] eqn:Hat;
      simpl; [|done].
    intros [= <- <-].
    destruct (IH _ _ Hat) as (item & item' & Hit & Hf & Hit' & Hfr).
    exists item, item'. rewrite list_lookup_insert_eq by done. simpl.
    split; [done|]. split; [done|]. split; [done|].
    intros Hsame. apply Hins. specialize (Hfr Hsame).
    destruct x; simpl in *. by rewrite Hfr.
Qed.

Lemma clickedItem_frame item h item' h' :
  clickedItem item h = Some (item', h') →
  frame item' = frame item ∧ length h' = length h ∧
  (∀ k, Osg.children <$> h' !! k = Osg.children <$> h !! k) ∧
  (∀ n, n ∉ m_node item :: flat_map visited (rows item) → h' !! n = h !! n).
Proof.
  intros Hcl.
  destruct (clickedItem_inv _ _ _ _ Hcl) as (item1 & h1 & rs & Hown & Hrs & ->).
  destruct (clickedOwn_inv _ _ _ _ Hown) as (m & _ & -> & Hs).
  destruct (updateRows_frame _ _ _ _ _ Hrs) as (Hf & _ & Hlen & Hch).
  destruct (setNodeMask_length _ _ _ _ Hs) as [Hlen1 _].
  split. { destruct item; simpl in *. by rewrite Hf. }
  split; [congruence|].
  split. { intros k. by rewrite Hch, (children_set _ _ _ _ k Hs). }
  intros n Hn. apply not_elem_of_cons in Hn as [Hne Hn].
  rewrite (updateRows_other _ _ _ _ _ Hrs _ Hn).
  by rewrite (lookup_set_ne _ _ _ _ _ Hs Hne).
Qed.

(** X10.  [clicked] changes nothing but masks, enabled flags and remembered
    masks: the surface, the names, paths, nodes, callbacks and check states
    of all items and the shape of the tree stay; the store keeps its length
    and every node its children; and a node that is neither the node of the
    clicked item nor visited by the propagation into its rows keeps its
    mask. *)
Theorem clicked_keeps_structure index tv tv' :
  clicked index tv = Some tv' →
  m_pOsgWidget tv' = m_pOsgWidget tv ∧
  map frame (m_pModel tv') = map frame (m_pModel tv) ∧
  length (nodes tv') = length (nodes tv) ∧
  (∀ k, Osg.children <$> nodes tv' !! k = Osg.children <$> nodes tv !! k) ∧
  (∀ item n, itemFromIndex (m_pModel tv) index = Some item →
     n ∉ m_node item :: flat_map visited (rows item) →
     nodes tv' !! n = nodes tv !! n).
Proof.
  unfold clicked. destruct (m_pOsgWidget tv) as [w|] eqn:Hw.
  - destruct (atIndex clickedItem (m_pModel tv) index (nodes tv))
      as [[rs h]|] eqn:Hat; simpl; [|done].
    intros [= <-]. simpl.
    destruct (atIndex_inv _ _ _ _ _ _ Hat) as (item & item' & Hit & Hcl & _ & Hfr).
    destruct (clickedItem_frame _ _ _ _ Hcl) as (Hf & Hlen & Hch & Hother).
    split; [done|]. split; [by apply Hfr|]. split; [done|]. split; [done|].
    intros item0 n Hit0. rewrite Hit in Hit0. injection Hit0 as <-. apply Hother.
  - intros [= <-]. split; [done|]. split; [done|]. split; [done|]. done.
Qed.

Lemma atIndex_id f rs index h item :
  itemFromIndex rs index = Some item → f item h = Some (item, h) →
  atIndex f rs index h = Some (rs, h).
Proof.
  revert rs. induction index as [|ii p IH]; intros rs; [done|].
  simpl. destruct (rs !! ii) as [x|] eqn:Hx; simpl; [|done].
  destruct p as [|jj p].
  - intros [= ->] Hf. rewrite Hf. simpl. by rewrite list_insert_id.
  - intros Hp Hf. rewrite (IH _ Hp Hf). simpl.
    assert (setRows (rows x) x = x) as -> by by destruct x.
    by rewrite list_insert_id.
Qed.

Lemma clicked_toggle index tv item :
  itemFromIndex (m_pModel tv) index = Some item →
  toggle (checkState item) index tv = clicked index tv.
Proof.
  intros Hit. unfold toggle.
  rewrite (atIndex_id _ _ _ _ item Hit); [|by destruct item].
  simpl. by destruct tv.
Qed.

(** X12.  The slot run on an item that is enabled and not checked stores
    the current mask of its node as the remembered mask and hides the node.
    Run once more with the check state unchanged (the view emits [clicked]
    for every click on the item, also one that does not toggle the box) it
    stores the mask 0: the mask the node had is no longer remembered, and
    checking the item afterwards writes 0, so that the node stays hidden
    (unless a row visited below the item holds the same node). *)
Theorem clicked_twice_forgets_mask index tv w item :
  m_pOsgWidget tv = Some w →
  itemFromIndex (m_pModel tv) index = Some item →
  Forall (λ n, n < length (nodes tv)) (subtreeNodes item) →
  checkState item ≠ Checked → isEnabled item = true →
  ∃ m tv1 item1 tv2 item2 tv3 item3,
    Osg.getNodeMask (nodes tv) (m_node item) = Some m ∧
    clicked index tv = Some tv1 ∧
    itemFromIndex (m_pModel tv1) index = Some item1 ∧
    m_priorNodeMask item1 = m ∧
    Osg.getNodeMask (nodes tv1) (m_node item) = Some 0%N ∧
    clicked index tv1 = Some tv2 ∧
    itemFromIndex (m_pModel tv2) index = Some item2 ∧
    m_priorNodeMask item2 = 0%N ∧
    toggle Checked index tv2 = Some tv3 ∧
    itemFromIndex (m_pModel tv3) index = Some item3 ∧
    checkState item3 = Checked ∧ isEnabled item3 = true ∧
    m_priorNodeMask item3 = 0%N ∧
    (m_node item ∉ flat_map visited (rows item) →
     Osg.getNodeMask (nodes tv3) (m_node item) = Some 0%N).
Proof.
  intros Hw Hit Hlive Hc Hen.
  (* the first run of the slot *)
  destruct (toggle_spec (checkState item) _ _ _ _ Hw Hit Hlive)
    as (m & item1 & h1 & rs1 & tv1 & Hm & _ & Hitem1 & Hs1 & Hrs1 & Htg1 & Hw1
        & Hit1 & Hf1 & Hlen1).
  rewrite (clicked_toggle _ _ _ Hit) in Htg1.
  rewrite (bool_decide_eq_false_2 _ Hc), Hen in *.
  assert (Hsame : setCheckState (checkState item) item = item) by by destruct item.
  rewrite Hsame in *.
  pose proof (getNodeMask_set_eq _ _ _ _ Hs1) as Hz1.
  destruct (updateRows_hide (m_node item) _ _ _ _ Hrs1 Hz1) as [Hz1' _].
  set (it1 := setRows rs1 item1) in *.
  assert (Hfields1 : m_node it1 = m_node item ∧ checkState it1 = checkState item ∧
                     isEnabled it1 = true ∧ m_priorNodeMask it1 = m).
  { subst it1. rewrite Hitem1. by destruct item. }
  destruct Hfields1 as (Hn1 & Hc1 & He1 & Hp1).
  assert (Hlive1 : Forall (λ n, n < length (nodes tv1)) (subtreeNodes it1)).
  { by rewrite Hlen1, (frame_subtreeNodes _ _ Hf1). }
  (* the second run *)
  destruct (toggle_spec (checkState it1) _ _ _ _ Hw1 Hit1 Hlive1)
    as (m2 & item2 & h2 & rs2 & tv2 & Hm2 & _ & Hitem2 & Hs2 & Hrs2 & Htg2 & Hw2
        & Hit2 & Hf2 & Hlen2).
  rewrite (clicked_toggle _ _ _ Hit1) in Htg2.
  rewrite Hc1, Hn1, He1 in *.
  rewrite (bool_decide_eq_false_2 _ Hc) in *.
  assert (m2 = 0%N) as -> by congruence.
  assert (Hsame1 : setCheckState (checkState item) it1 = it1).
  { rewrite <- Hc1. by destruct it1. }
  rewrite Hsame1 in *.
  set (it2 := setRows rs2 item2) in *.
  assert (Hfields2 : m_node it2 = m_node item ∧ isEnabled it2 = true ∧
                     m_priorNodeMask it2 = 0%N).
  { subst it2. rewrite Hitem2. destruct it1; simpl in *. done. }
  destruct Hfields2 as (Hn2 & He2 & Hp2).
  assert (Hlive2 : Forall (λ n, n < length (nodes tv2)) (subtreeNodes it2)).
  { by rewrite Hlen2, (frame_subtreeNodes _ _ Hf2). }
  (* the check *)
  destruct (toggle_spec Checked _ _ _ _ Hw2 Hit2 Hlive2)
    as (m3 & item3 & h3 & rs3 & tv3 & Hm3 & _ & Hitem3 & Hs3 & Hrs3 & Htg3 & _
        & Hit3 & Hf3 & _).
  rewrite (bool_decide_eq_true_2 (Checked = Checked)) in * by done.
  rewrite Hn2, He2, Hp2 in *.
  exists m, tv1, it1, tv2, it2, tv3, (setRows rs3 item3).
  split; [done|]. split; [done|]. split; [done|]. split; [done|].
  split; [done|]. split; [done|]. split; [done|]. split; [done|].
  split; [done|]. split; [done|].
  split. { rewrite Hitem3. by destruct it2. }
  split. { rewrite Hitem3. destruct it2; simpl in *. done. }
  split. { rewrite Hitem3. by destruct it2. }
  intros Hfresh.
  assert (Hv : flat_map visited (rows it2) = flat_map visited (rows item)).
  { assert (Hfr : frame it2 = frame item) by congruence.
    apply frame_fields in Hfr as (_ & _ & _ & _ & _ & Hrows).
    clear -Hrows. revert Hrows. generalize (rows item). generalize (rows it2).
    induction l as [|x l IH]; intros [|y l']; simpl; try done.
    intros [= Hxy Hl]. by rewrite (frame_visited _ _ Hxy), (IH _ Hl). }
  unfold Osg.getNodeMask.
  rewrite (updateRows_other _ _ _ _ _ Hrs3 (m_node item)); [|by rewrite Hv].
  by apply (getNodeMask_set_eq _ _ _ _ Hs3).
Qed.

(** ** showing twice *)

Lemma node_eq (a b : option Osg.Node) :
  Osg.nodeMask <$> a = Osg.nodeMask <$> b →
  Osg.children <$> a = Osg.children <$> b → a = b.
Proof.
  destruct a as [[m cs]|], b as [[m' cs']|]; simpl; try done.
  by intros [= ->] [= ->].
Qed.

Lemma visited_eq item :
  visited item =
  m_node item :: (if isChecked item then flat_map visited (rows item) else []).
Proof. by destruct item. Qed.

Lemma updateOwn_show item rs' g :
  m_node item < length g →
  ∃ g', Osg.setNodeMask g (m_node item)
          (if isChecked item then m_priorNodeMask item else 0%N) = Some g' ∧
        updateOwn item true rs' g = Some (setRows rs' (setEnabled true item), g').
Proof.
  intros Hn.
  destruct (setNodeMask_Some g (m_node item)
              (if isChecked item then m_priorNodeMask item else 0%N) Hn)
    as [g' Hs].
  exists g'. split; [done|]. unfold updateOwn.
  destruct (isChecked item); simpl; rewrite Hs; done.
Qed.

Lemma updateChildren_show_again :
  ∀ item h item' h', updateChildren item true h = Some (item', h') →
  ∀ g, length g = length h →
    ∃ g', updateChildren item true g = Some (item', g') ∧
          updateChildren item' true g = Some (item', g') ∧
          ∀ n, n ∈ visited item →
               Osg.nodeMask <$> g' !! n = Osg.nodeMask <$> h' !! n.
Proof.
  apply (updateChildren_run true
    (λ item h item' h', ∀ g, length g = length h →
       ∃ g', updateChildren item true g = Some (item', g') ∧
             updateChildren item' true g = Some (item', g') ∧
             ∀ n, n ∈ visited item →
                  Osg.nodeMask <$> g' !! n = Osg.nodeMask <$> h' !! n)
    (λ l h l' h', ∀ g, length g = length h →
       ∃ g', updateRows l true g = Some (l', g') ∧
             updateRows l' true g = Some (l', g') ∧
             ∀ n, n ∈ flat_map visited l →
                  Osg.nodeMask <$> g' !! n = Osg.nodeMask <$> h' !! n)).
  - intros h g _. exists g. split; [done|]. split; [done|].
    intros n Hn. by apply elem_of_nil in Hn.
  - intros x l h x' h1 l' h2 Ex El Hx Hl g Hg.
    destruct (Hx g Hg) as (gx & Ex1 & Ex2 & Hmx).
    destruct (updateChildren_frame _ _ _ _ _ Ex) as (_ & _ & Hlen1 & _).
    destruct (updateChildren_frame _ _ _ _ _ Ex1) as (_ & _ & Hlenx & _).
    destruct (Hl gx) as (gl & El1 & El2 & Hml); [congruence|].
    exists gl. simpl. rewrite Ex1, Ex2. simpl. rewrite El1, El2. simpl.
    split; [done|]. split; [done|].
    intros n Hn. destruct (decide (n ∈ flat_map visited l)) as [Hin|Hout].
    + by apply Hml.
    + apply elem_of_app in Hn as [Hn|Hn]; [|done].
      rewrite (updateRows_other _ _ _ _ _ El1 _ Hout).
      rewrite (updateRows_other _ _ _ _ _ El _ Hout). by apply Hmx.
  - intros item h rs' h1 item' h2 Hc Hrs HRs Hown g Hg.
    destruct (HRs g Hg) as (g1 & Hrs1 & Hrs2 & Hm1).
    destruct (updateRows_frame _ _ _ _ _ Hrs) as (_ & _ & Hlen1 & _).
    destruct (updateRows_frame _ _ _ _ _ Hrs1) as (_ & _ & Hleng & _).
    apply updateOwn_inv in Hown as (m & prior' & Hitem' & Hm & Hp & Hs).
    rewrite Hc in Hp, Hs. simpl in Hp, Hs. subst prior'.
    pose proof (getNodeMask_lt _ _ _ Hm) as Hlt.
    destruct (updateOwn_show item rs' g1) as (g2 & Hs2 & Hown2); [lia|].
    rewrite Hc in Hs2.
    assert (Hitem'' : item' = setRows rs' (setEnabled true item)).
    { rewrite Hitem'. by destruct item. }
    exists g2. split; [|split].
    + rewrite updateChildren_eq, Hc, Hrs1. simpl. by rewrite Hitem''.
    + rewrite updateChildren_eq.
      assert (Hf : isChecked item' = true ∧ rows item' = rs' ∧
                   m_node item' = m_node item ∧
                   m_priorNodeMask item' = m_priorNodeMask item).
      { rewrite Hitem''. by destruct item. }
      destruct Hf as (Hc' & Hr' & Hn' & Hp').
      rewrite Hc', Hr', Hrs2. simpl.
      destruct (updateOwn_show item' rs' g1) as (g2' & Hs2' & ->); [lia|].
      rewrite Hc', Hn', Hp' in Hs2'. rewrite Hs2 in Hs2'. injection Hs2' as <-.
      do 2 f_equal. rewrite Hitem''. by destruct item.
    + intros n Hn. rewrite visited_eq, Hc in Hn.
      destruct (decide (n = m_node item)) as [->|Hne].
      * pose proof (getNodeMask_set_eq _ _ _ _ Hs) as E1.
        pose proof (getNodeMask_set_eq _ _ _ _ Hs2) as E2.
        unfold Osg.getNodeMask in E1, E2. by rewrite E1, E2.
      * apply elem_of_cons in Hn as [?|Hn]; [done|].
        rewrite (lookup_set_ne _ _ _ _ _ Hs Hne).
        rewrite (lookup_set_ne _ _ _ _ _ Hs2 Hne). by apply Hm1.
  - intros item h item' h2 Hc Hown g Hg.
    apply updateOwn_inv in Hown as (m & prior' & Hitem' & Hm & Hp & Hs).
    rewrite Hc in Hp, Hs. simpl in Hp, Hs. subst prior'.
    pose proof (getNodeMask_lt _ _ _ Hm) as Hlt.
    destruct (updateOwn_show item (rows item) g) as (g2 & Hs2 & Hown2); [lia|].
    rewrite Hc in Hs2.
    assert (Hitem'' : item' = setRows (rows item) (setEnabled true item)).
    { rewrite Hitem'. by destruct item. }
    exists g2. split; [|split].
    + rewrite updateChildren_eq, Hc. simpl. by rewrite Hitem''.
    + rewrite updateChildren_eq.
      assert (Hf : isChecked item' = false ∧ rows item' = rows item ∧
                   m_node item' = m_node item).
      { rewrite Hitem''. by destruct item. }
      destruct Hf as (Hc' & Hr' & Hn').
      rewrite Hc'. simpl.
      destruct (updateOwn_show item' (rows item') g) as (g2' & Hs2' & ->); [lia|].
      rewrite Hc', Hn' in Hs2'. rewrite Hs2 in Hs2'. injection Hs2' as <-.
      do 2 f_equal. rewrite Hitem''. by destruct item.
    + intros n Hn. rewrite visited_eq, Hc in Hn.
      apply list_elem_of_singleton in Hn as ->.
      pose proof (getNodeMask_set_eq _ _ _ _ Hs) as E1.
      pose proof (getNodeMask_set_eq _ _ _ _ Hs2) as E2.
      unfold Osg.getNodeMask in E1, E2. by rewrite E1, E2.
Qed.

Lemma updateRows_show_again l :
  ∀ h l' h', updateRows l true h = Some (l', h') →
  ∀ g, length g = length h →
    ∃ g', updateRows l true g = Some (l', g') ∧
          updateRows l' true g = Some (l', g') ∧
          ∀ n, n ∈ flat_map visited l →
               Osg.nodeMask <$> g' !! n = Osg.nodeMask <$> h' !! n.
Proof.
  induction l as [|x l IH]; intros h l' h'; simpl.
  - intros [= <- <-] g _. exists g. split; [done|]. split; [done|].
    intros n Hn. by apply elem_of_nil in Hn.
  - destruct (updateChildren x true h) as [[x' h1]|] eqn:Ex; simpl; [|done].
    destruct (updateRows l true h1) as [[l1 h2]|] eqn:El; simpl; [|done].
    intros [= <- <-] g Hg.
    destruct (updateChildren_show_again _ _ _ _ Ex g Hg) as (gx & Ex1 & Ex2 & Hmx).
    destruct (updateChildren_frame _ _ _ _ _ Ex) as (_ & _ & Hlen1 & _).
    destruct (updateChildren_frame _ _ _ _ _ Ex1) as (_ & _ & Hlenx & _).
    destruct (IH _ _ _ El gx) as (gl & El1 & El2 & Hml); [congruence|].
    exists gl. simpl. rewrite Ex1, Ex2. simpl. rewrite El1, El2. simpl.
    split; [done|]. split; [done|].
    intros n Hn. destruct (decide (n ∈ flat_map visited l)) as [Hin|Hout].
    + by apply Hml.
    + apply elem_of_app in Hn as [Hn|Hn]; [|done].
      rewrite (updateRows_other _ _ _ _ _ El1 _ Hout).
      rewrite (updateRows_other _ _ _ _ _ El _ Hout). by apply Hmx.
Qed.

Lemma clickedItem_again item h item' h' :
  isChecked item = true →
  clickedItem item h = Some (item', h') →
  clickedItem item' h' = Some (item', h').
Proof.
  intros Hc Hcl.
  destruct (clickedItem_inv _ _ _ _ Hcl) as (item1 & h1 & rs & Hown & Hrs & ->).
  destruct (clickedOwn_inv _ _ _ _ Hown) as (m & Hm & Hitem1 & Hs).
  rewrite Hc in Hitem1, Hs, Hrs. simpl in Hitem1, Hs.
  assert (item1 = item) as -> by (rewrite Hitem1; by destruct item).
  clear Hitem1.
  set (v := if isEnabled item then m_priorNodeMask item else 0%N) in *.
  destruct (setNodeMask_length _ _ _ _ Hs) as [Hlen1 Hlt].
  destruct (updateRows_frame _ _ _ _ _ Hrs) as (_ & _ & Hlen2 & Hch2).
  destruct (setNodeMask_Some h' (m_node item) v) as [g Hsg]; [lia|].
  destruct (setNodeMask_length _ _ _ _ Hsg) as [Hleng _].
  destruct (updateRows_show_again _ _ _ _ Hrs g) as (g' & Hrs1 & Hrs2 & Hmasks);
    [congruence|].
  destruct (updateRows_frame _ _ _ _ _ Hrs1) as (_ & _ & Hleng' & Hchg').
  assert (Hg' : g' = h').
  { apply list_eq. intros n. apply node_eq.
    - destruct (decide (n ∈ flat_map visited (rows item))) as [Hin|Hout];
        [by apply Hmasks|].
      rewrite (updateRows_other _ _ _ _ _ Hrs1 _ Hout).
      destruct (decide (n = m_node item)) as [->|Hne].
      + rewrite (updateRows_other _ _ _ _ _ Hrs _ Hout).
        pose proof (getNodeMask_set_eq _ _ _ _ Hs) as E1.
        pose proof (getNodeMask_set_eq _ _ _ _ Hsg) as E2.
        unfold Osg.getNodeMask in E1, E2. by rewrite E1, E2.
      + by rewrite (lookup_set_ne _ _ _ _ _ Hsg Hne).
    - by rewrite Hchg', (children_set _ _ _ _ n Hsg). }
  subst g'.
  unfold clickedItem, clickedOwn.
  assert (Hf : isChecked (setRows rs item) = true ∧
               isEnabled (setRows rs item) = isEnabled item ∧
               m_node (setRows rs item) = m_node item ∧
               m_priorNodeMask (setRows rs item) = m_priorNodeMask item ∧
               rows (setRows rs item) = rs).
  { by destruct item. }
  destruct Hf as (Hc' & He' & Hn' & Hp' & Hr').
  rewrite Hc', He', Hn', Hp'.
  assert (Hown' : (if isEnabled item
                   then h0 ← Osg.setNodeMask h' (m_node item) (m_priorNodeMask item);
                        Some (setRows rs item, h0)
                   else h0 ← Osg.setNodeMask h' (m_node item) 0%N;
                        Some (setRows rs item, h0))
                  = Some (setRows rs item, g)).
  { subst v. destruct (isEnabled item); rewrite Hsg; done. }
  rewrite Hown'. simpl. rewrite Hc', Hrs2. simpl.
  by destruct item.
Qed.

(** X11.  The slot run on a checked item leaves a state in which the slot
    run again on that item changes nothing, in the items and in the
    store. *)
Theorem clicked_checked_idempotent index tv item tv1 :
  itemFromIndex (m_pModel tv) index = Some item →
  checkState item = Checked →
  clicked index tv = Some tv1 →
  clicked index tv1 = Some tv1.
Proof.
  intros Hit Hc. unfold clicked.
  destruct (m_pOsgWidget tv) as [w|] eqn:Hw.
  - destruct (atIndex clickedItem (m_pModel tv) index (nodes tv))
      as [[rs h]|] eqn:Hat; simpl; [|done].
    intros [= <-]. simpl.
    destruct (atIndex_inv _ _ _ _ _ _ Hat) as (item0 & item' & Hit0 & Hcl & Hit' & _).
    rewrite Hit in Hit0. injection Hit0 as <-.
    assert (Hchk : isChecked item = true).
    { unfold isChecked. by apply bool_decide_eq_true_2. }
    rewrite (atIndex_id _ _ _ _ item' Hit'); [done|].
    by apply (clickedItem_again item (nodes tv)).
  - intros [= <-]. by rewrite Hw.
Qed.

(** ** Unchecking and checking again *)

Lemma settled_eq h item :
  settled h item =
  if isChecked item then forallb (settled h) (rows item)
  else bool_decide (Osg.getNodeMask h (m_node item) = Some 0%N).
Proof. by destruct item. Qed.

Lemma settled_ext h h' item :
  (∀ n, n ∈ visited item → h' !! n = h !! n) →
  settled h' item = settled h item.
Proof.
  induction item as [name path node prior func en cs rs IH]
    using d3DisplayItem_rows_ind.
  intros Hagree. rewrite !settled_eq. rewrite visited_eq in Hagree.
  cbn [m_node rows] in *. destruct (isChecked _).
  - assert (Hrs : ∀ n, n ∈ flat_map visited rs → h' !! n = h !! n).
    { intros n Hn. apply Hagree. by right. }
    clear Hagree. induction IH as [|x l Hx _ IHl]; [done|].
    simpl in *. rewrite Hx, IHl; [done| |].
    + intros n Hn. apply Hrs. apply elem_of_app. by right.
    + intros n Hn. apply Hrs. apply elem_of_app. by left.
  - unfold Osg.getNodeMask. rewrite Hagree; [done|by left].
Qed.

Lemma settled_rows_ext h h' (l : list d3DisplayItem) :
  (∀ n, n ∈ flat_map visited l → h' !! n = h !! n) →
  forallb (settled h') l = forallb (settled h) l.
Proof.
  induction l as [|x l IH]; [done|]. simpl. intros Hagree.
  rewrite (settled_ext h h' x), IH; [done| |].
  - intros n Hn. apply Hagree. apply elem_of_app. by right.
  - intros n Hn. apply Hagree. apply elem_of_app. by left.
Qed.

(** Hiding and showing again. *)
Lemma updateChildren_hide_show :
  ∀ item h item1 h1, updateChildren item false h = Some (item1, h1) →
  NoDup (visited item) → settled h item = true →
  ∀ g, length g = length h →
       (∀ k, Osg.children <$> g !! k = Osg.children <$> h !! k) →
    ∃ item2 g2, updateChildren item1 true g = Some (item2, g2) ∧
                (∀ n, n ∈ visited item → g2 !! n = h !! n) ∧
                (∀ n, n ∉ visited item → g2 !! n = g !! n).
Proof.
  apply (updateChildren_run false
    (λ item h item1 h1,
       NoDup (visited item) → settled h item = true →
       ∀ g, length g = length h →
            (∀ k, Osg.children <$> g !! k = Osg.children <$> h !! k) →
         ∃ item2 g2, updateChildren item1 true g = Some (item2, g2) ∧
                     (∀ n, n ∈ visited item → g2 !! n = h !! n) ∧
                     (∀ n, n ∉ visited item → g2 !! n = g !! n))
    (λ l h l1 h1,
       NoDup (flat_map visited l) → forallb (settled h) l = true →
       ∀ g, length g = length h →
            (∀ k, Osg.children <$> g !! k = Osg.children <$> h !! k) →
         ∃ l2 g2, updateRows l1 true g = Some (l2, g2) ∧
                  (∀ n, n ∈ flat_map visited l → g2 !! n = h !! n) ∧
                  (∀ n, n ∉ flat_map visited l → g2 !! n = g !! n))).
  - intros h _ _ g _ _. exists [], g. split; [done|]. split; [|done].
    intros n Hn. by apply elem_of_nil in Hn.
  - intros x l h x1 h1 l1 h2 Ex El Hx Hl Hnd Hset g Hg Hch.
    simpl in Hnd, Hset. apply NoDup_app in Hnd as (Hndx & Hdisj & Hndl).
    apply andb_true_iff in Hset as [Hsx Hsl].
    destruct (Hx Hndx Hsx g Hg Hch) as (x2 & gx & Ex2 & Hinx & Houtx).
    destruct (updateChildren_frame _ _ _ _ _ Ex) as (_ & _ & Hlen1 & Hch1).
    destruct (updateChildren_frame _ _ _ _ _ Ex2) as (_ & _ & Hlenx & Hchx).
    assert (Hagree : ∀ n, n ∈ flat_map visited l → h1 !! n = h !! n).
    { intros n Hn. apply (updateChildren_other _ _ _ _ _ Ex).
      intros Hnx. by apply (Hdisj n Hnx). }
    destruct (Hl Hndl) with (g := gx) as (l2 & gl & El2 & Hinl & Houtl).
    { by rewrite (settled_rows_ext h h1 l Hagree). }
    { congruence. }
    { intros k. by rewrite Hchx, Hch, Hch1. }
    exists (x2 :: l2), gl. simpl. rewrite Ex2. simpl. rewrite El2. simpl.
    split; [done|]. split.
    + intros n Hn. destruct (decide (n ∈ flat_map visited l)) as [Hin|Hout].
      * rewrite (Hinl n Hin). by apply Hagree.
      * apply elem_of_app in Hn as [Hn|Hn]; [|done].
        rewrite (Houtl n Hout). by apply Hinx.
    + intros n Hn. apply not_elem_of_app in Hn as [Hn1 Hn2].
      rewrite (Houtl n Hn2). by apply Houtx.
  - intros item h rs' h1 item1 h2 Hc Hrs HRs Hown Hnd Hset g Hg Hch.
    rewrite visited_eq, Hc in Hnd. apply NoDup_cons in Hnd as [Hfresh Hnd].
    rewrite settled_eq, Hc in Hset.
    destruct (HRs Hnd Hset g Hg Hch) as (l2 & g1 & Hrs2 & Hin1 & Hout1).
    destruct (updateRows_frame _ _ _ _ _ Hrs) as (_ & _ & Hlen1 & Hch1).
    destruct (updateRows_frame _ _ _ _ _ Hrs2) as (_ & _ & Hleng & Hchg).
    apply updateOwn_inv in Hown as (m & prior' & Hitem1 & Hm & Hp & Hs).
    rewrite Hc in Hp, Hs. simpl in Hp, Hs. subst prior'.
    pose proof (getNodeMask_lt _ _ _ Hm) as Hlt.
    assert (Hf : isChecked item1 = true ∧ rows item1 = rs' ∧
                 m_node item1 = m_node item ∧ m_priorNodeMask item1 = m).
    { rewrite Hitem1. unfold isChecked in *. by destruct item. }
    destruct Hf as (Hc1 & Hr1 & Hn1 & Hp1).
    destruct (updateOwn_show item1 l2 g1) as (g2 & Hs2 & Hown2); [lia|].
    rewrite Hc1, Hn1, Hp1 in Hs2.
    exists (setRows l2 (setEnabled true item1)), g2.
    split. { rewrite updateChildren_eq, Hc1, Hr1, Hrs2. simpl. done. }
    assert (Hmh : Osg.getNodeMask h (m_node item) = Some m).
    { unfold Osg.getNodeMask in *.
      by rewrite <- (updateRows_other _ _ _ _ _ Hrs _ Hfresh). }
    split.
    + intros n Hn. rewrite visited_eq, Hc in Hn.
      destruct (decide (n = m_node item)) as [->|Hne].
      * apply node_eq.
        -- pose proof (getNodeMask_set_eq _ _ _ _ Hs2) as E2.
           unfold Osg.getNodeMask in E2, Hmh. by rewrite E2, Hmh.
        -- by rewrite (children_set _ _ _ _ _ Hs2), Hchg, Hch.
      * apply elem_of_cons in Hn as [?|Hn]; [done|].
        rewrite (lookup_set_ne _ _ _ _ _ Hs2 Hne). by apply Hin1.
    + intros n Hn. rewrite visited_eq, Hc in Hn.
      apply not_elem_of_cons in Hn as [Hne Hn].
      rewrite (lookup_set_ne _ _ _ _ _ Hs2 Hne). by apply Hout1.
  - intros item h item1 h2 Hc Hown Hnd Hset g Hg Hch.
    rewrite settled_eq, Hc in Hset. apply bool_decide_eq_true in Hset.
    apply updateOwn_inv in Hown as (m & prior' & Hitem1 & Hm & Hp & Hs).
    pose proof (getNodeMask_lt _ _ _ Hm) as Hlt.
    assert (Hf : isChecked item1 = false ∧ m_node item1 = m_node item).
    { rewrite Hitem1. unfold isChecked in *. by destruct item. }
    destruct Hf as (Hc1 & Hn1).
    destruct (updateOwn_show item1 (rows item1) g) as (g2 & Hs2 & Hown2); [lia|].
    rewrite Hc1, Hn1 in Hs2.
    exists (setRows (rows item1) (setEnabled true item1)), g2.
    split. { rewrite updateChildren_eq, Hc1. simpl. done. }
    split.
    + intros n Hn. rewrite visited_eq, Hc in Hn.
      apply list_elem_of_singleton in Hn as ->.
      apply node_eq.
      * pose proof (getNodeMask_set_eq _ _ _ _ Hs2) as E2.
        unfold Osg.getNodeMask in E2, Hset. by rewrite E2, Hset.
      * by rewrite (children_set _ _ _ _ _ Hs2), Hch.
    + intros n Hn. rewrite visited_eq, Hc in Hn.
      apply not_elem_of_cons in Hn as [Hne _].
      by rewrite (lookup_set_ne _ _ _ _ _ Hs2 Hne).
Qed.

Lemma updateRows_hide_show l :
  ∀ h l1 h1, updateRows l false h = Some (l1, h1) →
  NoDup (flat_map visited l) → forallb (settled h) l = true →
  ∀ g, length g = length h →
       (∀ k, Osg.children <$> g !! k = Osg.children <$> h !! k) →
    ∃ l2 g2, updateRows l1 true g = Some (l2, g2) ∧
             (∀ n, n ∈ flat_map visited l → g2 !! n = h !! n) ∧
             (∀ n, n ∉ flat_map visited l → g2 !! n = g !! n).
Proof.
  induction l as [|x l IH]; intros h l1 h1; simpl.
  - intros [= <- <-] _ _ g _ _. exists [], g. split; [done|]. split; [|done].
    intros n Hn. by apply elem_of_nil in Hn.
  - destruct (updateChildren x false h) as [[x1 hx]|] eqn:Ex; simpl; [|done].
    destruct (updateRows l false hx) as [[l' hl]|] eqn:El; simpl; [|done].
    intros [= <- <-] Hnd Hset g Hg Hch.
    apply NoDup_app in Hnd as (Hndx & Hdisj & Hndl).
    apply andb_true_iff in Hset as [Hsx Hsl].
    destruct (updateChildren_hide_show _ _ _ _ Ex Hndx Hsx g Hg Hch)
      as (x2 & gx & Ex2 & Hinx & Houtx).
    destruct (updateChildren_frame _ _ _ _ _ Ex) as (_ & _ & Hlen1 & Hch1).
    destruct (updateChildren_frame _ _ _ _ _ Ex2) as (_ & _ & Hlenx & Hchx).
    assert (Hagree : ∀ n, n ∈ flat_map visited l → hx !! n = h !! n).
    { intros n Hn. apply (updateChildren_other _ _ _ _ _ Ex).
      intros Hnx. by apply (Hdisj n Hnx). }
    destruct (IH _ _ _ El Hndl) with (g := gx) as (l2 & gl & El2 & Hinl & Houtl).
    { by rewrite (settled_rows_ext h hx l Hagree). }
    { congruence. }
    { intros k. by rewrite Hchx, Hch, Hch1. }
    exists (x2 :: l2), gl. simpl. rewrite Ex2. simpl. rewrite El2. simpl.
    split; [done|]. split.
    + intros n Hn. destruct (decide (n ∈ flat_map visited l)) as [Hin|Hout].
      * rewrite (Hinl n Hin). by apply Hagree.
      * apply elem_of_app in Hn as [Hn|Hn]; [|done].
        rewrite (Houtl n Hout). by apply Hinx.
    + intros n Hn. apply not_elem_of_app in Hn as [Hn1 Hn2].
      rewrite (Houtl n Hn2). by apply Houtx.
Qed.

Lemma updateChildren_zero k :
  ∀ item h item' h', updateChildren item false h = Some (item', h') →
  k ∈ visited item → Osg.getNodeMask h' k = Some 0%N.
Proof.
  apply (updateChildren_run false
    (λ x h x' hx, k ∈ visited x → Osg.getNodeMask hx k = Some 0%N)
    (λ l h l' hl, k ∈ flat_map visited l → Osg.getNodeMask hl k = Some 0%N)).
  - intros h Hk. by apply elem_of_nil in Hk.
  - intros y l h y' h1 l1 h2 _ El Hy Hl Hk. simpl in Hk.
    apply elem_of_app in Hk as [Hk|Hk]; [|by apply Hl].
    by destruct (updateRows_hide k _ _ _ _ El (Hy Hk)).
  - intros item h rs' h1 item' h2 Hc Hrs HRs Hown Hk.
    apply updateOwn_inv in Hown as (m & prior' & _ & _ & _ & Hs).
    rewrite Hc in Hs. simpl in Hs.
    destruct (decide (k = m_node item)) as [->|Hne];
      [by eapply getNodeMask_set_eq|].
    rewrite (getNodeMask_set_ne _ _ _ _ _ Hs Hne). apply HRs.
    rewrite visited_eq, Hc in Hk. by apply elem_of_cons in Hk as [?|?].
  - intros item h item' h2 Hc Hown Hk.
    apply updateOwn_inv in Hown as (m & prior' & _ & _ & _ & Hs).
    rewrite Hc in Hs. simpl in Hs. rewrite visited_eq, Hc in Hk.
    apply list_elem_of_singleton in Hk as ->. by eapply getNodeMask_set_eq.
Qed.

Lemma updateRows_zero k l :
  ∀ h l' h', updateRows l false h = Some (l', h') →
  k ∈ flat_map visited l → Osg.getNodeMask h' k = Some 0%N.
Proof.
  induction l as [|x l IH]; intros h l' h'; simpl.
  - intros _ Hk. by apply elem_of_nil in Hk.
  - destruct (updateChildren x false h) as [[x' hx]|] eqn:Ex; simpl; [|done].
    destruct (updateRows l false hx) as [[l'' hl]|] eqn:El; simpl; [|done].
    intros [= <- <-] Hk. apply elem_of_app in Hk as [Hk|Hk]; [|by eapply IH].
    pose proof (updateChildren_zero k _ _ _ _ Ex Hk) as Hz.
    by destruct (updateRows_hide k _ _ _ _ El Hz).
Qed.

(** X13.  Unchecking an enabled item and checking it again restores the
    masks of the whole store, at any depth of the subtree, provided the nodes
    that the propagation visits are pairwise distinct and distinct from the
    item's node, and every visited item that is not checked has its node
    hidden.  In between, every one of those nodes has the mask 0. *)
Theorem toggle_round_trip index tv w P :
  m_pOsgWidget tv = Some w →
  itemFromIndex (m_pModel tv) index = Some P →
  Forall (λ n, n < length (nodes tv)) (subtreeNodes P) →
  isEnabled P = true →
  NoDup (m_node P :: flat_map visited (rows P)) →
  forallb (settled (nodes tv)) (rows P) = true →
  ∃ tv1 tv2 P2,
    toggle Unchecked index tv = Some tv1 ∧
    (∀ n, n ∈ m_node P :: flat_map visited (rows P) →
          Osg.getNodeMask (nodes tv1) n = Some 0%N) ∧
    toggle Checked index tv1 = Some tv2 ∧
    nodes tv2 = nodes tv ∧
    itemFromIndex (m_pModel tv2) index = Some P2 ∧
    frame P2 = frame (setCheckState Checked P).
Proof.
  intros Hw HP Hlive Hen Hnd Hset.
  apply NoDup_cons in Hnd as [Hfresh Hnd].
  (* the uncheck *)
  destruct (toggle_spec Unchecked _ _ _ _ Hw HP Hlive)
    as (mP & Pa & ha & rsa & tv1 & HmP & _ & HPa & Hsa & Hrsa & Htg1 & Hw1 & HP1
        & Hf1 & Hlen1).
  rewrite (bool_decide_eq_false_2 (Unchecked = Checked)) in * by done.
  rewrite Hen in *.
  destruct (setNodeMask_length _ _ _ _ Hsa) as [Hlena _].
  assert (Hagree : ∀ n, n ∈ flat_map visited (rows P) → ha !! n = nodes tv !! n).
  { intros n Hn. apply (lookup_set_ne _ _ _ _ _ Hsa). by intros ->. }
  assert (Hseta : forallb (settled ha) (rows P) = true).
  { by rewrite (settled_rows_ext (nodes tv) ha _ Hagree). }
  (* the check *)
  set (P1 := setRows rsa Pa) in *.
  assert (Hlive1 : Forall (λ n, n < length (nodes tv1)) (subtreeNodes P1)).
  { rewrite Hlen1, (frame_subtreeNodes _ _ Hf1).
    by rewrite frame_setCheckState_subtreeNodes. }
  destruct (toggle_spec Checked _ _ _ _ Hw1 HP1 Hlive1)
    as (mP1 & Pb & hb & rsb & tv2 & HmP1 & _ & HPb & Hsb & Hrsb & Htg2 & _ & HP2
        & Hf2 & Hlen2).
  rewrite (bool_decide_eq_true_2 (Checked = Checked)) in * by done.
  assert (HP1f : m_node P1 = m_node P ∧ rows P1 = rsa ∧ isEnabled P1 = true ∧
                 m_priorNodeMask P1 = mP).
  { subst P1. rewrite HPa. destruct P; simpl in *. by subst. }
  destruct HP1f as (HnP1 & HrP1 & HeP1 & HpP1).
  rewrite HnP1, HrP1, HeP1, HpP1 in *.
  destruct (setNodeMask_length _ _ _ _ Hsb) as [Hlenb _].
  destruct (updateRows_frame _ _ _ _ _ Hrsa) as (_ & _ & Hlenr & Hchr).
  destruct (updateRows_hide_show _ _ _ _ Hrsa Hnd Hseta hb)
    as (l2 & g2 & Hrs2 & Hin2 & Hout2).
  { congruence. }
  { intros k. by rewrite (children_set _ _ _ _ k Hsb), Hchr. }
  rewrite Hrs2 in Hrsb. injection Hrsb as <- Hg2.
  exists tv1, tv2, (setRows l2 Pb).
  split; [done|]. split.
  { intros n Hn. pose proof (getNodeMask_set_eq _ _ _ _ Hsa) as Hz.
    apply elem_of_cons in Hn as [->|Hn].
    - by destruct (updateRows_hide (m_node P) _ _ _ _ Hrsa Hz).
    - by apply (updateRows_zero n _ _ _ _ Hrsa). }
  split; [done|]. split.
  { rewrite <- Hg2. apply list_eq. intros n.
    destruct (decide (n ∈ flat_map visited (rows P))) as [Hin|Hout].
    - rewrite (Hin2 n Hin). by apply Hagree.
    - rewrite (Hout2 n Hout).
      destruct (decide (n = m_node P)) as [->|Hne].
      + apply node_eq.
        * pose proof (getNodeMask_set_eq _ _ _ _ Hsb) as E.
          unfold Osg.getNodeMask in E, HmP. by rewrite E, HmP.
        * rewrite (children_set _ _ _ _ _ Hsb), Hchr.
          by rewrite (children_set _ _ _ _ _ Hsa).
      + rewrite (lookup_set_ne _ _ _ _ _ Hsb Hne).
        rewrite (updateRows_other _ _ _ _ _ Hrsa _ Hout).
        by rewrite (lookup_set_ne _ _ _ _ _ Hsa Hne). }
  split; [done|].
  rewrite Hf2. subst P1. rewrite HPa.
  destruct (updateRows_frame _ _ _ _ _ Hrsa) as (Hfa & _).
  destruct P; simpl in *. by rewrite Hfa.
Qed.

(** ** New parents, hidden nodes and replaced nodes *)

Lemma addChild_children h g c cs :
  Osg.children <$> h !! g = Some (Some cs) →
  ∃ h', Osg.addChild h g c = Some h' ∧
        Osg.children <$> h' !! g = Some (Some (cs ++ [c])) ∧
        (∀ k, k ≠ g → h' !! k = h !! k).
Proof.
  intros Hcs. unfold Osg.addChild.
  destruct (h !! g) as [nd|] eqn:Hnd; simpl in *; [|done].
  injection Hcs as Hcs. rewrite Hcs. simpl.
  assert (Hlt : g < length h) by by eapply lookup_lt_Some.
  eexists. split; [done|]. split.
  - by rewrite list_lookup_insert_eq.
  - intros k Hk. by rewrite list_lookup_insert_ne.
Qed.

Lemma addParent_new_store addRest parentName childName path cb myParent h h1 :
  findChild myParent parentName = None →
  Osg.addChild (Osg.newGroup h).2 (m_node myParent) (length h) = Some h1 →
  addParent addRest parentName childName path cb myParent h =
  '(rv, entry', h') ←
      addRest childName
        (D3DisplayItem parentName path (length h) Osg.defaultMask cb
                       true Checked []) h1;
  Some (rv, setRows (rows myParent ++ [entry']) myParent, h').
Proof.
  intros Hfind Hadd. unfold addParent. rewrite Hfind.
  destruct (newGroup_spec h) as (HgN & HmN & HlenN & HgO & HmO).
  destruct (Osg.newGroup h) as [g h0] eqn:EN.
  assert (g = length h) as -> by (by injection EN).
  simpl in *. unfold newItem. rewrite HmN. simpl. rewrite Hadd. simpl.
  destruct (addChild_inv _ _ _ _ Hadd) as (_ & _ & Hg1 & _).
  destruct myParent as [name' path' node' prior' func' en' cs' rs']. simpl.
  rewrite (lookup_app_r rs') by lia. rewrite Nat.sub_diag. simpl.
  rewrite Hg1, HgN.
  destruct (addRest childName _ h1) as [[[rv entry'] h']|]; simpl; [|done].
  unfold setRows. simpl. do 3 f_equal.
  rewrite (insert_app_r_alt rs') by lia. rewrite Nat.sub_diag. done.
Qed.

(** X6.  An [add] under [A::leaf] where the top-level item has no row [A]
    returns true and appends the row [A] to the top-level item: checked,
    enabled, with the full name of the call as its path, on a new group.  The
    new group is attached to the node of the top-level item whether
    [addToDisplay] is set or not; the flag decides only whether the added
    node is attached to the new group. *)
Theorem add_attaches_missing_parent A leaf node show disp cb tv w top cs :
  segment A → String.index 0 "::" leaf = None →
  m_pOsgWidget tv = Some w → m_pModel tv !! 0 = Some top →
  findChild top A = None →
  Osg.children <$> nodes tv !! m_node top = Some (Some cs) →
  node < length (nodes tv) →
  ∃ tv' itemA entry,
    TreeView_add (A +:+ "::" +:+ leaf) node show disp cb tv = Some (true, tv') ∧
    itemFromIndex (m_pModel tv') [0; length (rows top)] = Some itemA ∧
    m_name itemA = A ∧ m_path itemA = A +:+ "::" +:+ leaf ∧
    m_node itemA = length (nodes tv) ∧ m_func itemA = cb ∧
    checkState itemA = Checked ∧ isEnabled itemA = true ∧
    rows itemA = [entry] ∧ m_name entry = leaf ∧ m_node entry = node ∧
    length (nodes tv') = S (length (nodes tv)) ∧
    Osg.children <$> nodes tv' !! m_node top
      = Some (Some (cs ++ [length (nodes tv)])) ∧
    Osg.children <$> nodes tv' !! length (nodes tv)
      = Some (Some (if disp then [node] else [])).
Proof.
  intros HA Hleaf Hw Htop Hfind Hcs Hn.
  set (h := nodes tv) in *. set (path := A +:+ "::" +:+ leaf).
  set (g := length h).
  assert (Htlt : m_node top < length h).
  { destruct (h !! m_node top) eqn:E; [|done]. by eapply lookup_lt_Some. }
  set (h0 := (Osg.newGroup h).2).
  assert (Hcs0 : Osg.children <$> h0 !! m_node top = Some (Some cs)).
  { unfold h0, Osg.newGroup. simpl. by rewrite lookup_app_l. }
  destruct (addChild_children h0 (m_node top) g cs Hcs0) as (h1 & Hadd & Hc1 & Ho1).
  assert (Hlen1 : length h1 = S (length h)).
  { destruct (addChild_inv _ _ _ _ Hadd) as (_ & -> & _).
    unfold h0, Osg.newGroup. simpl. rewrite length_app. simpl. lia. }
  assert (Hg1 : h1 !! g = Some (Osg.mkNode Osg.defaultMask (Some []))).
  { rewrite Ho1 by (unfold g; lia). unfold h0, Osg.newGroup. simpl.
    rewrite lookup_app_r by done. by rewrite Nat.sub_diag. }
  set (entryA := D3DisplayItem A path g Osg.defaultMask cb true Checked []).
  assert (HgA : Osg.isGroup h1 (m_node entryA) = true).
  { apply isGroup_true. simpl. eauto. }
  destruct (createNewEntry_spec leaf path node cb true show disp entryA h1 HgA)
    as (entry & h' & Hnew & Hname & _ & Hnode & _ & _ & _ & _ & Hlen' & _); [lia|].
  pose proof Hnew as Hinv.
  apply createNewEntry_inv in Hinv as (m & h2 & _ & _ & Hh2 & Hh' & _).
  assert (Hch2 : ∀ k, Osg.children <$> h2 !! k =
                      if decide (k = g) then Some (Some (if disp then [node] else []))
                      else Osg.children <$> h1 !! k).
  { intros k. destruct disp.
    - destruct (addChild_children h1 g node []) as (h2' & Hadd2 & Hc2 & Ho2).
      { by rewrite Hg1. }
      simpl in Hh2. rewrite Hadd2 in Hh2. injection Hh2 as <-.
      destruct (decide (k = g)) as [->|Hk]; [done|]. by rewrite Ho2.
    - injection Hh2 as <-. destruct (decide (k = g)) as [->|Hk]; [|done].
      by rewrite Hg1. }
  assert (Hch' : ∀ k, Osg.children <$> h' !! k = Osg.children <$> h2 !! k).
  { intros k. destruct show; [by injection Hh' as <-|].
    by apply (children_set _ _ _ _ k Hh'). }
  assert (Hfuel : String.length path = S (String.length A + S (String.length leaf))).
  { unfold path. rewrite !length_append. simpl. lia. }
  exists (mkTreeView (Some w)
            (<[0 := setRows (rows top ++ [appendRow entry entryA]) top]> (m_pModel tv))
            h'),
         (appendRow entry entryA), entry.
  split.
  { unfold TreeView_add. rewrite Hw, Htop. cbn -[add]. fold path. fold h.
    unfold path at 2. rewrite add_split by done. fold path.
    rewrite (addParent_new_store _ _ _ _ _ _ _ h1 Hfind Hadd).
    fold g. fold entryA. rewrite Hfuel, add_leaf by done.
    change (findChild entryA leaf) with (@None nat). cbv iota.
    rewrite Hnew. reflexivity. }
  split.
  { cbn [m_pModel]. simpl.
    rewrite list_lookup_insert_eq by (by eapply lookup_lt_Some). simpl.
    rewrite lookup_app_r by done. by rewrite Nat.sub_diag. }
  split; [done|]. split; [done|]. split; [done|]. split; [done|].
  split; [done|]. split; [done|]. split; [done|]. split; [done|].
  split; [done|]. simpl. split; [lia|].
  split.
  - rewrite Hch', Hch2. rewrite decide_False; [done|]. unfold g. lia.
  - rewrite Hch', Hch2. by rewrite decide_True.
Qed.

(** X8.  A node added with [showNode] false under a new name: the new row
    is unchecked and enabled, the node's mask is 0, and the row remembers the
    mask the node had at the call; checking the row gives the node that mask
    back. *)
Theorem add_hidden_then_check name node disp cb tv w top m :
  String.index 0 "::" name = None →
  m_pOsgWidget tv = Some w → m_pModel tv !! 0 = Some top →
  findChild top name = None →
  Osg.isGroup (nodes tv) (m_node top) = true →
  Osg.getNodeMask (nodes tv) node = Some m →
  ∃ tv1 entry tv2 entry2,
    TreeView_add name node false disp cb tv = Some (true, tv1) ∧
    itemFromIndex (m_pModel tv1) [0; length (rows top)] = Some entry ∧
    m_name entry = name ∧ m_node entry = node ∧
    checkState entry = Unchecked ∧ isEnabled entry = true ∧
    m_priorNodeMask entry = m ∧
    Osg.getNodeMask (nodes tv1) node = Some 0%N ∧
    toggle Checked [0; length (rows top)] tv1 = Some tv2 ∧
    itemFromIndex (m_pModel tv2) [0; length (rows top)] = Some entry2 ∧
    checkState entry2 = Checked ∧ m_node entry2 = node ∧
    Osg.getNodeMask (nodes tv2) node = Some m.
Proof.
  intros Hname Hw Htop Hfind Hg Hm.
  pose proof (getNodeMask_lt _ _ _ Hm) as Hn.
  destruct (createNewEntry_spec name name node cb true false disp top (nodes tv) Hg Hn)
    as (entry0 & h' & Hnew & _); [].
  pose proof Hnew as Hinv.
  apply createNewEntry_inv in Hinv as (m' & h1 & _ & Hm' & Hh1 & Hh' & Happ).
  assert (m' = m) as -> by congruence.
  set (entry := D3DisplayItem name name node m cb true Unchecked []) in *.
  simpl in Hh'.
  set (tv1 := mkTreeView (Some w) (<[0 := appendRow entry top]> (m_pModel tv)) h').
  assert (Hadd : TreeView_add name node false disp cb tv = Some (true, tv1)).
  { unfold TreeView_add. rewrite Hw, Htop. cbn -[add].
    rewrite add_leaf by done. rewrite Hfind, Hnew. simpl. by rewrite Happ. }
  assert (Hit1 : itemFromIndex (m_pModel tv1) [0; length (rows top)] = Some entry).
  { simpl. rewrite list_lookup_insert_eq by (by eapply lookup_lt_Some). simpl.
    rewrite lookup_app_r by done. by rewrite Nat.sub_diag. }
  pose proof (getNodeMask_set_eq _ _ _ _ Hh') as Hz.
  destruct (setNodeMask_length _ _ _ _ Hh') as [Hlen' Hlt'].
  assert (Hlive1 : Forall (λ n, n < length (nodes tv1)) (subtreeNodes entry)).
  { simpl. constructor; [lia|done]. }
  destruct (toggle_spec Checked _ tv1 w entry eq_refl Hit1 Hlive1)
    as (m2 & item1 & h2 & rs & tv2 & _ & _ & Hitem1 & Hs2 & Hrs & Htg & _ & Hit2
        & _).
  rewrite (bool_decide_eq_true_2 (Checked = Checked)) in * by done.
  simpl in Hrs, Hs2. injection Hrs as <- Hh2.
  exists tv1, entry, tv2, (setRows [] item1).
  split; [done|]. split; [done|]. split; [done|]. split; [done|].
  split; [done|]. split; [done|]. split; [done|]. split; [done|].
  split; [done|]. split; [done|].
  split. { by rewrite Hitem1. }
  split. { by rewrite Hitem1. }
  rewrite <- Hh2. by apply (getNodeMask_set_eq _ _ _ _ Hs2).
Qed.

Lemma removeChild_children h g c cs :
  Osg.children <$> h !! g = Some (Some cs) →
  ∃ h', Osg.removeChild h g c = Some h' ∧
        Osg.children <$> h' !! g = Some (Some (Osg.removeFirst c cs)) ∧
        (∀ k, k ≠ g → h' !! k = h !! k) ∧
        (∀ k, Osg.getNodeMask h' k = Osg.getNodeMask h k).
Proof.
  intros Hcs. unfold Osg.removeChild.
  destruct (h !! g) as [nd|] eqn:Hnd; simpl in *; [|done].
  injection Hcs as Hcs. rewrite Hcs. simpl.
  assert (Hlt : g < length h) by by eapply lookup_lt_Some.
  eexists. split; [done|]. split; [|split].
  - by rewrite list_lookup_insert_eq.
  - intros k Hk. by rewrite list_lookup_insert_ne.
  - intros k. unfold Osg.getNodeMask. destruct (decide (k = g)) as [->|Hk].
    + rewrite list_lookup_insert_eq by done. by rewrite Hnd.
    + by rewrite list_lookup_insert_ne.
Qed.

(** X7.  An [add] under a name that a row of the top-level item has
    replaces the node of that row.  The call returns true and the outcome
    does not depend on [showNode]; the row holds the new node, is enabled and
    keeps its check state; the new node takes the mask of the old one.  With
    [addToDisplay] the first occurrence of the old node leaves the children
    of the parent's node and the new node is appended to them; without it the
    children stay as they are. *)
Theorem add_replaces_node name node show disp cb tv w top ii entry cs :
  String.index 0 "::" name = None →
  m_pOsgWidget tv = Some w → m_pModel tv !! 0 = Some top →
  findChild top name = Some ii → rows top !! ii = Some entry →
  Osg.children <$> nodes tv !! m_node top = Some (Some cs) →
  m_node entry < length (nodes tv) → node < length (nodes tv) →
  ∃ tv',
    TreeView_add name node show disp cb tv = Some (true, tv') ∧
    m_pModel tv' !! 0 =
      Some (setRows (<[ii := setEnabled true (setNode node entry)]> (rows top)) top) ∧
    Osg.getNodeMask (nodes tv') node = Osg.getNodeMask (nodes tv) (m_node entry) ∧
    (∀ k, k ≠ node →
          Osg.getNodeMask (nodes tv') k = Osg.getNodeMask (nodes tv) k) ∧
    Osg.children <$> nodes tv' !! m_node top
      = Some (Some (if disp then Osg.removeFirst (m_node entry) cs ++ [node]
                    else cs)) ∧
    (∀ k, k ≠ m_node top →
          Osg.children <$> nodes tv' !! k = Osg.children <$> nodes tv !! k).
Proof.
  intros Hname Hw Htop Hfind Hrow Hcs He Hn.
  set (h := nodes tv) in *.
  destruct (getNodeMask_Some _ _ He) as [m Hm].
  destruct (setNodeMask_Some h node m Hn) as [h1 Hs].
  pose proof (getNodeMask_set_eq _ _ _ _ Hs) as Hm1.
  assert (Hcs1 : Osg.children <$> h1 !! m_node top = Some (Some cs)).
  { by rewrite (children_set _ _ _ _ _ Hs). }
  assert (Hfinal : ∃ h3,
    replaceNode ii node true disp top h
      = Some (true, setRows (<[ii := setEnabled true (setNode node entry)]> (rows top))
                            top, h3) ∧
    (∀ k, Osg.getNodeMask h3 k = Osg.getNodeMask h1 k) ∧
    Osg.children <$> h3 !! m_node top
      = Some (Some (if disp then Osg.removeFirst (m_node entry) cs ++ [node]
                    else cs)) ∧
    (∀ k, k ≠ m_node top →
          Osg.children <$> h3 !! k = Osg.children <$> h1 !! k)).
  { unfold replaceNode. rewrite Hrow. simpl. rewrite Hm. simpl. rewrite Hs. simpl.
    destruct disp; simpl.
    - destruct (removeChild_children h1 (m_node top) (m_node entry) cs Hcs1)
        as (h2 & -> & Hc2 & Ho2 & Hm2). simpl.
      destruct (addChild_children h2 (m_node top) node _ Hc2)
        as (h3 & Hadd & Hc3 & Ho3).
      rewrite Hadd. simpl.
      destruct (addChild_inv _ _ _ _ Hadd) as (_ & _ & _ & Hm3).
      exists h3. split; [done|]. split; [|split; [done|]].
      + intros k. by rewrite Hm3, Hm2.
      + intros k Hk. by rewrite Ho3, Ho2.
    - exists h1. split; [done|]. split; [done|]. split; [done|]. done. }
  destruct Hfinal as (h3 & Hrep & Hmask & Hc3 & Ho3).
  exists (mkTreeView (Some w)
            (<[0 := setRows (<[ii := setEnabled true (setNode node entry)]> (rows top))
                            top]> (m_pModel tv)) h3).
  split.
  { unfold TreeView_add. rewrite Hw, Htop. cbn -[add]. fold h.
    rewrite add_leaf by done. rewrite Hfind, Hrep. done. }
  simpl.
  split. { apply list_lookup_insert_eq. by eapply lookup_lt_Some. }
  split. { by rewrite Hmask, Hm1. }
  split. { intros k Hk. rewrite Hmask. by apply (getNodeMask_set_ne _ _ _ _ _ Hs). }
  split; [done|].
  intros k Hk. rewrite (Ho3 k Hk). by apply (children_set _ _ _ _ _ Hs).
Qed.

Lemma TreeView_add_returns_witness :
  (m_pOsgWidget plainView = Some 0 ∧ m_pModel plainView !! 0 = Some plainTop ∧
   Osg.isGroup (nodes plainView) (m_node plainTop) = true ∧
   Forall (λ n, n < length (nodes plainView)) (subtreeNodes plainTop) ∧
   2 < length (nodes plainView)) ∧
  ∃ rv tv' top',
    TreeView_add "P::C1::Q" 2 true true noCallback plainView = Some (rv, tv') ∧
    m_pOsgWidget tv' = Some 0 ∧ m_pModel tv' !! 0 = Some top' ∧
    Osg.isGroup (nodes tv') (m_node top') = true ∧
    Forall (λ n, n < length (nodes tv')) (subtreeNodes top') ∧
    length (nodes plainView) ≤ length (nodes tv').
Proof.
  assert (Hlive : Forall (λ n, n < length (nodes plainView)) (subtreeNodes plainTop)).
  { repeat (constructor; [simpl; lia|]). constructor. }
  assert (Hn : 2 < length (nodes plainView)) by (simpl; lia).
  split; [repeat split; try reflexivity; assumption|].
  exact (TreeView_add_returns "P::C1::Q" 2 true true noCallback plainView 0 plainTop
           eq_refl eq_refl eq_refl Hlive Hn).
Defined.

Lemma TreeView_add_rejected_witness :
  TreeView_add "P::C1::Q" 2 true true noCallback plainView = Some (false, plainView) ∧
  plainView = plainView ∧
  (m_pOsgWidget plainView = None ∨
   ∃ q entry, q ≠ [] ∧ itemFromIndex (m_pModel plainView) (0 :: q) = Some entry ∧
              Osg.isGroup (nodes plainView) (m_node entry) = false).
Proof.
  assert (Hadd : TreeView_add "P::C1::Q" 2 true true noCallback plainView
                 = Some (false, plainView)) by (vm_compute; reflexivity).
  split; [exact Hadd|].
  exact (TreeView_add_rejected "P::C1::Q" 2 true true noCallback plainView plainView Hadd).
Defined.

Lemma TreeView_add_keeps_items_witness :
  ∃ tv',
    TreeView_add "P::C2" 3 false true noCallback plainView = Some (true, tv') ∧
    length (m_pModel tv') = length (m_pModel plainView) ∧
    ∀ q x, itemFromIndex (m_pModel plainView) q = Some x →
      ∃ x', itemFromIndex (m_pModel tv') q = Some x' ∧
            m_name x' = m_name x ∧ m_path x' = m_path x ∧ m_func x' = m_func x ∧
            checkState x' = checkState x ∧
            m_priorNodeMask x' = m_priorNodeMask x.
Proof.
  eexists. split; [vm_compute; reflexivity|].
  apply (TreeView_add_keeps_items "P::C2" 3 false true noCallback plainView true).
  vm_compute. reflexivity.
Defined.

Lemma TreeView_add_keeps_names_unique_witness :
  Forall (λ x, uniqueNames x = true) (m_pModel plainView) ∧
  ∃ tv',
    TreeView_add "P::C3" 3 true true noCallback plainView = Some (true, tv') ∧
    Forall (λ x, uniqueNames x = true) (m_pModel tv').
Proof.
  assert (Huniq : Forall (λ x, uniqueNames x = true) (m_pModel plainView)).
  { constructor; [reflexivity|constructor]. }
  split; [exact Huniq|].
  eexists. split; [vm_compute; reflexivity|].
  apply (TreeView_add_keeps_names_unique "P::C3" 3 true true noCallback plainView true
           _ Huniq).
  vm_compute. reflexivity.
Defined.

Lemma add_attaches_missing_parent_witness :
  (segment "A" ∧ String.index 0 "::" "leaf" = None ∧
   m_pOsgWidget plainView = Some 0 ∧ m_pModel plainView !! 0 = Some plainTop ∧
   findChild plainTop "A" = None ∧
   Osg.children <$> nodes plainView !! m_node plainTop = Some (Some [4]) ∧
   1 < length (nodes plainView)) ∧
  ∃ tv' itemA entry,
    TreeView_add ("A" +:+ "::" +:+ "leaf") 1 true false noCallback plainView
      = Some (true, tv') ∧
    itemFromIndex (m_pModel tv') [0; length (rows plainTop)] = Some itemA ∧
    m_name itemA = "A" ∧ m_path itemA = "A" +:+ "::" +:+ "leaf" ∧
    m_node itemA = length (nodes plainView) ∧ m_func itemA = noCallback ∧
    checkState itemA = Checked ∧ isEnabled itemA = true ∧
    rows itemA = [entry] ∧ m_name entry = "leaf" ∧ m_node entry = 1 ∧
    length (nodes tv') = S (length (nodes plainView)) ∧
    Osg.children <$> nodes tv' !! m_node plainTop
      = Some (Some ([4] ++ [length (nodes plainView)])) ∧
    Osg.children <$> nodes tv' !! length (nodes plainView)
      = Some (Some (if false then [1] else [])).
Proof.
  assert (Hn : 1 < length (nodes plainView)) by (simpl; lia).
  split; [repeat split; try reflexivity; assumption|].
  exact (add_attaches_missing_parent "A" "leaf" 1 true false noCallback plainView 0
           plainTop [4] eq_refl eq_refl eq_refl eq_refl eq_refl eq_refl Hn).
Defined.

Lemma add_replaces_node_witness :
  (String.index 0 "::" "P" = None ∧
   m_pOsgWidget plainView = Some 0 ∧ m_pModel plainView !! 0 = Some plainTop ∧
   findChild plainTop "P" = Some 0 ∧ rows plainTop !! 0 = Some plainP ∧
   Osg.children <$> nodes plainView !! m_node plainTop = Some (Some [4]) ∧
   m_node plainP < length (nodes plainView) ∧ 3 < length (nodes plainView)) ∧
  ∃ tv',
    TreeView_add "P" 3 false true noCallback plainView = Some (true, tv') ∧
    m_pModel tv' !! 0 =
      Some (setRows (<[0 := setEnabled true (setNode 3 plainP)]> (rows plainTop))
                    plainTop) ∧
    Osg.getNodeMask (nodes tv') 3 = Osg.getNodeMask (nodes plainView) (m_node plainP) ∧
    (∀ k, k ≠ 3 →
          Osg.getNodeMask (nodes tv') k = Osg.getNodeMask (nodes plainView) k) ∧
    Osg.children <$> nodes tv' !! m_node plainTop
      = Some (Some (if true then Osg.removeFirst (m_node plainP) [4] ++ [3]
                    else [4])) ∧
    (∀ k, k ≠ m_node plainTop →
          Osg.children <$> nodes tv' !! k = Osg.children <$> nodes plainView !! k).
Proof.
  assert (H4 : m_node plainP < length (nodes plainView)) by (simpl; lia).
  assert (H3 : 3 < length (nodes plainView)) by (simpl; lia).
  split; [repeat split; try reflexivity; assumption|].
  exact (add_replaces_node "P" 3 false true noCallback plainView 0 plainTop 0 plainP
           [4] eq_refl eq_refl eq_refl eq_refl eq_refl eq_refl H4 H3).
Defined.

Lemma add_hidden_then_check_witness :
  (String.index 0 "::" "Z" = None ∧
   m_pOsgWidget plainView = Some 0 ∧ m_pModel plainView !! 0 = Some plainTop ∧
   findChild plainTop "Z" = None ∧
   Osg.isGroup (nodes plainView) (m_node plainTop) = true ∧
   Osg.getNodeMask (nodes plainView) 2 = Some 9%N) ∧
  ∃ tv1 entry tv2 entry2,
    TreeView_add "Z" 2 false true noCallback plainView = Some (true, tv1) ∧
    itemFromIndex (m_pModel tv1) [0; length (rows plainTop)] = Some entry ∧
    m_name entry = "Z" ∧ m_node entry = 2 ∧
    checkState entry = Unchecked ∧ isEnabled entry = true ∧
    m_priorNodeMask entry = 9%N ∧
    Osg.getNodeMask (nodes tv1) 2 = Some 0%N ∧
    toggle Checked [0; length (rows plainTop)] tv1 = Some tv2 ∧
    itemFromIndex (m_pModel tv2) [0; length (rows plainTop)] = Some entry2 ∧
    checkState entry2 = Checked ∧ m_node entry2 = 2 ∧
    Osg.getNodeMask (nodes tv2) 2 = Some 9%N.
Proof.
  split; [repeat split; reflexivity|].
  exact (add_hidden_then_check "Z" 2 true noCallback plainView 0 plainTop 9%N
           eq_refl eq_refl eq_refl eq_refl eq_refl eq_refl).
Defined.

Lemma clicked_throws_iff_witness :
  (m_pOsgWidget plainView = Some 0 ∧
   Forall (λ x, Forall (λ n, n < length (nodes plainView)) (subtreeNodes x))
          (m_pModel plainView)) ∧
  (clicked [0; 5] plainView = None ↔
   itemFromIndex (m_pModel plainView) [0; 5] = None).
Proof.
  assert (Hlive : Forall (λ x, Forall (λ n, n < length (nodes plainView))
                                      (subtreeNodes x)) (m_pModel plainView)).
  { constructor; [|constructor].
    repeat (constructor; [simpl; lia|]). constructor. }
  split; [split; [reflexivity|exact Hlive]|].
  exact (clicked_throws_iff [0; 5] plainView 0 eq_refl Hlive).
Defined.

Lemma clicked_keeps_structure_witness :
  ∃ tv',
    clicked [0; 0] plainView = Some tv' ∧
    m_pOsgWidget tv' = m_pOsgWidget plainView ∧
    map frame (m_pModel tv') = map frame (m_pModel plainView) ∧
    length (nodes tv') = length (nodes plainView) ∧
    (∀ k, Osg.children <$> nodes tv' !! k = Osg.children <$> nodes plainView !! k) ∧
    (∀ item n, itemFromIndex (m_pModel plainView) [0; 0] = Some item →
       n ∉ m_node item :: flat_map visited (rows item) →
       nodes tv' !! n = nodes plainView !! n).
Proof.
  eexists. split; [vm_compute; reflexivity|].
  apply (clicked_keeps_structure [0; 0] plainView).
  vm_compute. reflexivity.
Defined.

Lemma clicked_checked_idempotent_witness :
  (itemFromIndex (m_pModel plainView) [0; 0; 1] = Some plainC2 ∧
   checkState plainC2 = Checked) ∧
  ∃ tv1, clicked [0; 0; 1] plainView = Some tv1 ∧
         clicked [0; 0; 1] tv1 = Some tv1.
Proof.
  split; [split; reflexivity|].
  eexists. split; [vm_compute; reflexivity|].
  apply (clicked_checked_idempotent [0; 0; 1] plainView plainC2 _ eq_refl eq_refl).
  vm_compute. reflexivity.
Defined.

Lemma clicked_twice_forgets_mask_witness :
  (m_pOsgWidget plainView = Some 0 ∧
   itemFromIndex (m_pModel plainView) [0; 0; 0] = Some plainC1 ∧
   Forall (λ n, n < length (nodes plainView)) (subtreeNodes plainC1) ∧
   checkState plainC1 ≠ Checked ∧ isEnabled plainC1 = true) ∧
  ∃ m tv1 item1 tv2 item2 tv3 item3,
    Osg.getNodeMask (nodes plainView) (m_node plainC1) = Some m ∧
    clicked [0; 0; 0] plainView = Some tv1 ∧
    itemFromIndex (m_pModel tv1) [0; 0; 0] = Some item1 ∧
    m_priorNodeMask item1 = m ∧
    Osg.getNodeMask (nodes tv1) (m_node plainC1) = Some 0%N ∧
    clicked [0; 0; 0] tv1 = Some tv2 ∧
    itemFromIndex (m_pModel tv2) [0; 0; 0] = Some item2 ∧
    m_priorNodeMask item2 = 0%N ∧
    toggle Checked [0; 0; 0] tv2 = Some tv3 ∧
    itemFromIndex (m_pModel tv3) [0; 0; 0] = Some item3 ∧
    checkState item3 = Checked ∧ isEnabled item3 = true ∧
    m_priorNodeMask item3 = 0%N ∧
    (m_node plainC1 ∉ flat_map visited (rows plainC1) →
     Osg.getNodeMask (nodes tv3) (m_node plainC1) = Some 0%N).
Proof.
  assert (Hlive : Forall (λ n, n < length (nodes plainView)) (subtreeNodes plainC1)).
  { repeat (constructor; [simpl; lia|]). constructor. }
  assert (Hc : checkState plainC1 ≠ Checked) by done.
  split; [repeat split; try reflexivity; assumption|].
  exact (clicked_twice_forgets_mask [0; 0; 0] plainView 0 plainC1
           eq_refl eq_refl Hlive Hc eq_refl).
Defined.

Lemma toggle_round_trip_witness :
  (m_pOsgWidget plainView = Some 0 ∧
   itemFromIndex (m_pModel plainView) [0; 0] = Some plainP ∧
   Forall (λ n, n < length (nodes plainView)) (subtreeNodes plainP) ∧
   isEnabled plainP = true ∧
   NoDup (m_node plainP :: flat_map visited (rows plainP)) ∧
   forallb (settled (nodes plainView)) (rows plainP) = true) ∧
  ∃ tv1 tv2 P2,
    toggle Unchecked [0; 0] plainView = Some tv1 ∧
    (∀ n, n ∈ m_node plainP :: flat_map visited (rows plainP) →
          Osg.getNodeMask (nodes tv1) n = Some 0%N) ∧
    toggle Checked [0; 0] tv1 = Some tv2 ∧
    nodes tv2 = nodes plainView ∧
    itemFromIndex (m_pModel tv2) [0; 0] = Some P2 ∧
    frame P2 = frame (setCheckState Checked plainP).
Proof.
  assert (Hlive : Forall (λ n, n < length (nodes plainView)) (subtreeNodes plainP)).
  { repeat (constructor; [simpl; lia|]). constructor. }
  assert (Hnd : NoDup (m_node plainP :: flat_map visited (rows plainP))).
  { apply (bool_decide_eq_true_1
             (NoDup (m_node plainP :: flat_map visited (rows plainP)))).
    vm_compute. reflexivity. }
  split; [repeat split; try reflexivity; assumption|].
  exact (toggle_round_trip [0; 0] plainView 0 plainP eq_refl eq_refl Hlive eq_refl
           Hnd eq_refl).
Defined.

Module StartupFacts.
Import Startup.

(** ** Facts about the start-up *)

Lemma teardownStates_checked : forallb teardownCheck teardownStates = true.
Proof. vm_compute. reflexivity. Qed.

Lemma runNotified_run schedule : ∀ s s',
  runNotified schedule s = Some s' → run schedule s = Some s'.
Proof.
  induction schedule as [|t schedule IH]; intros s s'; simpl; [done|].
  unfold stepNotified. destruct (returnsSpuriously t s); [done|].
  destruct (step t s) as [s1|]; simpl; [|done]. apply IH.
Qed.

Lemma teardownStates_step s t s' :
  s ∈ teardownStates → stepNotified t s = Some s' →
  s' ∈ teardownStates ∧ stepsLeft s = S (stepsLeft s').
Proof.
  intros Hin Hstep.
  pose proof teardownStates_checked as Hall.
  rewrite forallb_forall in Hall.
  specialize (Hall s (proj1 (list_elem_of_In _ _) Hin)).
  unfold teardownCheck in Hall.
  apply andb_true_iff in Hall as [Hall _].
  apply andb_true_iff in Hall as [Hall Hsucc].
  apply andb_true_iff in Hall as [Hall _].
  apply andb_true_iff in Hall as [Hcalls _].
  apply bool_decide_eq_true in Hcalls.
  cbn [forallb] in Hsucc.
  apply andb_true_iff in Hsucc as [Hd Hsucc].
  apply andb_true_iff in Hsucc as [Hx _].
  destruct t as [|i|].
  - rewrite Hstep in Hd. apply andb_true_iff in Hd as [H1 H2].
    apply bool_decide_eq_true in H1. apply bool_decide_eq_true in H2. done.
  - unfold stepNotified, returnsSpuriously, inWait, step in Hstep.
    rewrite Hcalls in Hstep. done.
  - rewrite Hstep in Hx. apply andb_true_iff in Hx as [H1 H2].
    apply bool_decide_eq_true in H1. apply bool_decide_eq_true in H2. done.
Qed.

Lemma teardownStates_run schedule : ∀ s s',
  s ∈ teardownStates → runNotified schedule s = Some s' →
  s' ∈ teardownStates ∧ stepsLeft s = length schedule + stepsLeft s'.
Proof.
  induction schedule as [|t schedule IH]; intros s s' Hin; simpl.
  - by intros [= <-].
  - destruct (stepNotified t s) as [s1|] eqn:Hstep; simpl; [|done].
    intros Hrun. destruct (teardownStates_step _ _ _ Hin Hstep) as [Hin1 Hleft].
    destruct (IH _ _ Hin1 Hrun) as [Hin' Hleft']. split; [done|]. lia.
Qed.

Lemma parked_in_teardownStates : parked ∈ teardownStates.
Proof.
  apply (bool_decide_eq_true_1 (parked ∈ teardownStates)).
  vm_compute. reflexivity.
Qed.

(** The teardown where it goes well.  When the destructor begins while the
    display thread is inside the wait for data and no call was ever made,
    and the wait returns on the notification of line 399 and not before, the
    process comes to its end in nine steps, whatever the schedule: every
    execution of fewer steps can go on, every execution has at most nine
    steps, and after nine steps the destructor has returned from the join,
    the display thread has returned, [m_haveData] is true,
    [m_threadShouldRun] is false and no window was ever made.  The schedule
    [teardown] is such an execution. *)
Lemma parked_teardown_completes schedule s :
  runNotified schedule parked = Some s →
  m_pMainWindow (shared s) = None ∧ windowsMade (shared s) = 0 ∧
  length schedule ≤ 9 ∧
  (length schedule = 9 → s = tornDown) ∧
  (length schedule < 9 → ∃ t s', stepNotified t s = Some s') ∧
  runNotified teardown parked = Some tornDown.
Proof.
  intros Hrun.
  destruct (teardownStates_run _ _ _ parked_in_teardownStates Hrun) as [Hin Hleft].
  assert (stepsLeft parked = 9) as Hnine by reflexivity.
  rewrite Hnine in Hleft. clear Hnine.
  pose proof teardownStates_checked as Hall.
  rewrite forallb_forall in Hall.
  specialize (Hall s (proj1 (list_elem_of_In _ _) Hin)).
  unfold teardownCheck in Hall.
  apply andb_true_iff in Hall as [Hall Hend].
  apply andb_true_iff in Hall as [Hall _].
  apply andb_true_iff in Hall as [Hall Hmade].
  apply andb_true_iff in Hall as [_ Hwin].
  apply bool_decide_eq_true in Hwin. apply bool_decide_eq_true in Hmade.
  split; [done|]. split; [done|]. split; [lia|].
  split; [|split; [|reflexivity]].
  - intros Hlen. rewrite bool_decide_eq_true_2 in Hend by lia.
    by apply bool_decide_eq_true in Hend.
  - intros Hlen. rewrite bool_decide_eq_false_2 in Hend by lia.
    apply bool_decide_eq_true in Hend as [[s1 E1]|[s2 E2]]; eauto.
Qed.

(** C7, the failing executions.  No call was ever made and the destructor
    begins.  (1) The display thread has tested [m_haveData] at line 304 and
    has not yet called [wait]: the destructor sets the flags and notifies
    (lines 396-399) while no thread waits, the display thread then waits,
    and the destructor is in its join; no thread has a step unless that wait
    returns spuriously.  (2) The display thread is inside the wait: the
    destructor sets [m_haveData] at line 396, the wait returns without a
    notification before line 397 has cleared [m_threadShouldRun], and the
    display thread passes the test of line 307 and makes the window; the
    destructor still returns, with a window made that it never closed. *)
Theorem teardown_before_first_call :
  (∃ s0 s,
     run reachParking (started []) = Some s0 ∧
     beginDestructor true s0 = parking ∧
     runNotified stranding parking = Some s ∧
     destroyer s = Some X400 ∧ display s = D305Blocked ∧
     m_haveData (shared s) = true ∧ m_threadShouldRun (shared s) = false ∧
     ∀ t, stepNotified t s = None) ∧
  (∃ s0 s1 s,
     run reachParked (started []) = Some s0 ∧
     beginDestructor true s0 = parked ∧
     runNotified halfway parked = Some s1 ∧
     m_haveData (shared s1) = true ∧ m_threadShouldRun (shared s1) = true ∧
     returnsSpuriously DisplayThread s1 = true ∧
     run lateWindow s1 = Some s ∧
     destroyer s = Some Destroyed ∧ display s = DisplayExited ∧
     windowsMade (shared s) = 1 ∧
     closed <$> m_pMainWindow (shared s) = Some false).
Proof.
  split.
  - eexists _, _. split; [vm_compute; reflexivity|].
    split; [reflexivity|]. split; [vm_compute; reflexivity|].
    split; [reflexivity|]. split; [reflexivity|].
    split; [reflexivity|]. split; [reflexivity|].
    intros [|i|]; reflexivity.
  - eexists _, _, _. split; [vm_compute; reflexivity|].
    split; [reflexivity|]. split; [vm_compute; reflexivity|].
    split; [reflexivity|]. split; [reflexivity|]. split; [reflexivity|].
    split; [vm_compute; reflexivity|].
    split; [reflexivity|]. split; [reflexivity|]. split; reflexivity.
Qed.

Lemma callerStep_progress t c d c' d' :
  callerStep t c d = Some (c', d') → progress d' = progress d.
Proof.
  destruct c as [op a pc], d as [w p sf mu ws hd sc sr n1 n2 n3].
  unfold callerStep, setupMainWindow, add, track, lock, try_lock, unlock,
    wake, acquire, wait, release, goto; simpl.
  intros H. repeat case_match; simplify_eq/=; done.
Qed.

Lemma displayStep_progress pc d pc' d' :
  progress d ∈ expected pc → displayStep pc d = Some (pc', d') →
  progress d' ∈ expected pc'.
Proof.
  destruct d as [w p sf mu ws hd sc sr n1 n2 n3].
  intros Hin Hstep.
  assert (Hcases : ∀ x, x ∈ expected pc → x = progress
    (mkDisplayInterface w p sf mu ws hd sc sr n1 n2 n3) →
    progress d' ∈ expected pc').
  { clear Hin. intros x Hx ->. revert Hx Hstep.
    destruct w as [[sz hs hp cl]|], p as [[hw]|], sf as [[ini hb]|];
      destruct pc; unfold progress; simpl; intros Hin;
      repeat (apply elem_of_cons in Hin as [Hin|Hin]);
      try (by apply elem_of_nil in Hin); simplify_eq;
      unfold displayStep, wake, acquire, wait, release, onWindow; simpl;
      intros H; repeat case_match; simplify_eq/=;
      first [by apply list_elem_of_here
            |by apply list_elem_of_further, list_elem_of_here]. }
  eauto.
Qed.

Lemma callerStep_mutex t c d c' d' :
  callerStep t c d = Some (c', d') →
  (callHolds c = true → m_mutex d = Some t) →
  (callHolds c' = true → m_mutex d' = Some t) ∧
  (m_mutex d' = m_mutex d ∨ m_mutex d = None ∨ m_mutex d = Some t).
Proof.
  destruct c as [op a pc], d as [w p sf mu ws hd sc sr n1 n2 n3].
  unfold callerStep, setupMainWindow, add, track, lock, try_lock, unlock,
    wake, acquire, wait, release, goto, callHolds;
    simpl.
  intros H Hold. repeat case_match; simplify_eq/=; naive_solver.
Qed.

Lemma displayStep_mutex pc d pc' d' :
  displayStep pc d = Some (pc', d') →
  (displayHolds pc = true → m_mutex d = Some DisplayThread) →
  (displayHolds pc' = true → m_mutex d' = Some DisplayThread) ∧
  (m_mutex d' = m_mutex d ∨ m_mutex d = None ∨ m_mutex d = Some DisplayThread).
Proof.
  destruct d as [w p sf mu ws hd sc sr n1 n2 n3].
  destruct w as [w|], p as [p|], sf as [sf|]; destruct pc;
    unfold displayStep, wake, acquire, wait, release, onWindow; simpl;
    intros H Hold; repeat case_match; simplify_eq/=; naive_solver.
Qed.

Lemma callerStep_window t c d c' d' :
  callerStep t c d = Some (c', d') →
  (pastSetup c = true → is_Some (m_pMainWindow d)) →
  (pastSetup c' = true → is_Some (m_pMainWindow d')) ∧
  (is_Some (m_pMainWindow d) → is_Some (m_pMainWindow d')).
Proof.
  destruct c as [op a pc], d as [w p sf mu ws hd sc sr n1 n2 n3].
  unfold callerStep, setupMainWindow, add, track, lock, try_lock, unlock,
    wake, acquire, wait, release, goto, pastSetup;
    simpl.
  intros H Hold. repeat case_match; simplify_eq/=; naive_solver.
Qed.

Lemma displayStep_window pc d pc' d' :
  displayStep pc d = Some (pc', d') →
  is_Some (m_pMainWindow d) → is_Some (m_pMainWindow d').
Proof.
  destruct d as [w p sf mu ws hd sc sr n1 n2 n3].
  destruct w as [w|], p as [p|], sf as [sf|]; destruct pc;
    unfold displayStep, wake, acquire, wait, release, onWindow; simpl;
    intros H Hold; repeat case_match; simplify_eq/=; naive_solver.
Qed.

Lemma steady_step t s s' : steady s → step t s = Some s' → steady s'.
Proof.
  intros [Hprog Hdisp Hcalls Hwin Halive]. destruct t as [|i|]; simpl.
  - destruct (displayStep (display s) (shared s)) as [[pc d]|] eqn:Hstep;
      simpl; [|done].
    intros [= <-].
    destruct (displayStep_mutex _ _ _ _ Hstep Hdisp) as [Hown Hmutex].
    split; simpl.
    + by eapply displayStep_progress.
    + done.
    + intros j c Hc Hhold. specialize (Hcalls j c Hc Hhold).
      destruct Hmutex as [-> | [Hm|Hm]]; [done| |]; rewrite Hm in Hcalls; done.
    + intros j c Hc Hpast. eapply displayStep_window; eauto.
    + done.
  - destruct (calls s !! i) as [c|] eqn:Hc; simpl; [|done].
    destruct (callerStep (Caller i) c (shared s)) as [[c' d]|] eqn:Hstep;
      simpl; [|done].
    intros [= <-].
    pose proof (lookup_lt_Some _ _ _ Hc) as Hlt.
    destruct (callerStep_mutex _ _ _ _ _ Hstep (Hcalls i c Hc)) as [Hown Hmutex].
    destruct (callerStep_window _ _ _ _ _ Hstep (Hwin i c Hc)) as [Hpast Hkeep].
    split; simpl.
    + by rewrite (callerStep_progress _ _ _ _ _ Hstep).
    + intros Hhold. specialize (Hdisp Hhold).
      destruct Hmutex as [-> | [Hm|Hm]]; [done| |]; rewrite Hm in Hdisp; done.
    + intros j cj Hcj Hhold. destruct (decide (j = i)) as [->|Hne].
      * rewrite list_lookup_insert_eq in Hcj by done. injection Hcj as <-. auto.
      * rewrite list_lookup_insert_ne in Hcj by done.
        specialize (Hcalls j cj Hcj Hhold).
        destruct Hmutex as [-> | [Hm|Hm]]; [done| |]; rewrite Hm in Hcalls;
          [done|]. by injection Hcalls as ->.
    + intros j cj Hcj Hp. destruct (decide (j = i)) as [->|Hne].
      * rewrite list_lookup_insert_eq in Hcj by done. injection Hcj as <-. auto.
      * rewrite list_lookup_insert_ne in Hcj by done. eauto.
    + done.
  - rewrite Halive. done.
Qed.

Lemma steady_started ops : steady (started ops).
Proof.
  split; simpl.
  - apply list_elem_of_here.
  - done.
  - intros i c Hc. rewrite list_lookup_fmap in Hc.
    destruct (ops !! i); simplify_eq/=. done.
  - intros i c Hc. rewrite list_lookup_fmap in Hc.
    destruct (ops !! i); simplify_eq/=. done.
  - done.
Qed.

Lemma steady_run schedule : ∀ s s',
  steady s → run schedule s = Some s' → steady s'.
Proof.
  induction schedule as [|t schedule IH]; intros s s' Hs; simpl.
  - by intros [= <-].
  - destruct (step t s) as [s1|] eqn:Hstep; simpl; [|done].
    eauto using steady_step.
Qed.

(** X14.  In every state that callers and the display thread reach from the
    constructed interface: each of the three constructors ran at most once;
    where [m_setupComplete] is set, the window, the surface and the panel are
    complete and each constructor ran once; and an overload of [add] that is
    about to call through [m_pTreeView] or [m_pOsgWidget] owns [m_mutex] and
    finds them complete, so that its call returns. *)
Theorem setup_once_and_guarded ops schedule s :
  run schedule (started ops) = Some s →
  (windowsMade (shared s) ≤ 1 ∧ surfacesMade (shared s) ≤ 1 ∧
   panelsMade (shared s) ≤ 1) ∧
  (m_setupComplete (shared s) = true →
   complete (shared s) ∧ windowsMade (shared s) = 1 ∧
   surfacesMade (shared s) = 1 ∧ panelsMade (shared s) = 1) ∧
  (∀ i c, calls s !! i = Some c →
     guarded (operation c) = true → at_ c = Delegate →
     m_mutex (shared s) = Some (Caller i) ∧ complete (shared s) ∧
     ∃ rv, callerStep (Caller i) c (shared s)
           = Some (goto (Unguard rv) c, shared s)).
Proof.
  intros Hrun.
  destruct (steady_run _ _ _ (steady_started ops) Hrun)
    as [Hprog Hdisp Hcalls Hwin _].
  assert (Hshape : ∀ x, x ∈ expected (display s) →
    (x.2.1.1 ≤ 1 ∧ x.2.1.2 ≤ 1 ∧ x.2.2 ≤ 1) ∧
    (x.1.2 = true →
     x.1.1 = (Some (true, true, true), Some true, Some true) ∧ x.2 = (1, 1, 1)) ∧
    (is_Some x.1.1.1.1 → displayHolds (display s) = false →
     x.1.1 = (Some (true, true, true), Some true, Some true))).
  { intros x Hx. destruct (display s); simpl in Hx;
      repeat (apply elem_of_cons in Hx as [Hx|Hx]);
      try (by apply elem_of_nil in Hx); subst x; simpl;
      (split; [lia|]); (split; [done|]); intros [? ?] ?; done. }
  destruct (Hshape _ Hprog) as (Hle & Hdone & Hfree). unfold progress in *.
  simpl in *. split; [done|]. split.
  - intros Hsc. destruct (Hdone Hsc) as [Hc Hn].
    injection Hc as ? ? ?. injection Hn as ? ? ?. unfold complete. done.
  - intros i c Hc Hg Hat.
    assert (Hhold : callHolds c = true) by (unfold callHolds; by rewrite Hat).
    assert (Hpast : pastSetup c = true) by (unfold pastSetup; by rewrite Hat).
    pose proof (Hcalls i c Hc Hhold) as Hmutex.
    assert (Hnot : displayHolds (display s) = false).
    { destruct (displayHolds (display s)) eqn:E; [|done].
      rewrite (Hdisp eq_refl) in Hmutex. done. }
    destruct (Hwin i c Hc Hpast) as [w Hw].
    assert (Hcomplete : complete (shared s)).
    { assert (Hsome : is_Some ((λ w, (sized w, hasSurface w, hasPanel w))
                               <$> m_pMainWindow (shared s))).
      { rewrite Hw. simpl. eauto. }
      specialize (Hfree Hsome Hnot). injection Hfree as ? ? ?.
      unfold complete. done. }
    split; [done|]. split; [done|].
    destruct Hcomplete as (_ & Hsurf & Hpanel).
    unfold callerStep, add. rewrite Hat.
    destruct (m_pOsgWidget (shared s)) as [sf|]; [|done].
    destruct (m_pTreeView (shared s)) as [p|]; [|done].
    destruct (operation c); simplify_eq/=; eauto.
Qed.

(** X20.  The destructor begun while the display thread is between the test
    of [m_haveData] (line 304) and the call of [wait] (line 305): the
    destructor's notification finds no waiting thread, the thread then waits,
    and the process is stuck with the destructor in its join; no thread has a
    step, unless the wait returns spuriously. *)
Lemma teardown_while_parking_is_stuck :
  ∃ s, run stranding parking = Some s ∧
       runNotified stranding parking = Some s ∧
       destroyer s = Some X400 ∧ display s = D305Blocked ∧
       ∀ t, stepNotified t s = None.
Proof.
  eexists. split; [vm_compute; reflexivity|].
  split; [vm_compute; reflexivity|].
  split; [reflexivity|]. split; [reflexivity|].
  intros [|i|]; reflexivity.
Qed.

(** C6.  A call of an operation that goes through [setupMainWindow] and
    finds no window at its return (line 420) takes the branch that sets
    [m_haveData] to false and returns false: two steps, neither of which can
    be blocked or ends in a null dereference, whatever the other threads did
    to the shared state in between. *)
Theorem no_window_returns_false t c d d' :
  requiresWindow (operation c) = true →
  at_ c = S420 → m_pMainWindow d = None →
  callerStep t c d = Some (goto NoWindow c, d) ∧
  callerStep t (goto NoWindow c) d'
    = Some (goto (Returned false) c, setHaveData false d') ∧
  m_haveData (setHaveData false d') = false.
Proof.
  intros Hop Hat Hwin. unfold callerStep, setupMainWindow. rewrite Hat, Hwin.
  split; [done|]. simpl.
  destruct (operation c); try discriminate Hop; done.
Qed.

(** C8.  While there is no surface, [try_lock] and [unlock] return false in
    one step that exists in every state of the process and leaves the shared
    state, the display thread, the other calls and the destructor as they
    are; in particular no window is made. *)
Theorem try_lock_unlock_without_surface s i c :
  calls s !! i = Some c → at_ c = Entry →
  operation c = TryLock ∨ operation c = Unlock →
  m_pOsgWidget (shared s) = None →
  step (Caller i) s
    = Some (mkProcess (shared s) (display s)
                      (<[i := goto (Returned false) c]> (calls s))
                      (destroyer s)).
Proof.
  intros Hc Hat Hop Hsurf. simpl. rewrite Hc. simpl.
  unfold callerStep, try_lock, unlock. rewrite Hat, Hsurf.
  by destruct Hop as [-> | ->].
Qed.

(** C4, the failing execution.  With a call of [add] waiting for the setup
    and the window just made, a call of [track] reads a non-null
    [m_pMainWindow] at line 408, skips the wait, and calls through
    [m_pOsgWidget] at line 167 while it is still null and the setup is not
    complete. *)
Theorem track_overtakes_setup :
  ∃ s, run overtaking (started [(AddNode, true); (Track, true)]) = Some s ∧
       calls s !! 1 = Some (mkCall Track true NullDereference) ∧
       calls s !! 0 = Some (mkCall AddNode true S416Blocked) ∧
       display s = D323 ∧
       m_setupComplete (shared s) = false ∧
       is_Some (m_pMainWindow (shared s)) ∧
       m_pOsgWidget (shared s) = None ∧ m_pTreeView (shared s) = None.
Proof. eexists. split; [vm_compute; reflexivity|]. simpl. eauto 10. Qed.

Lemma no_window_returns_false_witness :
  (requiresWindow Lock = true ∧ at_ (mkCall Lock true S420) = S420 ∧
   m_pMainWindow constructed = None) ∧
  callerStep (Caller 0) (mkCall Lock true S420) constructed
    = Some (goto NoWindow (mkCall Lock true S420), constructed) ∧
  callerStep (Caller 0) (goto NoWindow (mkCall Lock true S420))
             (setHaveData true constructed)
    = Some (goto (Returned false) (mkCall Lock true S420),
            setHaveData false (setHaveData true constructed)) ∧
  m_haveData (setHaveData false (setHaveData true constructed)) = false.
Proof.
  split; [repeat split; reflexivity|].
  exact (no_window_returns_false (Caller 0) (mkCall Lock true S420)
           constructed (setHaveData true constructed) eq_refl eq_refl eq_refl).
Defined.

Lemma try_lock_unlock_without_surface_witness :
  (calls (started [(Unlock, true)]) !! 0 = Some (mkCall Unlock true Entry) ∧
   at_ (mkCall Unlock true Entry) = Entry ∧
   (operation (mkCall Unlock true Entry) = TryLock ∨
    operation (mkCall Unlock true Entry) = Unlock) ∧
   m_pOsgWidget (shared (started [(Unlock, true)])) = None) ∧
  step (Caller 0) (started [(Unlock, true)])
    = Some (mkProcess (shared (started [(Unlock, true)]))
                      (display (started [(Unlock, true)]))
                      (<[0 := goto (Returned false) (mkCall Unlock true Entry)]>
                         (calls (started [(Unlock, true)])))
                      (destroyer (started [(Unlock, true)]))).
Proof.
  split; [repeat split; try reflexivity; right; reflexivity|].
  exact (try_lock_unlock_without_surface (started [(Unlock, true)]) 0
           (mkCall Unlock true Entry) eq_refl eq_refl (or_intror eq_refl) eq_refl).
Defined.

(** ** While the destructor does not run *)

Lemma callerStep_settled t c d c' d' :
  callerStep t c d = Some (c', d') → settledCall d c →
  (m_setupComplete d = true → is_Some (m_pMainWindow d)) →
  (at_ c = Delegate → operation c = AddNode →
   hasWidget <$> m_pTreeView d = Some true) →
  settledCall d' c'.
Proof.
  destruct c as [op a pc], d as [w p sf mu ws hd sc sr n1 n2 n3].
  unfold callerStep, setupMainWindow, add, track, lock, try_lock, unlock,
    wake, acquire, wait, release, goto, settledCall, answered. simpl.
  intros H [Hat Hhd] Hsc Hpanel.
  repeat case_match; simplify_eq/=;
    try (specialize (Hpanel eq_refl eq_refl); simplify_eq/=);
    (split; [first [done | by apply Hsc | by eauto | idtac]
            | first [done | by auto | idtac]]).
  by rewrite Hpanel.
Qed.

(** A step of one call leaves what holds of another call. *)
Lemma callerStep_keeps t c d c' d' :
  callerStep t c d = Some (c', d') →
  m_pMainWindow d' = m_pMainWindow d ∧
  (at_ c ≠ NoWindow → m_haveData d = true → m_haveData d' = true).
Proof.
  destruct c as [op a pc], d as [w p sf mu ws hd sc sr n1 n2 n3].
  unfold callerStep, setupMainWindow, add, track, lock, try_lock, unlock,
    wake, acquire, wait, release, goto. simpl.
  intros H. repeat case_match; simplify_eq/=; (split; [done|]); try done;
    intros Hne; by destruct Hne.
Qed.

Lemma callerStep_settled_other t c d c' d' c0 :
  callerStep t c d = Some (c', d') → settledCall d c →
  settledCall d c0 → settledCall d' c0.
Proof.
  intros Hstep [Hat _] [Hat0 Hhd0].
  destruct (callerStep_keeps _ _ _ _ _ Hstep) as [Hwin Hhd].
  unfold settledCall. rewrite Hwin. split; [done|].
  intros Ha He. apply Hhd; [|by apply Hhd0].
  intros E. by rewrite E in Hat.
Qed.

Lemma displayStep_settled pc d pc' d' c0 :
  displayStep pc d = Some (pc', d') → settledCall d c0 → settledCall d' c0.
Proof.
  intros Hstep [Hat Hhd].
  pose proof (displayStep_window _ _ _ _ Hstep) as Hwin.
  assert (Hsame : m_haveData d' = m_haveData d).
  { revert Hstep. destruct d as [w p sf mu ws hd sc sr n1 n2 n3].
    destruct w as [w|], p as [p|], sf as [sf|]; destruct pc;
      unfold displayStep, wake, acquire, wait, release, onWindow; simpl;
      intros H; repeat case_match; simplify_eq/=; done. }
  unfold settledCall. rewrite Hsame. split; [|done].
  destruct (at_ c0); auto.
Qed.

Lemma steady_complete_flag s :
  steady s → m_setupComplete (shared s) = true →
  is_Some (m_pMainWindow (shared s)).
Proof.
  intros [Hprog _ _ _ _] Hsc. unfold progress in Hprog.
  destruct (m_pMainWindow (shared s)); [eauto|]. simpl in Hprog.
  rewrite Hsc in Hprog.
  destruct (display s); simpl in Hprog;
    repeat (apply elem_of_cons in Hprog as [Hprog|Hprog]);
    try (by apply elem_of_nil in Hprog); simplify_eq.
Qed.

Lemma steady_delegate s i c :
  steady s → calls s !! i = Some c →
  at_ c = Delegate → guarded (operation c) = true →
  complete (shared s).
Proof.
  intros [Hprog Hdisp Hcalls Hwin _] Hc Hat Hg.
  assert (Hhold : callHolds c = true) by (unfold callHolds; by rewrite Hat).
  assert (Hpast : pastSetup c = true) by (unfold pastSetup; by rewrite Hat).
  pose proof (Hcalls i c Hc Hhold) as Hmutex.
  assert (Hnot : displayHolds (display s) = false).
  { destruct (displayHolds (display s)) eqn:E; [|done].
    rewrite (Hdisp eq_refl) in Hmutex. done. }
  destruct (Hwin i c Hc Hpast) as [w Hw].
  unfold progress in Hprog. rewrite Hw in Hprog. simpl in Hprog.
  unfold complete. rewrite Hw. simpl.
  destruct (display s); simpl in Hprog, Hnot; try done;
    repeat (apply elem_of_cons in Hprog as [Hprog|Hprog]);
    try (by apply elem_of_nil in Hprog); simplify_eq;
    (split; [congruence|done]).
Qed.

Lemma settled_step t s s' :
  steady s → (∀ i c, calls s !! i = Some c → settledCall (shared s) c) →
  step t s = Some s' →
  ∀ i c, calls s' !! i = Some c → settledCall (shared s') c.
Proof.
  intros Hsteady Hall. destruct t as [|j|]; simpl.
  - destruct (displayStep (display s) (shared s)) as [[pc d]|] eqn:Hstep;
      simpl; [|done].
    intros [= <-] i c Hc. simpl in *. eapply displayStep_settled; eauto.
  - destruct (calls s !! j) as [cj|] eqn:Hcj; simpl; [|done].
    destruct (callerStep (Caller j) cj (shared s)) as [[cj' d]|] eqn:Hstep;
      simpl; [|done].
    intros [= <-] i c Hc. simpl in *.
    pose proof (lookup_lt_Some _ _ _ Hcj) as Hlt.
    destruct (decide (i = j)) as [->|Hne].
    + rewrite list_lookup_insert_eq in Hc by done. injection Hc as <-.
      eapply callerStep_settled; eauto.
      * by apply steady_complete_flag.
      * intros Hat Hop.
        destruct (steady_delegate s j cj Hsteady Hcj Hat) as (_ & _ & Hp);
          [by rewrite Hop|done].
    + rewrite list_lookup_insert_ne in Hc by done.
      eapply callerStep_settled_other; eauto.
  - destruct Hsteady as [_ _ _ _ Halive]. rewrite Halive. done.
Qed.

(** X15.  As long as the destructor does not run, [setupMainWindow] never
    returns false: no call reaches the branch of lines 58-63 (85-90, 115-120,
    135-140, 160-165, 198-203).  A call that has returned has returned the
    answer of the panel or the surface (the overloads of [add]) or true
    ([track], [lock]), and [m_haveData], once a call has set it, stays
    set. *)
Theorem setup_never_fails ops schedule s i c :
  run schedule (started ops) = Some s → calls s !! i = Some c →
  at_ c ≠ NoWindow ∧
  (∀ rv, at_ c = Returned rv →
     match operation c with
     | AddNode | AddKeyHandler | AddMouseHandler | AddMotionHandler =>
         rv = accepted c
     | Track | Lock => rv = true
     | TryLock | Unlock => True
     end) ∧
  (announcesData (operation c) = true → at_ c ≠ Entry →
   m_haveData (shared s) = true).
Proof.
  intros Hrun Hc.
  assert (Hinv : ∀ schedule s0 s1,
    steady s0 → (∀ i c, calls s0 !! i = Some c → settledCall (shared s0) c) →
    run schedule s0 = Some s1 →
    ∀ i c, calls s1 !! i = Some c → settledCall (shared s1) c).
  { clear. induction schedule as [|t schedule IH]; intros s0 s1 Hst Hall; simpl.
    - by intros [= <-].
    - destruct (step t s0) as [s2|] eqn:Hstep; simpl; [|done].
      apply IH; [by eapply steady_step|by eapply settled_step]. }
  assert (Hstart : ∀ i c, calls (started ops) !! i = Some c →
                          settledCall (shared (started ops)) c).
  { intros j cj Hj. simpl in Hj. rewrite list_lookup_fmap in Hj.
    destruct (ops !! j); simplify_eq/=. split; [done|]. simpl. done. }
  destruct (Hinv _ _ _ (steady_started ops) Hstart Hrun i c Hc) as [Hat Hhd].
  split; [intros E; by rewrite E in Hat|].
  split; [|done].
  intros rv E. rewrite E in Hat. exact Hat.
Qed.

(** X16.  The sections under [m_mutex] exclude one another: two calls that
    are both inside such a section (lines 411-417 of [setupMainWindow], lines
    66-71 and the like of the overloads of [add]) are the same call, it owns
    the mutex, and the display thread is outside its own section (lines
    301-348). *)
Theorem locked_sections_exclusive ops schedule s i j ci cj :
  run schedule (started ops) = Some s →
  calls s !! i = Some ci → calls s !! j = Some cj →
  callHolds ci = true → callHolds cj = true →
  i = j ∧ displayHolds (display s) = false ∧
  m_mutex (shared s) = Some (Caller i).
Proof.
  intros Hrun Hi Hj Hci Hcj.
  destruct (steady_run _ _ _ (steady_started ops) Hrun)
    as [_ Hdisp Hcalls _ _].
  pose proof (Hcalls i ci Hi Hci) as Hmi.
  pose proof (Hcalls j cj Hj Hcj) as Hmj.
  rewrite Hmi in Hmj. injection Hmj as <-.
  split; [done|]. split; [|done].
  destruct (displayHolds (display s)) eqn:E; [|done].
  rewrite (Hdisp eq_refl) in Hmi. done.
Qed.

(** ** Calls that announce no data *)

Lemma callerStep_idle t c d c' d' :
  callerStep t c d = Some (c', d') → idle d → callWaits c = true →
  idle d' ∧ callWaits c' = true.
Proof.
  destruct c as [op a pc], d as [w p sf mu ws hd sc sr n1 n2 n3].
  unfold callerStep, setupMainWindow, add, track, lock, try_lock, unlock,
    wake, acquire, wait, release, goto, idle, callWaits. simpl.
  intros H (? & ? & ? & ? & ? & ?) Hc. simplify_eq/=.
  repeat case_match; simplify_eq/=; done.
Qed.

Lemma displayStep_idle pc d pc' d' :
  displayStep pc d = Some (pc', d') → idle d → displayWaits pc = true →
  idle d' ∧ displayWaits pc' = true.
Proof.
  destruct d as [w p sf mu ws hd sc sr n1 n2 n3].
  unfold idle. simpl. intros H (? & ? & ? & ? & ? & ?) Hc. simplify_eq/=.
  destruct pc; try done;
    unfold displayStep, wake, acquire, wait, release, onWindow in H; simpl in H;
    repeat case_match; simplify_eq/=; done.
Qed.

(** X17.  [lock] does not set [m_haveData] (lines 195-207).  While only
    [lock], [try_lock] and [unlock] are called, the display thread stays in
    the loop of lines 304-305, no window is made, no call of [lock] returns,
    and every call of [try_lock] or [unlock] that returns, returns false. *)
Theorem lock_without_data ops schedule s :
  (∀ o, o ∈ ops → announcesData o.1 = false) →
  run schedule (started ops) = Some s →
  m_pMainWindow (shared s) = None ∧ windowsMade (shared s) = 0 ∧
  m_haveData (shared s) = false ∧
  displayWaits (display s) = true ∧
  ∀ i c, calls s !! i = Some c →
    (operation c = Lock → ∀ rv, at_ c ≠ Returned rv) ∧
    (∀ rv, at_ c = Returned rv → rv = false).
Proof.
  intros Hops Hrun.
  assert (Hinv : ∀ schedule s0 s1,
    (idle (shared s0) ∧ displayWaits (display s0) = true ∧
     Forall (λ c, callWaits c = true) (calls s0) ∧ destroyer s0 = None) →
    run schedule s0 = Some s1 →
    idle (shared s1) ∧ displayWaits (display s1) = true ∧
    Forall (λ c, callWaits c = true) (calls s1) ∧ destroyer s1 = None).
  { clear. induction schedule as [|t schedule IH]; intros s0 s1 Hs0; simpl.
    - by intros [= <-].
    - destruct (step t s0) as [s2|] eqn:Hstep; simpl; [|done].
      apply IH. destruct Hs0 as (Hidle & Hd & Hcs & Halive).
      revert Hstep. destruct t as [|j|]; simpl.
      + destruct (displayStep (display s0) (shared s0)) as [[pc d]|] eqn:Hds;
          simpl; [|done].
        intros [= <-]. simpl.
        by destruct (displayStep_idle _ _ _ _ Hds Hidle Hd).
      + destruct (calls s0 !! j) as [cj|] eqn:Hcj; simpl; [|done].
        destruct (callerStep (Caller j) cj (shared s0)) as [[cj' d]|] eqn:Hcs0;
          simpl; [|done].
        intros [= <-]. simpl.
        assert (Hw : callWaits cj = true).
        { rewrite Forall_forall in Hcs. apply Hcs.
          by eapply list_elem_of_lookup_2. }
        destruct (callerStep_idle _ _ _ _ _ Hcs0 Hidle Hw) as [Hidle' Hw'].
        split; [done|]. split; [done|]. split; [|done].
        by apply Forall_insert.
      + by rewrite Halive. }
  destruct (Hinv schedule (started ops) s) as (Hidle & Hd & Hcs & _); [|done|].
  { split; [done|]. split; [done|]. split; [|done].
    simpl. apply Forall_fmap, Forall_forall. intros [op a] Ho.
    specialize (Hops _ Ho). simpl in *. unfold callWaits. simpl.
    by destruct op. }
  destruct Hidle as (Hhd & _ & Hwin & _ & _ & Hmade).
  split; [done|]. split; [done|]. split; [done|]. split; [done|].
  intros i c Hc. rewrite Forall_forall in Hcs.
  pose proof (Hcs c (list_elem_of_lookup_2 _ _ _ Hc)) as Hw.
  unfold callWaits in Hw. split.
  - intros Hop rv Hat. rewrite Hop, Hat in Hw. done.
  - intros rv Hat. rewrite Hat in Hw.
    destruct (operation c), rv; done.
Qed.

(** ** A missed notification *)

(** X18.  [m_setupComplete] is set and notified outside [m_mutex] (lines
    351 and 354).  In the execution [lostWakeup], in which no wait returns
    spuriously, a call of [add] reads a null [m_pMainWindow] at line 408,
    takes the mutex once the display thread releases it at line 348, and
    finds [m_setupComplete] false at line 415; the display thread then sets
    the flag and notifies, and the call enters the wait of line 416 after
    the notification.  The setup is complete, and nothing notifies the call
    again: the display thread runs its loop, and every execution from that
    state leaves the process as it is, the call in its wait, unless that wait
    returns spuriously. *)
Theorem add_can_miss_completion a :
  run lostWakeup (started [(AddNode, a)]) = Some (missed a) ∧
  runNotified lostWakeup (started [(AddNode, a)]) = Some (missed a) ∧
  complete (shared (missed a)) ∧
  ∀ schedule s, runNotified schedule (missed a) = Some s → s = missed a.
Proof.
  split; [by destruct a|]. split; [by destruct a|]. split; [done|].
  induction schedule as [|t schedule IH]; intros s; simpl.
  - by intros [= <-].
  - destruct t as [|[|i]|]; simpl; try done. exact (IH s).
Qed.

(** ** The destructor once the display thread has found data *)

Lemma callerStep_tidy t c d c' d' :
  callerStep t c d = Some (c', d') →
  (m_mutex d = Some t → callOwns c = true) →
  m_threadShouldRun d' = m_threadShouldRun d ∧
  m_pMainWindow d' = m_pMainWindow d ∧
  (m_mutex d' = None ∨ (m_mutex d' = Some t ∧ callOwns c' = true) ∨
   (m_mutex d' = m_mutex d ∧ m_mutex d ≠ Some t)).
Proof.
  destruct c as [op a pc], d as [w p sf mu ws hd sc sr n1 n2 n3].
  destruct (decide (mu = Some t)) as [->|Hne];
    unfold callerStep, setupMainWindow, add, track, lock, try_lock, unlock,
      wake, acquire, wait, release, goto, callOwns; simpl;
    intros H Hown; repeat case_match; simplify_eq/=;
    try (specialize (Hown eq_refl)); simplify_eq/=;
    (split; [done|]); (split; [done|]);
    first [by left | by right; left | by right; right].
Qed.

Lemma displayStep_tidy pc d pc' d' :
  displayStep pc d = Some (pc', d') →
  (m_mutex d = Some DisplayThread → displayHolds pc = true) →
  m_threadShouldRun d' = m_threadShouldRun d ∧
  (is_Some (m_pMainWindow d) → is_Some (m_pMainWindow d')) ∧
  (∀ w', m_pMainWindow d' = Some w' →
         closed w' = false ∨
         ∃ w, m_pMainWindow d = Some w ∧ closed w' = closed w) ∧
  (∀ w, m_pMainWindow d = Some w →
        ∃ w', m_pMainWindow d' = Some w' ∧ closed w' = closed w) ∧
  (m_mutex d' = None ∨ (m_mutex d' = Some DisplayThread ∧ displayHolds pc' = true) ∨
   (m_mutex d' = m_mutex d ∧ m_mutex d ≠ Some DisplayThread)).
Proof.
  destruct d as [w p sf mu ws hd sc sr n1 n2 n3].
  destruct (decide (mu = Some DisplayThread)) as [->|Hne];
    destruct w as [w|], p as [p|], sf as [sf|]; destruct pc;
    unfold displayStep, wake, acquire, wait, release, onWindow; simpl;
    intros H Hown; repeat case_match; simplify_eq/=;
    try (specialize (Hown eq_refl)); simplify_eq/=;
    (split; [done|]); (split; [by eauto|]);
    (split; [intros ? [= <-]; simpl; by eauto|]);
    (split; [intros ? [= <-]; simpl; by eauto|]);
    first [by left | by right; left | by right; right].
Qed.

Lemma tidy_step t s s' :
  destroyer s = None → tidy s → step t s = Some s' → tidy s'.
Proof.
  intros Halive [Hown Hrun Hopen]. destruct t as [|i|]; simpl.
  - destruct (displayStep (display s) (shared s)) as [[pc d]|] eqn:Hstep;
      simpl; [|done].
    intros [= <-].
    destruct (displayStep_tidy _ _ _ _ Hstep (Hown DisplayThread))
      as (Hr & _ & Hcl & _ & Hmu).
    split; simpl.
    + intros t Ht. destruct Hmu as [Hmu|[[Hmu Hh]|[Hmu Hne]]].
      * by rewrite Hmu in Ht.
      * rewrite Hmu in Ht. by injection Ht as <-.
      * rewrite Hmu in Ht. specialize (Hown t Ht).
        destruct t as [|j|]; [done|done|]. simpl in Hown. by rewrite Halive in Hown.
    + by rewrite Hr.
    + intros w' Hw'. destruct (Hcl w' Hw') as [?|(w & Hw & ->)]; [done|eauto].
  - destruct (calls s !! i) as [c|] eqn:Hc; simpl; [|done].
    destruct (callerStep (Caller i) c (shared s)) as [[c' d]|] eqn:Hstep;
      simpl; [|done].
    intros [= <-].
    pose proof (lookup_lt_Some _ _ _ Hc) as Hlt.
    assert (Hc0 : m_mutex (shared s) = Some (Caller i) → callOwns c = true).
    { intros Hm. specialize (Hown _ Hm). simpl in Hown. by rewrite Hc in Hown. }
    destruct (callerStep_tidy _ _ _ _ _ Hstep Hc0) as (Hr & Hw & Hmu).
    split; simpl.
    + intros t Ht. destruct Hmu as [Hmu|[[Hmu Hh]|[Hmu Hne]]].
      * by rewrite Hmu in Ht.
      * rewrite Hmu in Ht. injection Ht as <-. simpl.
        by rewrite list_lookup_insert_eq.
      * rewrite Hmu in Ht. specialize (Hown t Ht).
        destruct t as [|j|]; [done| |].
        -- simpl in *. rewrite list_lookup_insert_ne; [done|]. congruence.
        -- simpl in Hown. by rewrite Halive in Hown.
    + by rewrite Hr.
    + rewrite Hw. done.
  - by rewrite Halive.
Qed.

Lemma tidy_started ops : tidy (started ops).
Proof. split; simpl; done. Qed.

Lemma tidy_run schedule : ∀ s s',
  steady s → tidy s → run schedule s = Some s' → tidy s'.
Proof.
  induction schedule as [|t schedule IH]; intros s s' Hs Ht; simpl.
  - by intros [= <-].
  - destruct (step t s) as [s1|] eqn:Hstep; simpl; [|done].
    apply IH; [by eapply steady_step|].
    eapply tidy_step; [|done|done]. by destruct Hs.
Qed.

Lemma callerStep_returned t c d rv :
  at_ c = Returned rv → callerStep t c d = None.
Proof.
  intros Hat. unfold callerStep, add, track, lock, try_lock, unlock.
  rewrite Hat. by destruct (operation c).
Qed.

Lemma quiescent_step i s : quiescent s → step (Caller i) s = None.
Proof.
  intros Hq. simpl. destruct (calls s !! i) as [c|] eqn:Hc; simpl; [|done].
  destruct (Hq _ _ Hc) as [rv Hat]. by rewrite (callerStep_returned _ _ _ _ Hat).
Qed.

Lemma destroyerStep_inv closes had ex pc d pc' d' :
  destroyerStep ex pc d = Some (pc', d') →
  atDestroyer closes had pc d →
  atDestroyer closes had pc' d' ∧ progress d' = progress d ∧
  destroyerLeft pc' < destroyerLeft pc ∧
  (pc' = Destroyed → ex = true) ∧
  (m_mutex d' = m_mutex d ∧ destroyerHolds pc' = destroyerHolds pc ∨
   m_mutex d = None ∧ m_mutex d' = Some Destroyer ∧ destroyerHolds pc' = true ∨
   m_mutex d = Some Destroyer ∧ m_mutex d' = None ∧ destroyerHolds pc' = false).
Proof.
  destruct d as [w p sf mu ws hd sc sr n1 n2 n3].
  intros Hstep (Hans & Hrun & Hhold & Hfound & Hclosed & Hhad).
  destruct w as [[sz hs hp cl]|]; destruct pc as [b|b|b|[|]| | | | | | |];
    simpl in *; unfold acquire, release, close in *; simpl in *;
    repeat case_match; simplify_eq/=.
  all: split; [|split; [|split; [|split]]].
  all: try done.
  all: try lia.
  all: try (by left).
  all: try (by right; left).
  all: try (right; right; by rewrite Hhold).
  all: unfold atDestroyer; simpl.
  all: try apply bool_decide_eq_true in Hans; subst.
  all: repeat split; try done.
  all: try (intros ? [= <-]; simpl).
  all: try (intros Hh; destruct (Hhad Hh) as (? & ? & Hc); simplify_eq/=;
            eexists; split; [done|]; simpl; first [done | by destruct cl]).
  all: try (intros Hh; destruct (Hhad Hh) as (? & ? & Hc); by simplify_eq/=).
  all: simplify_eq/=; destruct cl; simpl in *;
    [by destruct (Hclosed _ eq_refl eq_refl)|done].
Qed.

Lemma displayStep_left pc d pc' d' :
  displayStep pc d = Some (pc', d') → displayWaits pc = false →
  displayWaits pc' = false ∧
  (pc' = pc ∧ d' = d ∨ displayLeft pc' < displayLeft pc).
Proof.
  destruct d as [w p sf mu ws hd sc sr n1 n2 n3].
  intros H Hw.
  destruct w as [w|], p as [p|], sf as [sf|]; destruct pc;
    try discriminate Hw; revert H;
    unfold displayStep, release, onWindow; simpl;
    intros H; repeat case_match; simplify_eq/=;
    (split; [done|]); first [by left | right; lia].
Qed.

Lemma displayStep_goes pc d :
  displayWaits pc = false → pc ≠ DisplayExited →
  progress d ∈ expected pc →
  (pc = D357 → m_threadShouldRun d = false) →
  ∃ pc' d', displayStep pc d = Some (pc', d') ∧
            displayLeft pc' < displayLeft pc.
Proof.
  destruct d as [w p sf mu ws hd sc sr n1 n2 n3].
  intros Hw Hne Hin Hrun.
  destruct pc; try discriminate Hw; try done; unfold progress in Hin;
    simpl in Hin;
    repeat (apply elem_of_cons in Hin as [Hin|Hin]);
    try (by apply elem_of_nil in Hin);
    destruct w as [[sz hs hp cl]|], p as [[hw]|], sf as [[ini hb]|];
    simplify_eq/=; try (rewrite (Hrun eq_refl)); try destruct sr;
    eexists _, _; (split; [reflexivity|simpl; lia]).
Qed.

Lemma displayStep_winding closes had pc0 d pc0' d' pc :
  displayStep pc0 d = Some (pc0', d') →
  (displayHolds pc0 = true → m_mutex d = Some DisplayThread) →
  (m_mutex d = Some DisplayThread → displayHolds pc0 = true) →
  atDestroyer closes had pc d → atDestroyer closes had pc d'.
Proof.
  intros Hstep Hholds Hown (Hans & Hrun & Hhold & Hfound & Hclosed & Hhad).
  destruct (displayStep_tidy _ _ _ _ Hstep Hown) as (Hr & Hwin & Hcl & Hkeep & _).
  destruct (displayStep_mutex _ _ _ _ Hstep Hholds) as [_ Hmu].
  split; [done|]. split; [by rewrite Hr|]. split; [|split; [|split]].
  - intros Hh. specialize (Hhold Hh).
    destruct Hmu as [->|[Hm|Hm]]; [done| |]; rewrite Hm in Hhold; done.
  - auto.
  - intros w' Hw' Hc. destruct (Hcl w' Hw') as [Hf|(w & Hw & He)].
    + by rewrite Hf in Hc.
    + apply (Hclosed w Hw). by rewrite <- He.
  - intros Hh. destruct (Hhad Hh) as (w & Hw & Hc).
    destruct (Hkeep w Hw) as (w' & Hw' & He). exists w'. by rewrite He.
Qed.

Lemma winding_step closes had t s s' :
  winding closes had s → step t s = Some s' → winding closes had s'.
Proof.
  intros [Hprog Hq Hw Hholds Hown (pc & Hpc & Hat) Hjoin].
  destruct t as [|i|].
  - simpl.
    destruct (displayStep (display s) (shared s)) as [[pc0 d]|] eqn:Hstep;
      simpl; [|done].
    intros [= <-].
    destruct (displayStep_tidy _ _ _ _ Hstep (Hown DisplayThread))
      as (_ & _ & _ & _ & Hmu).
    destruct (displayStep_mutex _ _ _ _ Hstep Hholds) as [Hholds' _].
    destruct (displayStep_left _ _ _ _ Hstep Hw) as [Hw' _].
    split; simpl.
    + by eapply displayStep_progress.
    + done.
    + done.
    + done.
    + intros t Ht. destruct Hmu as [Hmu|[[Hmu Hh]|[Hmu Hne]]].
      * by rewrite Hmu in Ht.
      * rewrite Hmu in Ht. by injection Ht as <-.
      * rewrite Hmu in Ht. specialize (Hown t Ht). by destruct t.
    + exists pc. split; [done|].
      by eapply displayStep_winding; [exact Hstep| |apply (Hown DisplayThread)|].
    + intros Hd. rewrite (Hjoin Hd) in Hstep. done.
  - intros Hstep. by rewrite (quiescent_step i s Hq) in Hstep.
  - simpl. rewrite Hpc. simpl.
    destruct (destroyerStep (bool_decide (display s = DisplayExited)) pc (shared s))
      as [[pc' d]|] eqn:Hstep; simpl; [|done].
    intros [= <-].
    destruct (destroyerStep_inv _ _ _ _ _ _ _ Hstep Hat)
      as (Hat' & Hp & _ & Hex & Hmu).
    split; simpl.
    + by rewrite Hp.
    + done.
    + done.
    + intros Hh. specialize (Hholds Hh).
      destruct Hmu as [[-> _]|[[Hm _]|[Hm _]]]; [done| |];
        rewrite Hm in Hholds; done.
    + intros t Ht. destruct Hmu as [[Hmu Hh]|[(_ & Hmu & Hh)|(_ & Hmu & _)]].
      * rewrite Hmu in Ht. specialize (Hown t Ht).
        destruct t as [|j|]; [done|done|]. simpl in *.
        rewrite Hpc in Hown. by rewrite Hh.
      * rewrite Hmu in Ht. by injection Ht as <-.
      * by rewrite Hmu in Ht.
    + eauto.
    + intros [= ->]. exact (bool_decide_eq_true_1 _ (Hex eq_refl)).
Qed.

Lemma winding_run closes had schedule : ∀ s s',
  winding closes had s → run schedule s = Some s' → winding closes had s'.
Proof.
  induction schedule as [|t schedule IH]; intros s s' Hs; simpl.
  - by intros [= <-].
  - destruct (step t s) as [s1|] eqn:Hstep; simpl; [|done].
    eauto using winding_step.
Qed.

Lemma winding_begin closes s :
  steady s → tidy s → quiescent s → displayWaits (display s) = false →
  winding closes (bool_decide (is_Some (m_pMainWindow (shared s))))
          (beginDestructor closes s).
Proof.
  intros [Hprog Hdisp _ _ Halive] [Hown Hrun Hopen] Hq Hw.
  split; simpl; try done.
  - intros t Ht. specialize (Hown t Ht). destruct t as [|j|]; [done|done|].
    simpl in Hown. by rewrite Halive in Hown.
  - exists (X383 closes). split; [done|].
    split; [simpl; by apply bool_decide_eq_true|].
    split; [done|]. split; [done|]. split; [done|]. split.
    + intros w Hw' Hc. by rewrite (Hopen w Hw') in Hc.
    + intros [w Hw']%bool_decide_eq_true. exists w. split; [done|].
      rewrite (Hopen w Hw'). simpl. by rewrite andb_false_r.
Qed.

Lemma winding_less closes had t s s' :
  winding closes had s → step t s = Some s' →
  s' = s ∨ workLeft s' < workLeft s.
Proof.
  intros [Hprog Hq Hw Hholds Hown (pc & Hpc & Hat) Hjoin].
  destruct t as [|i|].
  - simpl.
    destruct (displayStep (display s) (shared s)) as [[pc0 d]|] eqn:Hstep;
      simpl; [|done].
    intros [= <-].
    destruct (displayStep_left _ _ _ _ Hstep Hw) as [_ [[-> ->]|Hlt]].
    + left. by destruct s.
    + right. unfold workLeft. simpl. lia.
  - intros Hstep. by rewrite (quiescent_step i s Hq) in Hstep.
  - simpl. rewrite Hpc. simpl.
    destruct (destroyerStep (bool_decide (display s = DisplayExited)) pc (shared s))
      as [[pc' d]|] eqn:Hstep; simpl; [|done].
    intros [= <-].
    destruct (destroyerStep_inv _ _ _ _ _ _ _ Hstep Hat) as (_ & _ & Hlt & _).
    right. unfold workLeft. simpl. rewrite Hpc. lia.
Qed.

Lemma winding_goes closes had s :
  winding closes had s →
  destroyer s = Some Destroyed ∨
  ∃ t s', step t s = Some s' ∧ workLeft s' < workLeft s.
Proof.
  intros Hwind.
  pose proof Hwind as [Hprog Hq Hw Hholds Hown (pc & Hpc & Hat) Hjoin].
  assert (Hdisplay : display s ≠ DisplayExited →
            (display s = D357 → m_threadShouldRun (shared s) = false) →
            ∃ t s', step t s = Some s' ∧ workLeft s' < workLeft s).
  { intros Hne Hrun.
    destruct (displayStep_goes _ _ Hw Hne Hprog Hrun) as (pc' & d' & Hstep & Hlt).
    exists DisplayThread. eexists. simpl. rewrite Hstep. simpl.
    split; [done|]. unfold workLeft. simpl. lia. }
  assert (Hdestroyer : ∀ pc' d',
            destroyerStep (bool_decide (display s = DisplayExited)) pc (shared s)
              = Some (pc', d') →
            ∃ t s', step t s = Some s' ∧ workLeft s' < workLeft s).
  { intros pc' d' Hstep.
    destruct (destroyerStep_inv _ _ _ _ _ _ _ Hstep Hat) as (_ & _ & Hlt & _).
    exists Destroyer. eexists. simpl. rewrite Hpc. simpl. rewrite Hstep. simpl.
    split; [done|]. unfold workLeft. simpl. rewrite Hpc. lia. }
  destruct Hat as (Hans & Hrun & Hhold & Hfound & Hclosed & Hhad).
  destruct pc as [b|b|b|b| | | | | | |]; simpl in *.
  - right. eapply Hdestroyer. reflexivity.
  - right. destruct (m_pMainWindow (shared s)); eapply Hdestroyer; reflexivity.
  - right. destruct (m_mutex (shared s)) as [t|] eqn:Hmu.
    + specialize (Hown t eq_refl). destruct t as [|j|]; simpl in Hown.
      * apply Hdisplay.
        -- intros He. by rewrite He in Hown.
        -- intros He. by rewrite He in Hown.
      * destruct (calls s !! j) as [c|] eqn:Hc; [|done].
        destruct (Hq _ _ Hc) as [rv Hrv]. unfold callOwns in Hown.
        by rewrite Hrv in Hown.
      * by rewrite Hpc in Hown.
    + eapply Hdestroyer. unfold acquire. rewrite Hmu. reflexivity.
  - right. destruct (Hfound eq_refl) as [w Hw'].
    eapply Hdestroyer. rewrite Hw'. reflexivity.
  - right. eapply Hdestroyer. reflexivity.
  - right. eapply Hdestroyer. reflexivity.
  - right. eapply Hdestroyer. reflexivity.
  - right. eapply Hdestroyer. reflexivity.
  - right. destruct (m_setupComplete (shared s)); eapply Hdestroyer; reflexivity.
  - right. destruct (decide (display s = DisplayExited)) as [He|Hne].
    + eapply Hdestroyer. by rewrite (bool_decide_eq_true_2 _ He).
    + by apply Hdisplay.
  - by left.
Qed.

(** X19.  The destructor begun when no call is in progress and the display
    thread has found data (it is past the loop of lines 304-305), whatever
    the schedule and whether the window accepts the [close()] of line 392 or
    refuses it.  Every step of a thread is a turn of the display loop that
    leaves the process as it is, or brings the process nearer to its end;
    until the destructor has returned some thread has such a step, so the
    destructor is never stuck: it waits for [m_mutex] only while the display
    thread is setting up, and in its join only until the display thread has
    seen the cleared run flag.  At most one window is made, and it is closed
    only if [close()] accepted.  When the destructor has returned, the
    display thread has returned, the mutex is free, and a window that was
    there when the destructor began is closed exactly if [close()]
    accepted. *)
Theorem teardown_after_data ops schedule1 s1 closes schedule2 s :
  run schedule1 (started ops) = Some s1 →
  (∀ i c, calls s1 !! i = Some c → ∃ rv, at_ c = Returned rv) →
  displayWaits (display s1) = false →
  run schedule2 (beginDestructor closes s1) = Some s →
  (∀ t s', step t s = Some s' → s' = s ∨ workLeft s' < workLeft s) ∧
  (destroyer s = Some Destroyed ∨
   ∃ t s', step t s = Some s' ∧ workLeft s' < workLeft s) ∧
  windowsMade (shared s) ≤ 1 ∧
  (∀ w, m_pMainWindow (shared s) = Some w → closed w = true → closes = true) ∧
  (destroyer s = Some Destroyed →
   display s = DisplayExited ∧ m_mutex (shared s) = None ∧
   m_threadShouldRun (shared s) = false ∧
   (is_Some (m_pMainWindow (shared s1)) →
    closed <$> m_pMainWindow (shared s) = Some closes)).
Proof.
  intros Hrun1 Hq1 Hw1 Hrun2.
  pose proof (steady_run _ _ _ (steady_started ops) Hrun1) as Hsteady.
  pose proof (tidy_run _ _ _ (steady_started ops) (tidy_started ops) Hrun1) as Htidy.
  pose proof (winding_run _ _ _ _ _ (winding_begin closes _ Hsteady Htidy Hq1 Hw1) Hrun2)
    as Hwind.
  split; [intros t s'; by apply (winding_less _ _ _ _ _ Hwind)|].
  split; [by apply (winding_goes _ _ _ Hwind)|].
  destruct Hwind as [Hprog Hq Hw Hholds Hown (pc & Hpc & Hat) Hjoin].
  destruct Hat as (Hans & Hrun & Hhold & Hfound & Hclosed & Hhad).
  split; [|split].
  - revert Hprog. unfold progress.
    destruct (display s); simpl; intros Hin;
      repeat (apply elem_of_cons in Hin as [Hin|Hin]);
      try (by apply elem_of_nil in Hin); injection Hin as _ _ _ _ -> _ _; lia.
  - intros w Hw' Hc. by destruct (Hclosed w Hw' Hc).
  - intros Hd. rewrite Hd in Hpc. injection Hpc as <-. simpl in *.
    specialize (Hjoin Hd). split; [done|]. split; [|split; [done|]].
    + destruct (m_mutex (shared s)) as [t|] eqn:Hmu; [|done].
      specialize (Hown t eq_refl). destruct t as [|j|]; simpl in Hown.
      * by rewrite Hjoin in Hown.
      * destruct (calls s !! j) as [c|] eqn:Hc; [|done].
        destruct (Hq _ _ Hc) as [rv Hrv]. unfold callOwns in Hown.
        by rewrite Hrv in Hown.
      * by rewrite Hd in Hown.
    + intros Hs. destruct (Hhad (bool_decide_eq_true_2 _ Hs)) as (w & -> & Hc).
      simpl. by rewrite Hc, andb_true_r.
Qed.

Lemma setup_once_and_guarded_witness :
  run firstAdd (started [(AddNode, true)]) = Some added ∧
  (windowsMade (shared added) ≤ 1 ∧ surfacesMade (shared added) ≤ 1 ∧
   panelsMade (shared added) ≤ 1) ∧
  (m_setupComplete (shared added) = true →
   complete (shared added) ∧ windowsMade (shared added) = 1 ∧
   surfacesMade (shared added) = 1 ∧ panelsMade (shared added) = 1) ∧
  (∀ i c, calls added !! i = Some c →
     guarded (operation c) = true → at_ c = Delegate →
     m_mutex (shared added) = Some (Caller i) ∧ complete (shared added) ∧
     ∃ rv, callerStep (Caller i) c (shared added)
           = Some (goto (Unguard rv) c, shared added)).
Proof.
  assert (Hrun : run firstAdd (started [(AddNode, true)]) = Some added).
  { vm_compute. reflexivity. }
  split; [exact Hrun|].
  exact (setup_once_and_guarded [(AddNode, true)] firstAdd added Hrun).
Defined.

Lemma setup_never_fails_witness :
  (run firstAdd (started [(AddNode, true)]) = Some added ∧
   calls added !! 0 = Some (mkCall AddNode true (Returned true))) ∧
  at_ (mkCall AddNode true (Returned true)) ≠ NoWindow ∧
  (∀ rv, at_ (mkCall AddNode true (Returned true)) = Returned rv →
     match operation (mkCall AddNode true (Returned true)) with
     | AddNode | AddKeyHandler | AddMouseHandler | AddMotionHandler =>
         rv = accepted (mkCall AddNode true (Returned true))
     | Track | Lock => rv = true
     | TryLock | Unlock => True
     end) ∧
  (announcesData (operation (mkCall AddNode true (Returned true))) = true →
   at_ (mkCall AddNode true (Returned true)) ≠ Entry →
   m_haveData (shared added) = true).
Proof.
  assert (Hrun : run firstAdd (started [(AddNode, true)]) = Some added).
  { vm_compute. reflexivity. }
  split; [split; [exact Hrun|reflexivity]|].
  exact (setup_never_fails [(AddNode, true)] firstAdd added 0
           (mkCall AddNode true (Returned true)) Hrun eq_refl).
Defined.

Lemma locked_sections_exclusive_witness :
  ∃ s c,
    run entering (started [(AddNode, true)]) = Some s ∧
    calls s !! 0 = Some c ∧ callHolds c = true ∧
    0 = 0 ∧ displayHolds (display s) = false ∧
    m_mutex (shared s) = Some (Caller 0).
Proof.
  eexists _, _.
  split; [vm_compute; reflexivity|].
  split; [reflexivity|]. split; [reflexivity|].
  eapply (locked_sections_exclusive [(AddNode, true)] entering _ 0 0);
    [vm_compute; reflexivity|reflexivity|reflexivity|reflexivity|reflexivity].
Defined.

Lemma lock_without_data_witness :
  (∀ o, o ∈ [(Lock, true)] → announcesData o.1 = false) ∧
  ∃ s,
    run [Caller 0; DisplayThread; Caller 0] (started [(Lock, true)]) = Some s ∧
    m_pMainWindow (shared s) = None ∧ windowsMade (shared s) = 0 ∧
    m_haveData (shared s) = false ∧
    displayWaits (display s) = true ∧
    ∀ i c, calls s !! i = Some c →
      (operation c = Lock → ∀ rv, at_ c ≠ Returned rv) ∧
      (∀ rv, at_ c = Returned rv → rv = false).
Proof.
  assert (Hops : ∀ o, o ∈ [(Lock, true)] → announcesData o.1 = false).
  { intros o Ho. apply list_elem_of_singleton in Ho. subst o. reflexivity. }
  split; [exact Hops|].
  eexists. split; [vm_compute; reflexivity|].
  apply (lock_without_data [(Lock, true)] [Caller 0; DisplayThread; Caller 0] _ Hops).
  vm_compute. reflexivity.
Defined.

Lemma teardown_after_data_witness :
  run firstAdd (started [(AddNode, true)]) = Some added ∧
  (∀ i c, calls added !! i = Some c → ∃ rv, at_ c = Returned rv) ∧
  displayWaits (display added) = false ∧
  ∃ s,
    run closeDown (beginDestructor false added) = Some s ∧
    destroyer s = Some Destroyed ∧
    (∀ t s', step t s = Some s' → s' = s ∨ workLeft s' < workLeft s) ∧
    (destroyer s = Some Destroyed ∨
     ∃ t s', step t s = Some s' ∧ workLeft s' < workLeft s) ∧
    windowsMade (shared s) ≤ 1 ∧
    (∀ w, m_pMainWindow (shared s) = Some w → closed w = true → false = true) ∧
    (destroyer s = Some Destroyed →
     display s = DisplayExited ∧ m_mutex (shared s) = None ∧
     m_threadShouldRun (shared s) = false ∧
     (is_Some (m_pMainWindow (shared added)) →
      closed <$> m_pMainWindow (shared s) = Some false)).
Proof.
  assert (Hrun : run firstAdd (started [(AddNode, true)]) = Some added).
  { vm_compute. reflexivity. }
  assert (Hq : ∀ i c, calls added !! i = Some c → ∃ rv, at_ c = Returned rv).
  { intros [|i] c Hc; simpl in Hc; [|discriminate Hc].
    injection Hc as <-. exists true. reflexivity. }
  split; [exact Hrun|]. split; [exact Hq|]. split; [reflexivity|].
  eexists. split; [vm_compute; reflexivity|]. split; [reflexivity|].
  apply (teardown_after_data [(AddNode, true)] firstAdd added false closeDown
           _ Hrun Hq eq_refl).
  vm_compute. reflexivity.
Defined.

End StartupFacts.

(** ** Facts about the singleton *)

Module SingletonFacts.
Import Singleton.

Lemma orderly_begun n : orderly (begun n).
Proof.
  split; simpl.
  - by left.
  - intros i pc Hi. apply lookup_replicate in Hi as [-> _]. done.
  - done.
  - intros i Hi. by apply lookup_replicate in Hi as [? _].
  - intros i pc Hi. apply lookup_replicate in Hi as [-> _]. done.
  - intros i r Hi. by apply lookup_replicate in Hi as [? _].
Qed.

Lemma orderly_step i w w' : orderly w → step i w = Some w' → orderly w'.
Proof.
  intros [Hmade Hholder Hmutex Hnull Hpast Hret]. unfold step.
  destruct (callers w !! i) as [pc|] eqn:Hpc; simpl; [|done].
  destruct (get i pc (statics w)) as [[pc' st]|] eqn:Hstep; simpl; [|done].
  intros [= <-]. pose proof (lookup_lt_Some _ _ _ Hpc) as Hlt.
  destruct w as [[inst mu made] cs]. simpl in *.
  assert (Hlook : ∀ j pcj, <[i := pc']> cs !! j = Some pcj →
                           (j = i ∧ pcj = pc') ∨ (j ≠ i ∧ cs !! j = Some pcj)).
  { intros j pcj. destruct (decide (j = i)) as [->|Hne].
    - rewrite list_lookup_insert_eq by done. intros [= <-]. by left.
    - rewrite list_lookup_insert_ne by done. by right. }
  assert (Hown : holds pc = true → mu = Some i) by eauto.
  assert (Hother : ∀ j, mu = Some j → j ≠ i →
                        ∃ pcj, <[i := pc']> cs !! j = Some pcj ∧ holds pcj = true).
  { intros j Hj Hne. destruct (Hmutex j Hj) as (pcj & ? & ?).
    exists pcj. by rewrite list_lookup_insert_ne. }
  assert (Hself : <[i := pc']> cs !! i = Some pc').
  { by rewrite list_lookup_insert_eq. }
  destruct pc; simpl in Hstep, Hown;
    try (specialize (Hown eq_refl));
    try (pose proof (Hnull _ Hpc) as Hn);
    try (pose proof (Hpast _ _ Hpc eq_refl) as Hp);
    repeat case_match; simplify_eq/=;
    destruct Hmade as [[? ?]|[? ?]]; simplify_eq/=;
    (split; simpl;
     [ by auto
     | intros j pcj Hj Hh; destruct (Hlook _ _ Hj) as [[-> ->]|[Hne Hj']];
       simplify_eq/=;
       first [done | by eauto | by (specialize (Hholder _ _ Hj' Hh); simplify_eq)]
     | intros j Hj; destruct (decide (j = i)) as [->|Hne];
       [simplify_eq/=; eauto; try (destruct (Hmutex _ eq_refl) as (? & ? & ?);
                                   simplify_eq/=)
       |simplify_eq/=; eauto]
     | intros j Hj; destruct (Hlook _ _ Hj) as [[-> ?]|[Hne Hj']];
       simplify_eq/=;
       first [done | by eauto
             | by (specialize (Hholder _ _ Hj' eq_refl); simplify_eq)]
     | intros j pcj Hj Hh; destruct (Hlook _ _ Hj) as [[-> ->]|[Hne Hj']];
       simplify_eq/=; first [done | by eauto]
     | intros j r Hj; destruct (Hlook _ _ Hj) as [[-> ?]|[Hne Hj']];
       simplify_eq/=; first [done | by eauto] ]).
Qed.

Lemma orderly_run schedule : ∀ w w',
  orderly w → run schedule w = Some w' → orderly w'.
Proof.
  induction schedule as [|i schedule IH]; intros w w' Hw; simpl.
  - by intros [= <-].
  - destruct (step i w) as [w1|] eqn:Hstep; simpl; [|done].
    eauto using orderly_step.
Qed.

Lemma get_free i pc st :
  mutex st = None → returned pc = false → is_Some (get i pc st).
Proof.
  intros Hmu Hpc. destruct pc; simpl; try done; rewrite ?Hmu;
    try (destruct (pInstance st)); eauto.
Qed.

Lemma get_holder i pc st :
  holds pc = true → is_Some (get i pc st).
Proof.
  intros Hpc. destruct pc; simpl; try done;
    try (destruct (pInstance st)); eauto.
Qed.

(** X21.  However many threads call [get] and however they interleave:
    [new DisplayInterface()] runs at most once, every call that has returned
    has returned the same instance, which is not null, and unless all calls
    have returned some thread can take a step. *)
Theorem get_makes_one_instance n schedule w :
  run schedule (begun n) = Some w →
  instancesMade (statics w) ≤ 1 ∧
  (∀ i r, callers w !! i = Some (GReturned r) →
     r = Some 0 ∧ pInstance (statics w) = Some 0 ∧
     instancesMade (statics w) = 1) ∧
  ((∀ i pc, callers w !! i = Some pc → ∃ r, pc = GReturned r) ∨
   ∃ i w', step i w = Some w').
Proof.
  intros Hrun.
  destruct (orderly_run _ _ _ (orderly_begun n) Hrun)
    as [Hmade Hholder Hmutex Hnull Hpast Hret].
  split; [destruct Hmade as [[_ ->]|[_ ->]]; lia|].
  split.
  - intros i r Hi. pose proof (Hret _ _ Hi) as ->. split; [done|].
    pose proof (Hpast _ _ Hi eq_refl) as Hp.
    destruct Hmade as [[Hnone _]|[? ?]]; [|done]. by rewrite Hp in Hnone.
  - destruct (decide (Forall (λ pc, returned pc = true) (callers w)))
      as [Hall|Hsome].
    + left. intros i pc Hi. rewrite Forall_forall in Hall.
      specialize (Hall pc (list_elem_of_lookup_2 _ _ _ Hi)).
      destruct pc; try done. eauto.
    + right. apply not_Forall_Exists in Hsome; [|apply _].
      apply Exists_exists in Hsome as (pc & Hin & Hpc).
      apply list_elem_of_lookup in Hin as [j Hj].
      destruct (mutex (statics w)) as [k|] eqn:Hmu.
      * destruct (Hmutex k eq_refl) as (pck & Hk & Hh).
        destruct (get_holder k pck (statics w) Hh) as [[pc' st] Hstep].
        exists k. unfold step. rewrite Hk. simpl. rewrite Hstep. simpl. eauto.
      * destruct (get_free j pc (statics w) Hmu) as [[pc' st] Hstep].
        { unfold compose in Hpc. by destruct (returned pc). }
        exists j. unfold step. rewrite Hj. simpl. rewrite Hstep. simpl. eauto.
Qed.

Lemma get_makes_one_instance_witness :
  ∃ w,
    Singleton.run [0; 1; 0; 0; 0; 0; 0; 1; 1; 1; 1] (begun 2) = Some w ∧
    instancesMade (statics w) ≤ 1 ∧
    (∀ i r, callers w !! i = Some (GReturned r) →
       r = Some 0 ∧ pInstance (statics w) = Some 0 ∧
       instancesMade (statics w) = 1) ∧
    ((∀ i pc, callers w !! i = Some pc → ∃ r, pc = GReturned r) ∨
     ∃ i w', Singleton.step i w = Some w').
Proof.
  eexists. split; [vm_compute; reflexivity|].
  apply (get_makes_one_instance 2 [0; 1; 0; 0; 0; 0; 0; 1; 1; 1; 1]).
  vm_compute. reflexivity.
Defined.

End SingletonFacts.
